(** * Content automation pipeline: validation, retry, orchestration, signing

    A shallow embedding of the Python sources

      - [pipeline/validator.py]          (module [Validator])
      - [pipeline/claude_client.py]      (module [ClaudeClient])
      - [pipeline/content_pipeline.py]   (module [ContentPipeline])
      - [publishers/twitter_publisher.py] (module [TwitterPublisher])
      - [publishers/medium_publisher.py]  (module [MediumPublisher])
      - [publishers/linkedin_publisher.py] (module [LinkedInPublisher])

    together with the properties of these functions that the design
    document states.  Python [str] values are sequences of Unicode code
    points, [int] values are unbounded integers, dictionaries keep their
    insertion order; the embedding keeps all three.

    The files under [pipeline/] are published with irregular indentation.
    The embedding reads the block structure off the statements: in
    [_check_fabrication] the [return found] closes the function after the
    [for] loop (it leaves the loop's two nested blocks at once), and in
    [_call_with_retry] the [backoff] assignment and both [sleep] calls
    follow their [if] inside the [except] clause. *)

From Stdlib Require Import List String Ascii Bool Arith ZArith NArith Lia.
From Stdlib Require Import QArith Qround Lqa DecimalString.
From Stdlib Require Import Floats.SpecFloat.
Import ListNotations.

Close Scope Q_scope.

Set Implicit Arguments.

(** ** Python strings *)

Module PyStr.

(** A [str] is a sequence of code points; [len] counts code points. *)
Definition codepoint := N.
Definition str := list codepoint.

(** An ASCII literal of the source. *)
Definition lit (s : string) : str :=
  map N_of_ascii (list_ascii_of_string s).

Definition len (s : str) : Z := Z.of_nat (List.length s).

(** [not s]: the empty string is the only falsy one. *)
Definition falsy (s : str) : bool :=
  match s with [] => true | _ :: _ => false end.

Fixpoint eqb (a b : str) : bool :=
  match a, b with
  | [], [] => true
  | x :: a', y :: b' => N.eqb x y && eqb a' b'
  | _, _ => false
  end.

(** Lexicographic comparison by code point, as [<] on [str]. *)
Fixpoint compare (a b : str) : comparison :=
  match a, b with
  | [], [] => Eq
  | [], _ :: _ => Lt
  | _ :: _, [] => Gt
  | x :: a', y :: b' =>
      match N.compare x y with
      | Eq => compare a' b'
      | c => c
      end
  end.

(** [str(n)] for an [int]. *)
Definition of_int (n : Z) : str :=
  lit (NilZero.string_of_int (Z.to_int n)).

(** [sep.join(parts)]. *)
Fixpoint join (sep : str) (parts : list str) : str :=
  match parts with
  | [] => []
  | [p] => p
  | p :: rest => p ++ sep ++ join sep rest
  end.

(** [s[:n]]: a negative bound counts from the end. *)
Definition slice_to (n : Z) (s : str) : str :=
  if (0 <=? n)%Z then firstn (Z.to_nat n) s
  else firstn (List.length s - Z.to_nat (- n)) s.

(** The code points for which [str.isspace] holds. *)
Definition isspace (c : codepoint) : bool :=
  ((9 <=? c) && (c <=? 13) || (28 <=? c) && (c <=? 32)
   || (c =? 133) || (c =? 160) || (c =? 5760)
   || (8192 <=? c) && (c <=? 8202)
   || (c =? 8232) || (c =? 8233) || (c =? 8239) || (c =? 8287)
   || (c =? 12288))%N.

Fixpoint lstrip (s : str) : str :=
  match s with
  | c :: s' => if isspace c then lstrip s' else s
  | [] => []
  end.

Definition rstrip (s : str) : str := rev (lstrip (rev s)).

(** [s.strip()]. *)
Definition strip (s : str) : str := rstrip (lstrip s).

(** The [width] low-order digits of [n] in base 16, most significant
    first; [upper] selects [A-F] over [a-f]. *)
Definition hex_digit (upper : bool) (d : N) : codepoint :=
  (if d <? 10 then 48 + d else (if upper then 55 else 87) + d)%N.

Fixpoint hex_digits (upper : bool) (width : nat) (n : N) : str :=
  match width with
  | O => []
  | S width' =>
      hex_digits upper width' (n / 16) ++ [hex_digit upper (n mod 16)]
  end.

(** ASCII classes. *)
Definition is_ascii (c : codepoint) : bool := (c <? 128)%N.
Definition ascii_isupper (c : codepoint) : bool := ((65 <=? c) && (c <=? 90))%N.
Definition ascii_islower (c : codepoint) : bool := ((97 <=? c) && (c <=? 122))%N.
Definition ascii_isdigit (c : codepoint) : bool := ((48 <=? c) && (c <=? 57))%N.
Definition ascii_isalpha (c : codepoint) : bool := ascii_isupper c || ascii_islower c.
Definition ascii_isalnum (c : codepoint) : bool := ascii_isalpha c || ascii_isdigit c.

(** The tables of the Unicode character database that the interpreter
    consults for code points outside ASCII.  They are not part of the
    program; every result below holds for any such tables. *)
Class UnicodeData := {
  (** [str.isalnum] on one code point *)
  uni_isalnum : codepoint -> bool;
  (** simple lower-case mapping, as the [re] engine applies it *)
  uni_tolower : codepoint -> codepoint;
  (** full upper-case mapping, as [str.upper] applies it *)
  uni_toupper_full : codepoint -> list codepoint;
  (** [str.isprintable] on one code point, as [repr] consults it *)
  uni_isprintable : codepoint -> bool
}.

Section WithUnicode.
Context {U : UnicodeData}.

Definition isalnum (c : codepoint) : bool :=
  if is_ascii c then ascii_isalnum c else uni_isalnum c.

Definition tolower (c : codepoint) : codepoint :=
  if is_ascii c then (if ascii_isupper c then c + 32 else c)%N
  else uni_tolower c.

Definition toupper_full (c : codepoint) : list codepoint :=
  if is_ascii c then [if ascii_islower c then c - 32 else c]%N
  else uni_toupper_full c.

(** [s.upper()] *)
Definition upper (s : str) : str := flat_map toupper_full s.

(** [repr(s)]: double quotes when [s] has a single quote and no double
    one, single quotes otherwise; the delimiter and the backslash are
    escaped, control and unprintable code points are written in hex. *)
Definition repr_quote (s : str) : codepoint :=
  if existsb (N.eqb 39) s && negb (existsb (N.eqb 34) s) then 34%N else 39%N.

Definition repr_char (quote c : codepoint) : str :=
  if ((c =? quote) || (c =? 92))%N then [92%N; c]
  else if (c =? 9)%N then lit "\t"
  else if (c =? 10)%N then lit "\n"
  else if (c =? 13)%N then lit "\r"
  else if ((c <? 32) || (c =? 127))%N then lit "\x" ++ hex_digits false 2 c
  else if (c <? 127)%N then [c]
  else if uni_isprintable c then [c]
  else if (c <=? 255)%N then lit "\x" ++ hex_digits false 2 c
  else if (c <=? 65535)%N then lit "\u" ++ hex_digits false 4 c
  else lit "\U" ++ hex_digits false 8 c.

Definition repr (s : str) : str :=
  let q := repr_quote s in
  [q] ++ flat_map (repr_char q) s ++ [q].

(** [repr] of a list of strings, as an f-string formats it. *)
Definition repr_list (l : list str) : str :=
  lit "[" ++ join (lit ", ") (map repr l) ++ lit "]".
End WithUnicode.

End PyStr.

Import PyStr.

(** ** The fragment of [re] that the validator uses *)

Module Re.

(** Compiled pattern items: a word boundary, a literal that has no case,
    a cased literal under [IGNORECASE] (kept as its lower-case form and
    matched against the lower-cased subject, together with the engine's
    extra equivalents of that form). *)
Inductive item :=
| Boundary
| Literal (c : codepoint)
| LiteralIgnore (lo : codepoint).

(** The characters with a meaning in pattern syntax. *)
Definition metachars : list codepoint :=
  lit ".^$*+?{}[]\|()".

Definition is_meta (c : codepoint) : bool := existsb (N.eqb c) metachars.

(** [\b]: a backslash followed by [b]. *)
Definition is_boundary_escape (c d : codepoint) : bool :=
  ((c =? 92) && (d =? 98))%N.

(** Patterns made of ASCII literals and [\b] only. *)
Fixpoint plain (p : str) : bool :=
  match p with
  | [] => true
  | c :: p' =>
      match p' with
      | d :: p'' =>
          if is_boundary_escape c d then plain p''
          else is_ascii c && negb (is_meta c) && plain p'
      | [] => is_ascii c && negb (is_meta c)
      end
  end.

(** A literal under [re.IGNORECASE]: a cased one is kept lower-case. *)
Definition literal_item (c : codepoint) : item :=
  if ascii_isalpha c
  then LiteralIgnore (if ascii_isupper c then c + 32 else c)%N
  else Literal c.

(** Compilation under [re.IGNORECASE]; meaningful on [plain] patterns. *)
Fixpoint compile_ignorecase (p : str) : list item :=
  match p with
  | [] => []
  | c :: p' =>
      match p' with
      | d :: p'' =>
          if is_boundary_escape c d then Boundary :: compile_ignorecase p''
          else literal_item c :: compile_ignorecase p'
      | [] => [literal_item c]
      end
  end.

(** The engine's table of lower-case forms that are equivalent without
    being each other's lower case, restricted to ASCII keys:
    i / dotless i, s / long s. *)
Definition ignorecase_fixes (lo : codepoint) : list codepoint :=
  if (lo =? 105)%N then [305%N]
  else if (lo =? 115)%N then [383%N]
  else [].

Section WithUnicode.
Context {U : UnicodeData}.

(** [\w]: alphanumeric or underscore. *)
Definition is_word (c : codepoint) : bool := isalnum c || (c =? 95)%N.

Definition is_word_opt (c : option codepoint) : bool :=
  match c with Some c => is_word c | None => false end.

(** [\b] between [prev] and the head of [rest]. *)
Definition at_boundary (prev : option codepoint) (rest : str) : bool :=
  negb (Bool.eqb (is_word_opt prev) (is_word_opt (hd_error rest))).

Definition matches_ignore (lo ch : codepoint) : bool :=
  existsb (N.eqb (tolower ch)) (lo :: ignorecase_fixes lo).

(** Match the items at one position; [prev] is the code point before it. *)
Fixpoint match_here (items : list item) (prev : option codepoint)
         (rest : str) : bool :=
  match items with
  | [] => true
  | Boundary :: items' => at_boundary prev rest && match_here items' prev rest
  | Literal c :: items' =>
      match rest with
      | ch :: rest' => (ch =? c)%N && match_here items' (Some ch) rest'
      | [] => false
      end
  | LiteralIgnore lo :: items' =>
      match rest with
      | ch :: rest' => matches_ignore lo ch && match_here items' (Some ch) rest'
      | [] => false
      end
  end.

(** Try every start position, left to right. *)
Fixpoint search_from (items : list item) (prev : option codepoint)
         (rest : str) : bool :=
  match_here items prev rest ||
  match rest with
  | ch :: rest' => search_from items (Some ch) rest'
  | [] => false
  end.

(** Truth value of [re.search(pattern, content, re.IGNORECASE)]. *)
Definition search_ignorecase (pattern content : str) : bool :=
  search_from (compile_ignorecase pattern) None content.
End WithUnicode.

End Re.

(** ** Dictionaries *)

Module PyDict.

(** A [dict] with [str] keys, in insertion order. *)
Definition dict (V : Type) := list (str * V).

Fixpoint get {V} (d : dict V) (k : str) : option V :=
  match d with
  | [] => None
  | (k', v) :: d' => if PyStr.eqb k' k then Some v else get d' k
  end.

(** [d[k] = v]: an existing key keeps its position and takes the new
    value, a new key goes last. *)
Fixpoint set {V} (d : dict V) (k : str) (v : V) : dict V :=
  match d with
  | [] => [(k, v)]
  | (k', v') :: d' =>
      if PyStr.eqb k' k then (k', v) :: d' else (k', v') :: set d' k v
  end.

Definition keys {V} (d : dict V) : list str := map fst d.
Definition values {V} (d : dict V) : list V := map snd d.

(** [dict(pairs)]. *)
Definition of_pairs {V} (ps : list (str * V)) : dict V :=
  fold_left (fun d kv => set d (fst kv) (snd kv)) ps [].

End PyDict.

(** ** [pipeline/validator.py] *)

Module Validator.

Definition FABRICATION_MARKERS : list str :=
  [ lit "\bonce told me\b";
    lit "\ba mentee of mine\b";
    lit "\bI remember when\b";
    lit "\btrue story\b";
    lit "\bfun fact about me\b" ].

Definition PLATFORM_MAX_CHARS : PyDict.dict Z :=
  [ (lit "x", 280%Z);
    (lit "linkedin", 3000%Z);
    (lit "medium", 50000%Z) ].

Record ValidationResult := {
  passed : bool;
  failures : list str
}.

Section WithUnicode.
Context {U : UnicodeData}.

Definition fabrication_message (pattern : str) : str :=
  lit "Fabrication marker detected: '" ++ pattern ++ lit "'".

(** The [for] loop: [found] is threaded through the markers in order. *)
Definition _check_fabrication (content : str) : list str :=
  fold_left
    (fun found pattern =>
       if Re.search_ignorecase pattern content
       then found ++ [fabrication_message pattern]
       else found)
    FABRICATION_MARKERS [].

Definition limit_message (platform : str) (n max_chars : Z) : str :=
  lit "Content exceeds " ++ platform ++ lit " limit: " ++ of_int n
      ++ lit " > " ++ of_int max_chars ++ lit " chars".

(** [max_chars and ...]: [None] and [0] are both falsy. *)
Definition _check_platform_limits (content platform : str) : list str :=
  match PyDict.get PLATFORM_MAX_CHARS platform with
  | Some max_chars =>
      if negb (max_chars =? 0)%Z && (max_chars <? len content)%Z
      then [limit_message platform (len content) max_chars]
      else []
  | None => []
  end.

Definition _check_not_empty (content : str) : list str :=
  if falsy content || (len (strip content) <? 50)%Z
  then [lit "Content is empty or too short"]
  else [].

Definition validate (content platform : str) : ValidationResult :=
  let failures := [] in
  let failures := failures ++ _check_fabrication content in
  let failures := failures ++ _check_platform_limits content platform in
  let failures := failures ++ _check_not_empty content in
  {| passed := (Z.of_nat (List.length failures) =? 0)%Z; failures := failures |}.
End WithUnicode.

End Validator.

(** ** Python floats

    A [float] is a binary64 number, here the rational it denotes.  An
    arithmetic operation gives the binary64 number nearest to the exact
    result, a tie going to the one with the even significand.  Overflow
    and subnormal numbers are left out: the magnitudes that occur are
    between [2^-53] and 5. *)

Module PyFloat.

(** [num / den] rounded to the nearest integer, a tie to the even one. *)
Definition round_half_even (num den : Z) : Z :=
  let f := (num / den)%Z in
  match (2 * (num mod den) ?= den)%Z with
  | Lt => f
  | Gt => (f + 1)%Z
  | Eq => if Z.even f then f else (f + 1)%Z
  end.

(** The exponent [e] of a positive rational: [2^e <= q < 2^(e+1)]. *)
Definition exponent (q : Q) : Z :=
  if Qle_bool 1 q then Z.log2 (Qfloor q)
  else (- Z.log2_up (Qceiling (/ q)))%Z.

(** The multiple of [2^(e-52)] nearest to a positive rational of
    exponent [e]: 53 significant bits. *)
Definition nearest (q : Q) : Q :=
  let e := exponent q in
  if (e <=? 52)%Z
  then Qred (Qmake (round_half_even (Qnum q * 2 ^ (52 - e)) (Zpos (Qden q)))
                   (Z.to_pos (2 ^ (52 - e))))
  else Qred (inject_Z (round_half_even (Qnum q) (Zpos (Qden q) * 2 ^ (e - 52))
                       * 2 ^ (e - 52))).

(** The binary64 number nearest to a rational. *)
Definition binary64 (q : Q) : Q :=
  match Qnum q with
  | Z0 => 0%Q
  | Zpos _ => nearest q
  | Zneg _ => Qopp (nearest (Qopp q))
  end.

(** [float(n)], and [x + y] and [x * y] on floats. *)
Definition from_int (n : Z) : Q := binary64 (inject_Z n).
Definition add (x y : Q) : Q := binary64 (x + y).
Definition mul (x y : Q) : Q := binary64 (x * y).

(** The rational that a finite number of the library's IEEE 754
    formalisation denotes. *)
Definition value (f : spec_float) : Q :=
  match f with
  | S754_finite s m e =>
      let v := if (0 <=? e)%Z then inject_Z (Zpos m * 2 ^ e)
               else Qmake (Zpos m) (Z.to_pos (2 ^ (- e))) in
      Qred (if s then Qopp v else v)
  | _ => 0%Q
  end.

End PyFloat.

(** ** Effects: exceptions and observable events *)

Module Effects.

(** Exception objects, by class, each with its message [str(e)].
    [RateLimitError] is a subclass of [APIError]; [APIError] stands for
    every other member of that class; [OtherError] is an object of any
    other class, with the name of the class. *)
Inductive exn :=
| RateLimitError (message : str)
| APIError (message : str)
| ContentGenerationError (message : str)
| ValueError (message : str)
| KeyError (message : str)
| TypeError (message : str)
| UnicodeEncodeError (message : str)
| TwitterPublisherError (message : str)
| OtherError (class_name message : str).

Definition exn_message (e : exn) : str :=
  match e with
  | RateLimitError m | APIError m | ContentGenerationError m
  | ValueError m | KeyError m | TypeError m | UnicodeEncodeError m
  | TwitterPublisherError m | OtherError _ m => m
  end.

(** The classes that derive from [BaseException] and not from
    [Exception]: those of the interpreter and [asyncio.CancelledError].
    Every other class that occurs, the named ones and those of the
    libraries in use, derives from [Exception]. *)
Definition outside_Exception : list str :=
  [ lit "KeyboardInterrupt"; lit "SystemExit"; lit "CancelledError";
    lit "GeneratorExit"; lit "BaseExceptionGroup"; lit "BaseException" ].

(** [isinstance(e, Exception)]: what [except Exception] catches. *)
Definition is_Exception (e : exn) : bool :=
  match e with
  | OtherError c _ => negb (existsb (PyStr.eqb c) outside_Exception)
  | _ => true
  end.

(** [isinstance(e, (KeyboardInterrupt, SystemExit))]: what the step of an
    [asyncio] task raises again into the event loop. *)
Definition stops_loop (e : exn) : bool :=
  match e with
  | OtherError c _ =>
      PyStr.eqb c (lit "KeyboardInterrupt") || PyStr.eqb c (lit "SystemExit")
  | _ => false
  end.

(** [isinstance(e, asyncio.CancelledError)] *)
Definition is_CancelledError (e : exn) : bool :=
  match e with
  | OtherError c _ => PyStr.eqb c (lit "CancelledError")
  | _ => false
  end.

Inductive Adapter := LinkedInPublisher | MediumPublisher | TwitterPublisher.

(** What a run does to its collaborators. *)
Inductive event :=
| BackendCall (prompt : str) (attempt : nat)
| Sleep (seconds : Q)
| PublishersImport
| PublisherInit (cls : Adapter)
| PublisherPublish (cls : Adapter) (content : str)
| HttpPost (url : str) (headers : list (str * str)) (text : str).

(** A computation yields the events it performed and then either a value
    or the exception it raised. *)
Definition M (A : Type) : Type := list event * (exn + A).

Definition ret {A} (a : A) : M A := ([], inr a).
Definition raise {A} (e : exn) : M A := ([], inl e).
Definition emit (ev : event) : M unit := ([ev], inr tt).

Definition bind {A B} (m : M A) (k : A -> M B) : M B :=
  match m with
  | (t, inl e) => (t, inl e)
  | (t, inr a) => let (t', r) := k a in (t ++ t', r)
  end.

Definition trace {A} (m : M A) : list event := fst m.
Definition result {A} (m : M A) : exn + A := snd m.

(** A coroutine object: nothing happens until it is awaited. *)
Definition coroutine (A : Type) : Type := unit -> M A.
Definition await {A} (c : coroutine A) : M A := c tt.

(** The collaborators of one run: the reply of the text backend to the
    [attempt]-th call made with a prompt, the random bits that the
    generator yields for the [random.uniform(0, 1)] that follows it (the
    low 53 are used), what importing the publisher modules raises if
    anything, and the publisher classes. *)
Record World := {
  backend : str -> nat -> exn + str;
  random : str -> nat -> N;
  publishers_import : option exn;
  adapter_init : Adapter -> option exn;
  adapter_publish : Adapter -> str -> exn + str
}.

End Effects.

Import Effects.

Declare Scope py_scope.
Delimit Scope py_scope with py.
Notation "x <- m ;; k" := (bind m (fun x => k))
  (at level 61, m at next level, right associativity) : py_scope.
Notation "m ;;; k" := (bind m (fun _ => k))
  (at level 61, right associativity) : py_scope.
Local Open Scope py_scope.

(** ** [pipeline/claude_client.py] *)

Module ClaudeClient.

Definition PLATFORM_WORD_LIMITS : PyDict.dict Z :=
  [ (lit "linkedin", 750%Z);
    (lit "medium", 1500%Z);
    (lit "x", 280%Z) ].

Definition MAX_RETRIES : nat := 3.

Definition rate_limit_message : str :=
  lit "Rate limit exceeded after max retries".

Definition api_error_message (e : exn) : str :=
  lit "API error after " ++ of_int (Z.of_nat MAX_RETRIES)
      ++ lit " attempts: " ++ exn_message e.

(** [random.random()]: 53 random bits [k] make the float [k * 2^-53],
    at least 0 and below 1 ([2^53] is 9007199254740992). *)
Definition random_float (bits : N) : Q :=
  Qmake (Z.of_N (bits mod 9007199254740992)) 9007199254740992.

(** [random.uniform(a, b)] is [a + (b - a) * random()], for [int]
    arguments [a] and [b]. *)
Definition uniform (a b : Z) (bits : N) : Q :=
  PyFloat.add (PyFloat.from_int a)
              (PyFloat.mul (PyFloat.from_int (b - a)) (random_float bits)).

(** [(2 ** attempt) + random.uniform(0, 1)]: an [int] plus a [float]. *)
Definition backoff_delay (attempt : nat) (bits : N) : Q :=
  PyFloat.add (PyFloat.from_int (2 ^ Z.of_nat attempt)) (uniform 0 1 bits).

Section WithWorld.
Variable w : World.

(** The body of [for attempt in ...]: [attempts] are the values still
    to be taken.  Falling out of the loop returns [None]. *)
Fixpoint retry_loop (prompt : str) (attempts : list nat) : M (option str) :=
  match attempts with
  | [] => ret None
  | attempt :: rest =>
      emit (BackendCall prompt attempt) ;;;
      match backend w prompt attempt with
      | inr text => ret (Some text)
      | inl (RateLimitError _) =>
          if (attempt =? MAX_RETRIES - 1)%nat
          then raise (ContentGenerationError rate_limit_message)
          else
            let backoff := backoff_delay attempt (random w prompt attempt) in
            emit (Sleep backoff) ;;;
            retry_loop prompt rest
      | inl (APIError _ as e) =>
          if (attempt =? MAX_RETRIES - 1)%nat
          then raise (ContentGenerationError (api_error_message e))
          else
            emit (Sleep 1) ;;;
            retry_loop prompt rest
      | inl e => raise e
      end
  end.

Definition _call_with_retry (prompt : str) : M (option str) :=
  retry_loop prompt (seq 0 MAX_RETRIES).

Definition user_prompt (pillar platform : str) : str :=
  let word_limit :=
    match PyDict.get PLATFORM_WORD_LIMITS platform with
    | Some n => n
    | None => 500%Z
    end in
  lit "Write a " ++ platform ++ lit " post for the '" ++ pillar
    ++ lit "' content pillar. "
    ++ lit "Target length: " ++ of_int word_limit ++ lit " words. "
    ++ lit "Use only verified facts from the profile. No fabrication.".

Definition generate (pillar platform : str) : M (option str) :=
  _call_with_retry (user_prompt pillar platform).
End WithWorld.

End ClaudeClient.

(** ** [pipeline/content_pipeline.py] *)

Module ContentPipeline.

Record PipelineConfig := {
  platforms : list str;
  pillar : str;
  dry_run : bool
}.

Definition SUPPORTED_PLATFORMS : list str :=
  [lit "linkedin"; lit "medium"; lit "x"].

(** [platform in SUPPORTED_PLATFORMS] *)
Definition supported (platform : str) : bool :=
  existsb (PyStr.eqb platform) SUPPORTED_PLATFORMS.

Definition publisher_classes : PyDict.dict Adapter :=
  [ (lit "linkedin", LinkedInPublisher);
    (lit "medium", MediumPublisher);
    (lit "x", TwitterPublisher) ].

Definition dry_run_status (platform : str) : str :=
  lit "[DRY RUN] Would publish to " ++ platform.

Definition validation_message {U : UnicodeData} (platform : str)
           (failures : list str) : str :=
  lit "Validation failed for " ++ platform ++ lit ": " ++ repr_list failures.

(** [asyncio.gather] with [return_exceptions=True]: every coroutine is
    run as a task, and the value or the exception of each task is put at
    its position in the list.  What the step of a task does with an
    exception of its coroutine ([capture]): it keeps it as the task's
    exception; a [CancelledError] cancels the task instead, and [gather]
    lists a cancelled task as a [CancelledError] with an empty message; a
    [KeyboardInterrupt] or [SystemExit] is also raised again into the
    event loop, which stops with it, so that [gather] yields no list.
    The events of the tasks are listed task after task; the tasks share no
    state, so as long as the loop runs any interleaving has the same
    events per task and the same results.  When the loop is stopped the
    tasks listed later have not begun; in an interleaving they may have
    done a part of their events. *)
Definition capture {A} (m : M A) : M (exn + A) :=
  match result m with
  | inl e =>
      if stops_loop e then (trace m, inl e)
      else if is_CancelledError e
      then (trace m, inr (inl (OtherError (lit "CancelledError") [])))
      else (trace m, inr (inl e))
  | inr a => (trace m, inr (inr a))
  end.

Fixpoint gather_return_exceptions {A} (coros : list (coroutine A))
  : M (list (exn + A)) :=
  match coros with
  | [] => ret []
  | c :: coros' =>
      r <- capture (await c) ;;
      rs <- gather_return_exceptions coros' ;;
      ret (r :: rs)
  end.

Section WithWorld.
Context {U : UnicodeData}.
Variable w : World.
Variable config : PipelineConfig.

(** The three publisher modules are imported, then the class is looked up
    in the table and instantiated. *)
Definition _get_publisher (platform : str) : M Adapter :=
  emit PublishersImport ;;;
  match publishers_import w with
  | Some e => raise e
  | None =>
      match PyDict.get publisher_classes platform with
      | None => raise (KeyError (repr platform))
      | Some cls =>
          emit (PublisherInit cls) ;;;
          match adapter_init w cls with
          | Some e => raise e
          | None => ret cls
          end
      end
  end.

Definition publish (publisher : Adapter) (content : str) : M str :=
  emit (PublisherPublish publisher content) ;;;
  match adapter_publish w publisher content with
  | inl e => raise e
  | inr status => ret status
  end.

(** [validate] applies [re.search] to the content first, which raises
    [TypeError] on [None]; the client never returns [None]
    ([call_with_retry_total]). *)
Definition _generate_and_publish (platform : str) : M str :=
  content <- ClaudeClient.generate w (pillar config) platform ;;
  match content with
  | None => raise (TypeError (lit "expected string or bytes-like object"))
  | Some content =>
      let validation := Validator.validate content platform in
      if negb (Validator.passed validation)
      then raise (ValueError
                    (validation_message platform (Validator.failures validation)))
      else if dry_run config
      then ret (dry_run_status platform)
      else
        publisher <- _get_publisher platform ;;
        publish publisher content
  end.

(** The dictionary comprehension: one coroutine object is created per
    supported occurrence and stored under its platform. *)
Definition build_tasks : PyDict.dict (coroutine str) :=
  fold_left
    (fun tasks platform =>
       if supported platform
       then PyDict.set tasks platform (fun _ => _generate_and_publish platform)
       else tasks)
    (platforms config) [].

Definition run : M (PyDict.dict (exn + str)) :=
  let tasks := build_tasks in
  results <- gather_return_exceptions (PyDict.values tasks) ;;
  ret (PyDict.of_pairs (combine (PyDict.keys tasks) results)).
End WithWorld.

End ContentPipeline.

(** ** Bytes, UTF-8, SHA-1, HMAC and Base64 *)

Module Bytes.

(** A [bytes] value: octets as numbers below 256. *)
Definition byte := N.
Definition bytes := list byte.

Definition is_surrogate (c : codepoint) : bool :=
  ((55296 <=? c) && (c <=? 57343))%N.

(** UTF-8 of one code point that is not a surrogate. *)
Definition utf8_char (c : codepoint) : bytes :=
  (if c <? 128 then [c]
   else if c <? 2048 then [192 + c / 64; 128 + c mod 64]
   else if c <? 65536 then
     [224 + c / 4096; 128 + (c / 64) mod 64; 128 + c mod 64]
   else
     [240 + c / 262144; 128 + (c / 4096) mod 64;
      128 + (c / 64) mod 64; 128 + c mod 64])%N.

(** Position of the first surrogate, and the length of the run of
    surrogates that starts there. *)
Fixpoint first_surrogate (s : str) (pos : nat) : option (nat * codepoint * nat) :=
  match s with
  | [] => None
  | c :: s' =>
      if is_surrogate c
      then Some (pos, c,
                 S ((fix run (r : str) : nat :=
                       match r with
                       | d :: r' => if is_surrogate d then S (run r') else O
                       | [] => O
                       end) s'))
      else first_surrogate s' (S pos)
  end.

(** The message of the [UnicodeEncodeError] of the strict codec. *)
Definition encode_error_message (pos : nat) (c : codepoint) (run : nat) : str :=
  if (run =? 1)%nat
  then lit "'utf-8' codec can't encode character '\u" ++ hex_digits false 4 c
         ++ lit "' in position " ++ of_int (Z.of_nat pos)
         ++ lit ": surrogates not allowed"
  else lit "'utf-8' codec can't encode characters in position "
         ++ of_int (Z.of_nat pos) ++ lit "-" ++ of_int (Z.of_nat (pos + run - 1))
         ++ lit ": surrogates not allowed".

(** [s.encode()]: strict UTF-8. *)
Definition encode (s : str) : exn + bytes :=
  match first_surrogate s 0 with
  | Some (pos, c, run) => inl (UnicodeEncodeError (encode_error_message pos c run))
  | None => inr (flat_map utf8_char s)
  end.

(** [b.decode()] on ASCII octets. *)
Definition decode_ascii (b : bytes) : str := b.

(** *** SHA-1 (RFC 3174) on 32-bit words *)

Definition mask32 : N := 4294967295.
Definition add32 (a b : N) : N := N.land (a + b) mask32.
Definition rotl32 (n : N) (x : N) : N :=
  N.land (N.lor (N.shiftl x n) (N.shiftr x (32 - n))) mask32.
Definition not32 (x : N) : N := N.lxor x mask32.

(** Big-endian octets of [n], [width] of them. *)
Fixpoint be_bytes (width : nat) (n : N) : bytes :=
  match width with
  | O => []
  | S width' => be_bytes width' (n / 256) ++ [n mod 256]%N
  end.

Definition be_word (b : bytes) : N :=
  fold_left (fun acc x => acc * 256 + x)%N b 0%N.

Definition sha1_pad (msg : bytes) : bytes :=
  let l := List.length msg in
  let zeros := (64 - (l + 9) mod 64) mod 64 in
  msg ++ [128%N] ++ repeat 0%N zeros ++ be_bytes 8 (8 * N.of_nat l).

(** Split into chunks of [n] items. *)
Fixpoint chunks {A} (fuel n : nat) (l : list A) : list (list A) :=
  match fuel with
  | O => []
  | S fuel' =>
      match l with
      | [] => []
      | _ => firstn n l :: chunks fuel' n (skipn n l)
      end
  end.

Definition chunks_of {A} (n : nat) (l : list A) : list (list A) :=
  chunks (List.length l) n l.

(** The message schedule, most recent word first. *)
Fixpoint schedule (steps : nat) (rev_w : list N) : list N :=
  match steps with
  | O => rev_w
  | S steps' =>
      let x := N.lxor (N.lxor (nth 2 rev_w 0) (nth 7 rev_w 0))
                      (N.lxor (nth 13 rev_w 0) (nth 15 rev_w 0)) in
      schedule steps' (rotl32 1 x :: rev_w)
  end%N.

Definition sha1_f (t : nat) (b c d : N) : N :=
  if (t <? 20)%nat then N.lor (N.land b c) (N.land (not32 b) d)
  else if (t <? 40)%nat then N.lxor (N.lxor b c) d
  else if (t <? 60)%nat then
    N.lor (N.lor (N.land b c) (N.land b d)) (N.land c d)
  else N.lxor (N.lxor b c) d.

Definition sha1_k (t : nat) : N :=
  if (t <? 20)%nat then 1518500249
  else if (t <? 40)%nat then 1859775393
  else if (t <? 60)%nat then 2400959708
  else 3395469782.

Definition state := (N * N * N * N * N)%type.

Definition sha1_round (st : state) (tw : nat * N) : state :=
  let '(a, b, c, d, e) := st in
  let (t, wt) := tw in
  let temp :=
    add32 (add32 (add32 (add32 (rotl32 5 a) (sha1_f t b c d)) e) (sha1_k t)) wt in
  (temp, a, rotl32 30 b, c, d).

Definition sha1_block (h : state) (block : bytes) : state :=
  let w16 := map be_word (chunks_of 4 block) in
  let w := rev (schedule 64 (rev w16)) in
  let '(a, b, c, d, e) := fold_left sha1_round (combine (seq 0 80) w) h in
  let '(h0, h1, h2, h3, h4) := h in
  (add32 h0 a, add32 h1 b, add32 h2 c, add32 h3 d, add32 h4 e).

Definition sha1_init : state :=
  (1732584193, 4023233417, 2562383102, 271733878, 3285377520)%N.

(** [hashlib.sha1(msg).digest()] *)
Definition sha1 (msg : bytes) : bytes :=
  let '(h0, h1, h2, h3, h4) :=
    fold_left sha1_block (chunks_of 64 (sha1_pad msg)) sha1_init in
  flat_map (be_bytes 4) [h0; h1; h2; h3; h4].

(** [hmac.new(key, msg, hashlib.sha1).digest()] (RFC 2104) *)
Definition hmac_sha1 (key msg : bytes) : bytes :=
  let key := if (64 <? List.length key)%nat then sha1 key else key in
  let key := key ++ repeat 0%N (64 - List.length key) in
  let ipad := map (N.lxor 54) key in
  let opad := map (N.lxor 92) key in
  sha1 (opad ++ sha1 (ipad ++ msg)).

(** *** Base64 (RFC 4648), standard alphabet, padded *)

Definition b64_char (n : N) : byte :=
  (if n <? 26 then 65 + n
   else if n <? 52 then 97 + (n - 26)
   else if n <? 62 then 48 + (n - 52)
   else if n =? 62 then 43 else 47)%N.

Definition b64_group (g : bytes) : bytes :=
  match g with
  | [a; b; c] =>
      [b64_char (a / 4); b64_char ((a mod 4) * 16 + b / 16);
       b64_char ((b mod 16) * 4 + c / 64); b64_char (c mod 64)]
  | [a; b] =>
      [b64_char (a / 4); b64_char ((a mod 4) * 16 + b / 16);
       b64_char ((b mod 16) * 4); 61]
  | [a] => [b64_char (a / 4); b64_char ((a mod 4) * 16); 61; 61]
  | _ => []
  end%N.

(** [base64.b64encode(b)] *)
Definition b64encode (b : bytes) : bytes :=
  flat_map b64_group (chunks_of 3 b).

End Bytes.

(** ** [urllib.parse.quote] and [sorted] *)

Module UrlLib.

(** The octets that are never quoted: letters, digits and [_.-~]. *)
Definition always_safe (b : Bytes.byte) : bool :=
  ascii_isalnum b || existsb (N.eqb b) (lit "_.-~").

Definition quote_byte (b : Bytes.byte) : str :=
  if always_safe b then [b] else 37%N :: hex_digits true 2 b.

(** [urllib.parse.quote(s, safe='')]: the UTF-8 octets of [s], each kept
    or written as [%XX]. *)
Definition quote (s : str) : exn + str :=
  match Bytes.encode s with
  | inl e => inl e
  | inr bs => inr (flat_map quote_byte bs)
  end.

End UrlLib.

Module PySort.

(** [<] on [(str, str)] tuples. *)
Definition pair_ltb (a b : str * str) : bool :=
  match PyStr.compare (fst a) (fst b) with
  | Lt => true
  | Gt => false
  | Eq => match PyStr.compare (snd a) (snd b) with Lt => true | _ => false end
  end.

(** Stable insertion: [x] goes before the first item that is greater. *)
Fixpoint insert (x : str * str) (l : list (str * str)) : list (str * str) :=
  match l with
  | [] => [x]
  | y :: l' => if pair_ltb x y then x :: y :: l' else y :: insert x l'
  end.

(** [sorted(items)] *)
Definition sorted (items : list (str * str)) : list (str * str) :=
  fold_left (fun acc x => insert x acc) items [].

End PySort.

(** ** [publishers/twitter_publisher.py] *)

Module TwitterPublisher.

Definition TWEET_ENDPOINT : str := lit "https://api.x.com/2/tweets".
Definition MAX_TWEET_LENGTH : Z := 280.

(** The ellipsis, U+2026, and the arrow of the status line, U+2192. *)
Definition ellipsis : str := [8230%N].
Definition arrow : str := [8594%N].

(** The fields that [__init__] reads from the environment. *)
Record Credentials := {
  consumer_key : str;
  consumer_secret : str;
  access_token : str;
  access_token_secret : str
}.

(** What one [publish] call gets from outside: the value of
    [secrets.token_hex(16)], of [int(time.time())], and the tweet id the
    HTTP exchange yields (or what it raises). *)
Record Env := {
  token_hex : str;
  time_now : Z;
  http_post : str -> list (str * str) -> str -> exn + str
}.

Definition _truncate (content : str) : str :=
  if (len content <=? MAX_TWEET_LENGTH)%Z then content
  else slice_to (MAX_TWEET_LENGTH - 1) content ++ ellipsis.

(** Error-propagating sequencing for the pure string computations. *)
Definition and_then {A B} (r : exn + A) (k : A -> exn + B) : exn + B :=
  match r with
  | inl e => inl e
  | inr a => k a
  end.

(** The generator [f(k, v) for k, v in items], consumed left to right;
    the key of a pair is quoted before its value. *)
Fixpoint quote_pairs (fmt : str -> str -> str) (items : list (str * str))
  : exn + list str :=
  match items with
  | [] => inr []
  | (k, v) :: items' =>
      and_then (UrlLib.quote k) (fun qk =>
      and_then (UrlLib.quote v) (fun qv =>
      and_then (quote_pairs fmt items') (fun rest =>
      inr (fmt qk qv :: rest))))
  end.

Definition param_pair (qk qv : str) : str := qk ++ lit "=" ++ qv.
Definition header_pair (qk qv : str) : str :=
  qk ++ [61%N; 34%N] ++ qv ++ [34%N].

Section WithUnicode.
Context {U : UnicodeData}.
Variable self : Credentials.

Definition oauth_params_init (nonce : str) (timestamp : Z)
  : PyDict.dict str :=
  PyDict.of_pairs
    [ (lit "oauth_consumer_key", consumer_key self);
      (lit "oauth_nonce", nonce);
      (lit "oauth_signature_method", lit "HMAC-SHA1");
      (lit "oauth_timestamp", of_int timestamp);
      (lit "oauth_token", access_token self);
      (lit "oauth_version", lit "1.0") ].

(** [_build_oauth_headers], with the nonce and the clock reading that
    it draws made explicit. *)
Definition _build_oauth_headers (nonce : str) (timestamp : Z)
           (method url : str) : exn + PyDict.dict str :=
  let oauth_params := oauth_params_init nonce timestamp in
  and_then (quote_pairs param_pair (PySort.sorted oauth_params)) (fun parts =>
  let param_string := join (lit "&") parts in
  let method_upper := upper method in
  and_then (UrlLib.quote url) (fun qurl =>
  and_then (UrlLib.quote param_string) (fun qparams =>
  let base_string := method_upper ++ lit "&" ++ qurl ++ lit "&" ++ qparams in
  and_then (UrlLib.quote (consumer_secret self)) (fun qcs =>
  and_then (UrlLib.quote (access_token_secret self)) (fun qts =>
  let signing_key := qcs ++ lit "&" ++ qts in
  and_then (Bytes.encode signing_key) (fun key_bytes =>
  and_then (Bytes.encode base_string) (fun base_bytes =>
  let signature :=
    Bytes.decode_ascii
      (Bytes.b64encode (Bytes.hmac_sha1 key_bytes base_bytes)) in
  let oauth_params :=
    PyDict.set oauth_params (lit "oauth_signature") signature in
  and_then (quote_pairs header_pair (PySort.sorted oauth_params)) (fun hparts =>
  let auth_header := lit "OAuth " ++ join (lit ", ") hparts in
  inr [(lit "Authorization", auth_header)])))))))).

Variable env : Env.

Definition _post_tweet (text : str) : M str :=
  match _build_oauth_headers (token_hex env) (time_now env)
                             (lit "POST") TWEET_ENDPOINT with
  | inl e => raise e
  | inr headers =>
      let headers :=
        PyDict.set headers (lit "Content-Type") (lit "application/json") in
      emit (HttpPost TWEET_ENDPOINT headers text) ;;;
      match http_post env TWEET_ENDPOINT headers text with
      | inl e => raise e
      | inr tweet_id => ret tweet_id
      end
  end.

Definition published_status (tweet_id : str) : str :=
  lit "X: published successfully " ++ arrow ++ lit " tweet ID " ++ tweet_id.

(** [publish]: the [try] body, then the two [except] clauses; an
    exception that neither clause catches leaves [publish] as it is. *)
Definition publish (content : str) : M str :=
  let body :=
    let truncated := _truncate content in
    tweet_id <- _post_tweet truncated ;;
    ret (published_status tweet_id) in
  match body with
  | (t, inl (TwitterPublisherError m)) => (t, inl (TwitterPublisherError m))
  | (t, inl e) =>
      if is_Exception e
      then (t, inl (TwitterPublisherError
                      (lit "X publish failed: " ++ exn_message e)))
      else (t, inl e)
  | (t, inr status) => (t, inr status)
  end.
End WithUnicode.

End TwitterPublisher.

(** Tables that know no code point outside ASCII, for running the model. *)
#[local] Instance ascii_only : UnicodeData := {|
  uni_isalnum := fun _ => false;
  uni_tolower := fun c => c;
  uni_toupper_full := fun c => [c];
  uni_isprintable := fun _ => false
|}.

(** ** Notions used by the statements *)

(** ASCII case folding of one code point. *)
Definition ascii_fold (c : codepoint) : codepoint :=
  if ascii_isupper c then (c + 32)%N else c.

(** Number of items of [l] equal to [x]. *)
Definition occurrences (x : str) (l : list str) : nat :=
  List.length (filter (PyStr.eqb x) l).

(** The retry loop entered at attempt [n]. *)
Definition retry_from (w : World) (prompt : str) (n : nat) : M (option str) :=
  ClaudeClient.retry_loop w prompt (seq n (ClaudeClient.MAX_RETRIES - n)).

(** The two exception classes that the retry loop handles. *)
Definition retryable (e : exn) : bool :=
  match e with
  | RateLimitError _ | APIError _ => true
  | _ => false
  end.

(** The keys of a dictionary filled from [l]: first occurrences, in order. *)
Definition add_key (keys : list str) (k : str) : list str :=
  if existsb (PyStr.eqb k) keys then keys else keys ++ [k].

Definition first_occurrences (l : list str) : list str :=
  fold_left add_key l [].

(** Events that touch a publisher class. *)
Definition is_publisher_event (ev : event) : bool :=
  match ev with
  | PublishersImport | PublisherInit _ | PublisherPublish _ _ => true
  | _ => false
  end.

Definition publisher_free (t : list event) : Prop :=
  forall ev, In ev t -> is_publisher_event ev = false.




(** The platforms for which [run] launches a task, in dictionary order. *)
Definition launched (config : ContentPipeline.PipelineConfig) : list str :=
  first_occurrences
    (filter ContentPipeline.supported (ContentPipeline.platforms config)).

(** The entry of the task dictionary for one platform. *)
Definition task_entry {U : UnicodeData} (w : World)
           (config : ContentPipeline.PipelineConfig) (platform : str)
  : str * coroutine str :=
  (platform, fun _ => ContentPipeline._generate_and_publish w config platform).

(** The task of a platform stops the event loop: it raises
    [KeyboardInterrupt] or [SystemExit]. *)
Definition task_stops {U : UnicodeData} (w : World)
           (config : ContentPipeline.PipelineConfig) (platform : str) : bool :=
  match result (ContentPipeline._generate_and_publish w config platform) with
  | inl e => stops_loop e
  | inr _ => false
  end.

(** The members of a list up to the first one that stops, included. *)
Fixpoint until (stop : str -> bool) (ks : list str) : list str :=
  match ks with
  | [] => []
  | k :: ks' => if stop k then [k] else k :: until stop ks'
  end.

(** What the first stopping task of a list raises. *)
Fixpoint first_stop {U : UnicodeData} (w : World)
         (config : ContentPipeline.PipelineConfig) (ks : list str) : option exn :=
  match ks with
  | [] => None
  | k :: ks' =>
      match result (ContentPipeline._generate_and_publish w config k) with
      | inl e => if stops_loop e then Some e else first_stop w config ks'
      | inr _ => first_stop w config ks'
      end
  end.

(** What [gather] lists for a task that returned or raised. *)
Definition recorded (r : exn + str) : exn + str :=
  match r with
  | inl e =>
      if is_CancelledError e then inl (OtherError (lit "CancelledError") [])
      else inl e
  | inr status => inr status
  end.

(** Sample collaborators for running the model: sixty letters pass every
    check; the backend is down for the prompt of [down_for] and replies
    with [reply] to every other prompt; every publisher accepts. *)
Definition sixty_letters : str := repeat 97%N 60.

Definition sample_world (down_for pillar reply : str) : World := {|
  backend := fun prompt _ =>
    if PyStr.eqb prompt (ClaudeClient.user_prompt pillar down_for)
    then inl (OtherError (lit "ConnectionError") (lit "backend down"))
    else inr reply;
  random := fun _ _ => 4503599627370496%N;
  publishers_import := None;
  adapter_init := fun _ => None;
  adapter_publish := fun _ _ => inr (lit "published")
|}.

(** As [sample_world], with the backend raising [e] for the prompt of
    [down_for]; and a world in which every publisher raises [e]. *)
Definition raising_world (e : exn) (down_for pillar reply : str) : World := {|
  backend := fun prompt _ =>
    if PyStr.eqb prompt (ClaudeClient.user_prompt pillar down_for)
    then inl e
    else inr reply;
  random := fun _ _ => 4503599627370496%N;
  publishers_import := None;
  adapter_init := fun _ => None;
  adapter_publish := fun _ _ => inr (lit "published")
|}.

Definition failing_publishers (e : exn) (reply : str) : World := {|
  backend := fun _ _ => inr reply;
  random := fun _ _ => 4503599627370496%N;
  publishers_import := None;
  adapter_init := fun _ => None;
  adapter_publish := fun _ _ => inl e
|}.

Definition sample_config (platforms : list str) (dry_run : bool)
  : ContentPipeline.PipelineConfig :=
  {| ContentPipeline.platforms := platforms;
     ContentPipeline.pillar := lit "career_mentorship";
     ContentPipeline.dry_run := dry_run |}.

(** ** The signed request, as the design document words it

    The definitions of this module follow the document, not the code:
    collect the protocol parameters; percent-encode every name and value
    per RFC 3986; sort the pairs by encoded name and join them as
    [name=value] with [&]; the base string is the method, the encoded URL
    and the encoded parameter string joined with [&]; the signing key is
    the encoded consumer secret, [&], the encoded token secret; the
    signature is the Base64 of the HMAC-SHA1 of the base string under that
    key; the header lists all parameters, the signature among them, sorted
    the same way, each value encoded and quoted. *)

Module OAuthSpec.

(** Text without surrogate code points: what UTF-8 can encode. *)
Definition well_formed (s : str) : bool :=
  forallb (fun c => negb (Bytes.is_surrogate c)) s.

Definition unreserved (b : Bytes.byte) : bool :=
  ascii_isalpha b || ascii_isdigit b
  || (b =? 45)%N || (b =? 46)%N || (b =? 95)%N || (b =? 126)%N.

Definition percent_encode_byte (b : Bytes.byte) : str :=
  if unreserved b then [b] else lit "%" ++ hex_digits true 2 b.

Definition percent_encode (s : str) : str :=
  flat_map percent_encode_byte (flat_map Bytes.utf8_char s).

Definition encode_pair (kv : str * str) : str * str :=
  (percent_encode (fst kv), percent_encode (snd kv)).

(** Insertion sort by the first component. *)
Definition key_ltb (a b : str * str) : bool :=
  match PyStr.compare (fst a) (fst b) with Lt => true | _ => false end.

Fixpoint insert_by_key (x : str * str) (l : list (str * str)) : list (str * str) :=
  match l with
  | [] => [x]
  | y :: l' => if key_ltb x y then x :: y :: l' else y :: insert_by_key x l'
  end.

Definition sort_by_key (l : list (str * str)) : list (str * str) :=
  fold_right insert_by_key [] l.

(** Every name is strictly below the next one. *)
Fixpoint increasing (names : list str) : bool :=
  match names with
  | a :: (b :: _) as rest =>
      match PyStr.compare a b with Lt => increasing rest | _ => false end
  | _ => true
  end.

Section WithUnicode.
Context {U : UnicodeData}.
Variable self : TwitterPublisher.Credentials.
Variables (nonce : str) (timestamp : Z) (method url : str).

Definition parameters : list (str * str) :=
  [ (lit "oauth_consumer_key", TwitterPublisher.consumer_key self);
    (lit "oauth_nonce", nonce);
    (lit "oauth_signature_method", lit "HMAC-SHA1");
    (lit "oauth_timestamp", of_int timestamp);
    (lit "oauth_token", TwitterPublisher.access_token self);
    (lit "oauth_version", lit "1.0") ].

(** The parameters with the signature, in the order of their names. *)
Definition signed_parameters (sig : str) : list (str * str) :=
  [ (lit "oauth_consumer_key", TwitterPublisher.consumer_key self);
    (lit "oauth_nonce", nonce);
    (lit "oauth_signature", sig);
    (lit "oauth_signature_method", lit "HMAC-SHA1");
    (lit "oauth_timestamp", of_int timestamp);
    (lit "oauth_token", TwitterPublisher.access_token self);
    (lit "oauth_version", lit "1.0") ].

Definition parameter_string : str :=
  join (lit "&")
       (map (fun kv => fst kv ++ lit "=" ++ snd kv)
            (sort_by_key (map encode_pair parameters))).

Definition base_string : str :=
  upper method ++ lit "&" ++ percent_encode url
               ++ lit "&" ++ percent_encode parameter_string.

Definition signing_key : str :=
  percent_encode (TwitterPublisher.consumer_secret self) ++ lit "&"
    ++ percent_encode (TwitterPublisher.access_token_secret self).

Definition signature : str :=
  Bytes.b64encode
    (Bytes.hmac_sha1 (flat_map Bytes.utf8_char signing_key)
                     (flat_map Bytes.utf8_char base_string)).

Definition authorization : str :=
  lit "OAuth "
    ++ join (lit ", ")
            (map (fun kv => fst kv ++ [61%N; 34%N] ++ snd kv ++ [34%N])
                 (sort_by_key
                    (map encode_pair
                         (parameters ++ [(lit "oauth_signature", signature)])))).
End WithUnicode.

End OAuthSpec.

(** A literal item is only compiled from a code point without case. *)
Definition item_caseless (it : Re.item) : Prop :=
  match it with
  | Re.Literal c => ascii_isalpha c = false
  | _ => True
  end.

(** A backend that is rate limited twice and then replies; the random
    bits make the jitter 1/2. *)
Definition flaky_world : World := {|
  backend := fun _ n =>
    if (n <? 2)%nat then inl (RateLimitError (lit "429")) else inr (lit "generated text");
  random := fun _ _ => 4503599627370496%N;
  publishers_import := None;
  adapter_init := fun _ => None;
  adapter_publish := fun _ _ => inr (lit "ok")
|}.

(** A backend that is always rate limited. *)
Definition limited_world : World := {|
  backend := fun _ _ => inl (RateLimitError (lit "429"));
  random := fun _ _ => 4503599627370496%N;
  publishers_import := None;
  adapter_init := fun _ => None;
  adapter_publish := fun _ _ => inr (lit "ok")
|}.

(** A backend that is always rate limited, with every random bit set. *)
Definition saturated_world : World := {|
  backend := fun _ _ => inl (RateLimitError (lit "429"));
  random := fun _ _ => 9007199254740991%N;
  publishers_import := None;
  adapter_init := fun _ => None;
  adapter_publish := fun _ _ => inr (lit "ok")
|}.

(** Sample credentials with a space, an ampersand, a slash and code
    points outside ASCII; a fixed nonce. *)
Definition sample_credentials : TwitterPublisher.Credentials := {|
  TwitterPublisher.consumer_key := lit "ck KEY";
  TwitterPublisher.consumer_secret := lit "cs&secret";
  TwitterPublisher.access_token := lit "123-Tok/en";
  TwitterPublisher.access_token_secret := lit "ts=" ++ [195%N; 169%N; 233%N]
|}.

Definition sample_nonce : str := lit "0123456789abcdef0123456789abcdef".

(** [s] between double quotes. *)
Definition quoted (s : str) : str := [34%N] ++ s ++ [34%N].

Definition sample_header : str :=
  lit "OAuth oauth_consumer_key=" ++ quoted (lit "ck%20KEY")
    ++ lit ", oauth_nonce=" ++ quoted sample_nonce
    ++ lit ", oauth_signature=" ++ quoted (lit "GrBHi2y5yxxVWFyhgg03Isk%2FQkc%3D")
    ++ lit ", oauth_signature_method=" ++ quoted (lit "HMAC-SHA1")
    ++ lit ", oauth_timestamp=" ++ quoted (lit "1700000000")
    ++ lit ", oauth_token=" ++ quoted (lit "123-Tok%2Fen")
    ++ lit ", oauth_version=" ++ quoted (lit "1.0").

(** Octets in lower-case hex. *)
Definition hexs (b : Bytes.bytes) : str := flat_map (hex_digits false 2) b.

(** ** Further notions *)

(** The last code point of a string, if any. *)
Definition last_codepoint (s : str) : option codepoint :=
  fold_left (fun _ c => Some c) s None.

(** The phrase of a marker: the pattern without its two [\b]. *)
Definition phrase_of (pattern : str) : str :=
  firstn (List.length pattern - 4) (skipn 2 pattern).

(** The message of the emptiness check. *)
Definition empty_message : str := lit "Content is empty or too short".

(** The attempt numbers of the backend calls of a trace, in order. *)
Definition call_attempts (t : list event) : list nat :=
  flat_map (fun ev => match ev with BackendCall _ n => [n] | _ => [] end) t.

(** Calls made with [prompt], numbered from [n] on, with one sleep
    between each two of them. *)
Fixpoint calls_and_sleeps (prompt : str) (n : nat) (delays : list Q)
  : list event :=
  match delays with
  | [] => [BackendCall prompt n]
  | d :: delays' =>
      BackendCall prompt n :: Sleep d :: calls_and_sleeps prompt (S n) delays'
  end.

(** The sleeps of a trace, in order, and their sum in seconds. *)
Definition sleeps (t : list event) : list Q :=
  flat_map (fun ev => match ev with Sleep d => [d] | _ => [] end) t.

Definition total_sleep (t : list event) : Q :=
  fold_right Qplus 0%Q (sleeps t).

(** Number of [publish] calls on the class [cls] in a trace. *)
Definition is_publish (cls : Adapter) (ev : event) : bool :=
  match ev with
  | PublisherPublish c _ =>
      match cls, c with
      | LinkedInPublisher, LinkedInPublisher
      | MediumPublisher, MediumPublisher
      | TwitterPublisher, TwitterPublisher => true
      | _, _ => false
      end
  | _ => false
  end.

Definition publishes_of (cls : Adapter) (t : list event) : nat :=
  List.length (filter (is_publish cls) t).


(** The texts that signing has to encode are all free of surrogates. *)
Definition signable {U : UnicodeData} (self : TwitterPublisher.Credentials)
           (nonce method url : str) : bool :=
  OAuthSpec.well_formed (TwitterPublisher.consumer_key self)
  && OAuthSpec.well_formed nonce
  && OAuthSpec.well_formed (TwitterPublisher.access_token self)
  && OAuthSpec.well_formed url
  && OAuthSpec.well_formed (TwitterPublisher.consumer_secret self)
  && OAuthSpec.well_formed (TwitterPublisher.access_token_secret self)
  && OAuthSpec.well_formed (upper method).



(** ** Methods of an object with fields

    A method of a publisher object reads and writes the fields of [self],
    talks to the outside and returns or raises: a computation takes the
    fields and yields the fields it leaves, the events it performed and
    its outcome. *)

Module Method.
Section WithTypes.
Context {S E : Type}.

Definition t (A : Type) : Type := S -> S * list E * (exn + A).

Definition ret {A} (a : A) : t A := fun s => (s, [], inr a).
Definition raise {A} (e : exn) : t A := fun s => (s, [], inl e).
Definition read : t S := fun s => (s, [], inr s).
Definition write (s' : S) : t unit := fun _ => (s', [], inr tt).

(** One exchange with the outside, whose outcome the outside decides. *)
Definition perform {A} (ev : E) (outcome : exn + A) : t A :=
  fun s => (s, [ev], outcome).

Definition bind {A B} (m : t A) (k : A -> t B) : t B :=
  fun s =>
    match m s with
    | (s1, evs, inl e) => (s1, evs, inl e)
    | (s1, evs, inr a) =>
        match k a s1 with
        | (s2, evs', r) => (s2, evs ++ evs', r)
        end
    end.

(** [try: m  except Exception as e: handler(e)]: an exception of a
    class outside [Exception] is not caught. *)
Definition try_except {A} (m : t A) (handler : exn -> t A) : t A :=
  fun s =>
    match m s with
    | (s1, evs, inl e) =>
        if is_Exception e
        then match handler e s1 with
             | (s2, evs', r) => (s2, evs ++ evs', r)
             end
        else (s1, evs, inl e)
    | (s1, evs, inr a) => (s1, evs, inr a)
    end.

(** [try: m  finally: cleanup]: the cleanup runs on both ways out, and
    what it raises replaces the outcome of [m]. *)
Definition try_finally {A} (m : t A) (cleanup : t unit) : t A :=
  fun s =>
    match m s with
    | (s1, evs, r) =>
        match cleanup s1 with
        | (s2, evs', inl e) => (s2, evs ++ evs', inl e)
        | (s2, evs', inr _) => (s2, evs ++ evs', r)
        end
    end.

Definition fields {A} (o : S * list E * (exn + A)) : S := fst (fst o).
Definition events {A} (o : S * list E * (exn + A)) : list E := snd (fst o).
Definition outcome {A} (o : S * list E * (exn + A)) : exn + A := snd o.

End WithTypes.
End Method.

Declare Scope method_scope.
Delimit Scope method_scope with method.
Notation "x <- m ;; k" := (Method.bind m (fun x => k))
  (at level 61, m at next level, right associativity) : method_scope.
Notation "m ;;; k" := (Method.bind m (fun _ => k))
  (at level 61, right associativity) : method_scope.

(** ** [publishers/medium_publisher.py] *)

Module MediumPublisher.

Local Open Scope method_scope.

Definition BASE_URL : str := lit "https://api.medium.com/v1".

Definition arrow : str := [8594%N].
Definition newline : codepoint := 10%N.
Definition hash : codepoint := 35%N.

(** [class MediumPublisherError(Exception)] *)
Definition class_name : str := lit "MediumPublisherError".
Definition MediumPublisherError (message : str) : exn :=
  OtherError class_name message.

(** [isinstance(e, MediumPublisherError)] *)
Definition is_MediumPublisherError (e : exn) : bool :=
  match e with
  | OtherError c _ => PyStr.eqb c class_name
  | _ => false
  end.

(** The fields of a publisher: the token that [__init__] reads and the
    cached user id. *)
Record Self := {
  token : str;
  _user_id : option str
}.

(** The two requests that the publisher sends. *)
Inductive request :=
| Get (url : str) (headers : PyDict.dict str)
| Post (url : str) (headers payload : PyDict.dict str).

(** What one [publish] call gets from outside: [data.id] of the answer to
    a GET and [data.url] of the answer to a POST (or what the exchange
    raises), and the environment variable [MEDIUM_PUBLISH_STATUS]. *)
Record Env := {
  http_get : str -> PyDict.dict str -> exn + str;
  http_post : str -> PyDict.dict str -> PyDict.dict str -> exn + str;
  MEDIUM_PUBLISH_STATUS : option str
}.

(** [s.split(sep)] for a separator of one code point. *)
Fixpoint split (sep : codepoint) (s : str) : list str :=
  match s with
  | [] => [[]]
  | c :: s' =>
      if N.eqb c sep then [] :: split sep s'
      else match split sep s' with
           | l :: ls => (c :: l) :: ls
           | [] => [[c]]
           end
  end.

(** [s.lstrip(chars)] *)
Fixpoint lstrip_chars (chars : str) (s : str) : str :=
  match s with
  | c :: s' => if existsb (N.eqb c) chars then lstrip_chars chars s' else s
  | [] => []
  end.

Definition _extract_title_and_body (content : str) : str * str :=
  let lines := split newline (strip content) in
  let first_line :=
    match lines with
    | l :: _ => strip (lstrip_chars [hash] (strip l))
    | [] => lit "Untitled"
    end in
  let body :=
    if (1 <? Z.of_nat (List.length lines))%Z
    then strip (join [newline] (skipn 1 lines))
    else content in
  (first_line, body).

Definition _auth_headers (self : Self) : PyDict.dict str :=
  PyDict.of_pairs
    [ (lit "Authorization", lit "Bearer " ++ token self);
      (lit "Content-Type", lit "application/json");
      (lit "Accept", lit "application/json") ].

Section WithEnv.
Variable env : Env.

Definition method (A : Type) : Type := @Method.t Self request A.

(** [if self._user_id:] holds for a string that is not empty. *)
Definition _get_user_id : method str :=
  self <- Method.read ;;
  match _user_id self with
  | Some (c :: id) => Method.ret (c :: id)
  | _ =>
      let url := BASE_URL ++ lit "/me" in
      let headers := _auth_headers self in
      id <- Method.perform (Get url headers) (http_get env url headers) ;;
      Method.write {| token := token self; _user_id := Some id |} ;;;
      Method.ret id
  end.

Definition _create_post (user_id content : str) : method str :=
  let (title, body) := _extract_title_and_body content in
  let publish_status :=
    match MEDIUM_PUBLISH_STATUS env with
    | Some v => v
    | None => lit "draft"
    end in
  let payload :=
    PyDict.of_pairs
      [ (lit "title", title);
        (lit "contentFormat", lit "markdown");
        (lit "content", content);
        (lit "publishStatus", publish_status) ] in
  self <- Method.read ;;
  let url := BASE_URL ++ lit "/users/" ++ user_id ++ lit "/posts" in
  let headers := _auth_headers self in
  Method.perform (Post url headers payload) (http_post env url headers payload).

Definition published_status (post_url : str) : str :=
  lit "Medium: published successfully " ++ arrow ++ lit " " ++ post_url.

Definition publish (content : str) : method str :=
  Method.try_except
    (user_id <- _get_user_id ;;
     post_url <- _create_post user_id content ;;
     Method.ret (published_status post_url))
    (fun e =>
       if is_MediumPublisherError e then Method.raise e
       else Method.raise
              (MediumPublisherError
                 (lit "Medium publish failed: " ++ exn_message e))).

End WithEnv.
End MediumPublisher.

(** [a] occurs in [b] as one piece. *)
Definition part_of (a b : str) : Prop :=
  exists pre post, b = pre ++ a ++ post.

(** The user id that a Medium publisher holds ready: a cached id that is
    not empty. *)
Definition cached_id (self : MediumPublisher.Self) : option str :=
  match MediumPublisher._user_id self with
  | Some (c :: id) => Some (c :: id)
  | _ => None
  end.

(** What [publish] of the Medium publisher makes of an exception. *)
Definition medium_wrap (e : exn) : exn :=
  if MediumPublisher.is_MediumPublisherError e then e
  else if is_Exception e
  then MediumPublisher.MediumPublisherError
         (lit "Medium publish failed: " ++ exn_message e)
  else e.

Definition is_get (r : MediumPublisher.request) : bool :=
  match r with MediumPublisher.Get _ _ => true | _ => false end.

Definition is_post (r : MediumPublisher.request) : bool :=
  match r with MediumPublisher.Post _ _ _ => true | _ => false end.

Definition posts_url (user_id : str) : str :=
  MediumPublisher.BASE_URL ++ lit "/users/" ++ user_id ++ lit "/posts".

(** The JSON body of the request that creates a post. *)
Definition payload_of (env : MediumPublisher.Env) (content : str)
  : PyDict.dict str :=
  PyDict.of_pairs
    [ (lit "title", fst (MediumPublisher._extract_title_and_body content));
      (lit "contentFormat", lit "markdown");
      (lit "content", content);
      (lit "publishStatus",
       match MediumPublisher.MEDIUM_PUBLISH_STATUS env with
       | Some v => v
       | None => lit "draft"
       end) ].

(** The outcome of [publish] of the Medium publisher, from the outcome of
    the request that creates the post. *)
Definition wrap_outcome (r : exn + str) : exn + str :=
  match r with
  | inl e => inl (medium_wrap e)
  | inr post_url => inr (MediumPublisher.published_status post_url)
  end.

(** A Medium account that answers every request, and one whose profile
    request is refused. *)
Definition sample_medium (status : option str) : MediumPublisher.Env := {|
  MediumPublisher.http_get := fun _ _ => inr (lit "user42");
  MediumPublisher.http_post := fun url _ _ => inr (lit "https://medium.com/p/1");
  MediumPublisher.MEDIUM_PUBLISH_STATUS := status
|}.

Definition refusing_medium : MediumPublisher.Env := {|
  MediumPublisher.http_get := fun _ _ =>
    inl (OtherError (lit "HTTPStatusError") (lit "401 Unauthorized"));
  MediumPublisher.http_post := fun url _ _ => inr (lit "https://medium.com/p/1");
  MediumPublisher.MEDIUM_PUBLISH_STATUS := None
|}.

Definition fresh_publisher : MediumPublisher.Self := {|
  MediumPublisher.token := lit "tok";
  MediumPublisher._user_id := None
|}.

Definition sample_article : str :=
  lit " ## Title " ++ [10%N; 10%N] ++ lit "Body text" ++ [10%N] ++ lit " more " ++ [10%N].

(** Successive [publish] calls on one publisher object, each with what the
    outside answers at that time: the fields left at the end and all the
    requests sent. *)
Fixpoint publish_all (calls : list (MediumPublisher.Env * str))
         (self : MediumPublisher.Self)
  : MediumPublisher.Self * list MediumPublisher.request :=
  match calls with
  | [] => (self, [])
  | (env, content) :: rest =>
      let o := MediumPublisher.publish env content self in
      let (self', evs) := publish_all rest (Method.fields o) in
      (self', Method.events o ++ evs)
  end.

(** The address a request goes to. *)
Definition request_url (r : MediumPublisher.request) : str :=
  match r with
  | MediumPublisher.Get url _ => url
  | MediumPublisher.Post url _ _ => url
  end.

(** ** [publishers/linkedin_publisher.py]

    In [publish] the [try] statement stands inside the [async with] block,
    after the browser and the page are made, and its [except] and
    [finally] clauses belong to it. *)

Module LinkedInPublisher.

Local Open Scope method_scope.

Definition LINKEDIN_FEED_URL : str := lit "https://www.linkedin.com/feed/".

Definition SHARE_BOX : str := lit "[data-test='share-box-click-card']".
Definition TEXT_EDITOR : str :=
  lit "[data-testid='share-creation-state-text-editor']".
Definition PUBLISH_BUTTON : str :=
  lit "[data-testid='share-creation-state-publish-button']".

(** [class LinkedInPublisherError(Exception)] *)
Definition class_name : str := lit "LinkedInPublisherError".
Definition LinkedInPublisherError (message : str) : exn :=
  OtherError class_name message.

(** The calls into the browser automation, one for each [await]: entering
    and leaving [async_playwright()], the calls on the browser and the
    page, and the calls on the element that a selector gave. *)
Inductive action :=
| Start
| Launch (headless : bool)
| NewPage
| Goto (url : str)
| WaitForSelector (selector : str) (timeout : Z)
| Click (selector : str)
| Fill (selector : str) (text : str)
| WaitForLoadState (state : str)
| Close
| Stop.

(** What the outside makes of a call: the exception it raises, if any. *)
Record Env := {
  fails : action -> option exn
}.

Section WithEnv.
Variable env : Env.

Definition method (A : Type) : Type := @Method.t unit action A.

Definition call (a : action) : method unit :=
  Method.perform a
    match fails env a with
    | Some e => inl e
    | None => inr tt
    end.

Definition _open_post_composer : method unit :=
  call (WaitForSelector SHARE_BOX 10000) ;;;
  call (Click SHARE_BOX).

Definition _fill_post_content (content : str) : method unit :=
  call (WaitForSelector TEXT_EDITOR 10000) ;;;
  call (Fill TEXT_EDITOR content).

Definition _submit_post : method unit :=
  call (WaitForSelector PUBLISH_BUTTON 10000) ;;;
  call (Click PUBLISH_BUTTON) ;;;
  call (WaitForLoadState (lit "networkidle")).

Definition publish (content : str) : method str :=
  call Start ;;;
  Method.try_finally
    (call (Launch false) ;;;
     call NewPage ;;;
     Method.try_finally
       (Method.try_except
          (call (Goto LINKEDIN_FEED_URL) ;;;
           _open_post_composer ;;;
           _fill_post_content content ;;;
           _submit_post ;;;
           Method.ret (lit "LinkedIn: published successfully"))
          (fun e =>
             Method.raise
               (LinkedInPublisherError
                  (lit "LinkedIn publish failed: " ++ exn_message e))))
       (call Close))
    (call Stop).

End WithEnv.
End LinkedInPublisher.

(** The calls of a LinkedIn [publish] in which nothing fails, up to the
    last one on the page. *)
Definition setup_steps : list LinkedInPublisher.action :=
  [ LinkedInPublisher.Start;
    LinkedInPublisher.Launch false;
    LinkedInPublisher.NewPage ].

Definition page_steps (content : str) : list LinkedInPublisher.action :=
  [ LinkedInPublisher.Goto LinkedInPublisher.LINKEDIN_FEED_URL;
    LinkedInPublisher.WaitForSelector LinkedInPublisher.SHARE_BOX 10000;
    LinkedInPublisher.Click LinkedInPublisher.SHARE_BOX;
    LinkedInPublisher.WaitForSelector LinkedInPublisher.TEXT_EDITOR 10000;
    LinkedInPublisher.Fill LinkedInPublisher.TEXT_EDITOR content;
    LinkedInPublisher.WaitForSelector LinkedInPublisher.PUBLISH_BUTTON 10000;
    LinkedInPublisher.Click LinkedInPublisher.PUBLISH_BUTTON;
    LinkedInPublisher.WaitForLoadState (lit "networkidle") ].

(** The calls of a list that are made when each one waits for the one
    before it to succeed, and the exception that stops them, if any. *)
Fixpoint attempted (env : LinkedInPublisher.Env)
         (steps : list LinkedInPublisher.action)
  : list LinkedInPublisher.action * option exn :=
  match steps with
  | [] => ([], None)
  | a :: steps' =>
      match LinkedInPublisher.fails env a with
      | Some e => ([a], Some e)
      | None => let (done, stopped) := attempted env steps' in (a :: done, stopped)
      end
  end.

Definition succeeds (env : LinkedInPublisher.Env) (a : LinkedInPublisher.action)
  : bool :=
  match LinkedInPublisher.fails env a with
  | None => true
  | Some _ => false
  end.

Definition is_fill (a : LinkedInPublisher.action) : bool :=
  match a with LinkedInPublisher.Fill _ _ => true | _ => false end.


(** Browsers: one in which typing into the editor times out, one that
    cannot be launched, one in which everything works. *)
Definition editor_missing : LinkedInPublisher.Env := {|
  LinkedInPublisher.fails := fun a =>
    if is_fill a then Some (OtherError (lit "TimeoutError") (lit "Timeout 10000ms exceeded"))
    else None
|}.


Definition working_browser : LinkedInPublisher.Env := {|
  LinkedInPublisher.fails := fun _ => None
|}.

Definition is_close (a : LinkedInPublisher.action) : bool :=
  match a with LinkedInPublisher.Close => true | _ => false end.

Definition is_stop (a : LinkedInPublisher.action) : bool :=
  match a with LinkedInPublisher.Stop => true | _ => false end.

(** Case analysis on what the outside makes of the call [a]. *)
Ltac case_call env a :=
  match goal with
  | |- context [LinkedInPublisher.fails env a] =>
      destruct (LinkedInPublisher.fails env a) eqn:?
  end.

Ltac case_calls env content :=
  first
    [ case_call env LinkedInPublisher.Start
    | case_call env LinkedInPublisher.Stop
    | case_call env (LinkedInPublisher.Launch false)
    | case_call env LinkedInPublisher.NewPage
    | case_call env LinkedInPublisher.Close
    | case_call env (LinkedInPublisher.Goto LinkedInPublisher.LINKEDIN_FEED_URL)
    | case_call env (LinkedInPublisher.WaitForSelector LinkedInPublisher.SHARE_BOX 10000)
    | case_call env (LinkedInPublisher.Click LinkedInPublisher.SHARE_BOX)
    | case_call env (LinkedInPublisher.WaitForSelector LinkedInPublisher.TEXT_EDITOR 10000)
    | case_call env (LinkedInPublisher.Fill LinkedInPublisher.TEXT_EDITOR content)
    | case_call env (LinkedInPublisher.WaitForSelector LinkedInPublisher.PUBLISH_BUTTON 10000)
    | case_call env (LinkedInPublisher.Click LinkedInPublisher.PUBLISH_BUTTON)
    | case_call env (LinkedInPublisher.WaitForLoadState (lit "networkidle")) ].

(** * Properties *)

(** ** Strings and dictionaries *)

Lemma eqb_refl (a : str) : PyStr.eqb a a = true.
Proof.
  induction a as [|x a IH]; simpl; [reflexivity|].
  now rewrite N.eqb_refl, IH.
Qed.

Lemma eqb_eq (a b : str) : PyStr.eqb a b = true <-> a = b.
Proof.
  split.
  - revert b; induction a as [|x a IH]; intros [|y b]; simpl; try easy.
    intros H. apply andb_true_iff in H as [Hx Hr].
    apply N.eqb_eq in Hx. apply IH in Hr. now subst.
  - intros ->. apply eqb_refl.
Qed.

Lemma eqb_neq (a b : str) : PyStr.eqb a b = false <-> a <> b.
Proof.
  rewrite <- eqb_eq. destruct (PyStr.eqb a b); split; congruence.
Qed.

Lemma eqb_sym (a b : str) : PyStr.eqb a b = PyStr.eqb b a.
Proof.
  destruct (PyStr.eqb a b) eqn:E.
  - apply eqb_eq in E. subst. now rewrite eqb_refl.
  - symmetry. apply eqb_neq. apply eqb_neq in E. congruence.
Qed.

Lemma len_nonneg (s : str) : (0 <= len s)%Z.
Proof. unfold len. lia. Qed.

(** ** Computations *)

Lemma trace_bind {A B} (m : M A) (k : A -> M B) :
  trace (bind m k)
  = trace m ++ match result m with
               | inl _ => []
               | inr a => trace (k a)
               end.
Proof.
  destruct m as [t [e|a]]; simpl; [now rewrite app_nil_r|].
  now destruct (k a).
Qed.

Lemma result_bind {A B} (m : M A) (k : A -> M B) :
  result (bind m k)
  = match result m with
    | inl e => inl e
    | inr a => result (k a)
    end.
Proof.
  destruct m as [t [e|a]]; simpl; [reflexivity|].
  now destruct (k a).
Qed.

(** ** The validator *)

Section ValidatorFacts.
Context {U : UnicodeData}.
Import Validator.

(** A loop that appends under a test is a filter followed by a map. *)
Lemma append_loop {A B} (test : A -> bool) (g : A -> B) (l : list A) (acc : list B) :
  fold_left (fun found x => if test x then found ++ [g x] else found) l acc
  = acc ++ map g (filter test l).
Proof.
  revert acc. induction l as [|x l IH]; intros acc; simpl.
  - now rewrite app_nil_r.
  - rewrite IH. destruct (test x); simpl; [|reflexivity].
    now rewrite <- app_assoc.
Qed.

Lemma check_fabrication_filter (content : str) :
  _check_fabrication content
  = map fabrication_message
        (filter (fun p => Re.search_ignorecase p content) FABRICATION_MARKERS).
Proof. unfold _check_fabrication. now rewrite append_loop. Qed.

Lemma markers_plain : forallb Re.plain FABRICATION_MARKERS = true.
Proof. reflexivity. Qed.

Lemma platform_max_chars_values platform max_chars :
  PyDict.get PLATFORM_MAX_CHARS platform = Some max_chars ->
  (max_chars = 280 \/ max_chars = 3000 \/ max_chars = 50000)%Z.
Proof.
  unfold PLATFORM_MAX_CHARS; simpl.
  repeat match goal with
         | |- context [if ?b then _ else _] => destruct b
         end; intros H; inversion H; auto.
Qed.

Lemma validate_failures (content platform : str) :
  failures (validate content platform)
  = _check_fabrication content
      ++ _check_platform_limits content platform
      ++ _check_not_empty content.
Proof. unfold validate; simpl. now rewrite <- app_assoc. Qed.

Lemma validate_passed (content platform : str) :
  passed (validate content platform) = true
  <-> failures (validate content platform) = [].
Proof.
  unfold validate; simpl.
  destruct (_ ++ _check_not_empty content) as [|f fs]; simpl; split;
    try reflexivity; try discriminate; lia.
Qed.
End ValidatorFacts.

(** *** Case folding does not change what the markers match *)

Section CaseFolding.
Context {U : UnicodeData}.

Lemma fold_cases a b :
  ascii_fold a = ascii_fold b ->
  a = b \/ (ascii_isupper a = true /\ b = (a + 32)%N)
        \/ (ascii_isupper b = true /\ a = (b + 32)%N).
Proof.
  unfold ascii_fold.
  destruct (ascii_isupper a) eqn:Ea, (ascii_isupper b) eqn:Eb; intros H; auto.
  left. lia.
Qed.

Lemma isupper_range c : ascii_isupper c = true <-> (65 <= c <= 90)%N.
Proof.
  unfold ascii_isupper. rewrite andb_true_iff, !N.leb_le. reflexivity.
Qed.

Lemma upper_facts c :
  ascii_isupper c = true ->
  tolower c = (c + 32)%N /\ tolower (c + 32)%N = (c + 32)%N
  /\ Re.is_word c = true /\ Re.is_word (c + 32)%N = true
  /\ ascii_isalpha c = true /\ ascii_isalpha (c + 32)%N = true.
Proof.
  intros Hc. pose proof (proj1 (isupper_range c) Hc) as R.
  assert (A1 : is_ascii c = true) by (apply N.ltb_lt; lia).
  assert (A2 : is_ascii (c + 32)%N = true) by (apply N.ltb_lt; lia).
  assert (L2 : ascii_islower (c + 32)%N = true)
    by (unfold ascii_islower; apply andb_true_iff; rewrite !N.leb_le; lia).
  assert (U2 : ascii_isupper (c + 32)%N = false)
    by (unfold ascii_isupper; apply andb_false_iff; right; apply N.leb_gt; lia).
  unfold tolower, Re.is_word, isalnum, ascii_isalnum, ascii_isalpha.
  rewrite A1, A2, Hc, L2, U2. simpl. repeat split; reflexivity.
Qed.

Lemma fold_tolower a b : ascii_fold a = ascii_fold b -> tolower a = tolower b.
Proof.
  intros H. destruct (fold_cases _ _ H) as [->|[[Hu ->]|[Hu ->]]]; auto;
    destruct (upper_facts _ Hu) as (T1 & T2 & _); congruence.
Qed.

Lemma fold_is_word a b : ascii_fold a = ascii_fold b -> Re.is_word a = Re.is_word b.
Proof.
  intros H. destruct (fold_cases _ _ H) as [->|[[Hu ->]|[Hu ->]]]; auto;
    destruct (upper_facts _ Hu) as (_ & _ & W1 & W2 & _); congruence.
Qed.

Lemma fold_literal a b c :
  ascii_isalpha c = false -> ascii_fold a = ascii_fold b -> (a =? c)%N = (b =? c)%N.
Proof.
  intros Hc H. destruct (fold_cases _ _ H) as [->|[[Hu ->]|[Hu ->]]]; auto;
    destruct (upper_facts _ Hu) as (_ & _ & _ & _ & P1 & P2).
  - destruct (N.eqb_spec a c), (N.eqb_spec (a + 32)%N c); subst; congruence.
  - destruct (N.eqb_spec b c), (N.eqb_spec (b + 32)%N c); subst; congruence.
Qed.

Lemma literal_item_caseless c : item_caseless (Re.literal_item c).
Proof.
  unfold Re.literal_item. destruct (ascii_isalpha c) eqn:E; simpl; auto.
Qed.

Lemma compile_caseless (p : str) :
  Forall item_caseless (Re.compile_ignorecase p).
Proof.
  assert (H : forall n p, (List.length p <= n)%nat ->
                          Forall item_caseless (Re.compile_ignorecase p)).
  { induction n as [|n IH]; intros [|c [|d q]] Hl; simpl in *;
      try constructor; try lia; auto using literal_item_caseless.
    destruct (Re.is_boundary_escape c d).
    - constructor; [exact I|]. apply IH. lia.
    - constructor; [apply literal_item_caseless|]. apply (IH (d :: q)). simpl. lia. }
  apply (H (List.length p)). lia.
Qed.

Lemma fold_hd a b :
  map ascii_fold a = map ascii_fold b ->
  Re.is_word_opt (hd_error a) = Re.is_word_opt (hd_error b).
Proof.
  destruct a, b; simpl; intros H; try discriminate; auto.
  inversion H. now apply fold_is_word.
Qed.

Lemma fold_match_here items :
  Forall item_caseless items ->
  forall pa pb a b,
    Re.is_word_opt pa = Re.is_word_opt pb ->
    map ascii_fold a = map ascii_fold b ->
    Re.match_here items pa a = Re.match_here items pb b.
Proof.
  induction 1 as [|it items Hit Hits IH]; intros pa pb a b Hp Hab; simpl; auto.
  destruct it as [|c|lo].
  - unfold Re.at_boundary. rewrite Hp, (fold_hd _ _ Hab). f_equal. now apply IH.
  - destruct a as [|x a], b as [|y b]; try discriminate; auto.
    simpl in Hab. inversion Hab.
    rewrite (fold_literal x y c Hit) by assumption. f_equal.
    apply IH; simpl; auto using fold_is_word.
  - destruct a as [|x a], b as [|y b]; try discriminate; auto.
    simpl in Hab. inversion Hab.
    unfold Re.matches_ignore. rewrite (fold_tolower x y) by assumption. f_equal.
    apply IH; simpl; auto using fold_is_word.
Qed.

Lemma fold_search_from items :
  Forall item_caseless items ->
  forall a b pa pb,
    Re.is_word_opt pa = Re.is_word_opt pb ->
    map ascii_fold a = map ascii_fold b ->
    Re.search_from items pa a = Re.search_from items pb b.
Proof.
  intros Hi. induction a as [|x a IH]; intros [|y b] pa pb Hp Hab;
    try discriminate; simpl.
  - f_equal. now apply fold_match_here.
  - inversion Hab. f_equal.
    + apply fold_match_here; auto.
    + apply IH; simpl; auto using fold_is_word.
Qed.

Lemma fold_search (pattern a b : str) :
  map ascii_fold a = map ascii_fold b ->
  Re.search_ignorecase pattern a = Re.search_ignorecase pattern b.
Proof.
  intros H. unfold Re.search_ignorecase.
  apply fold_search_from; auto using compile_caseless.
Qed.
End CaseFolding.

(** *** The claims about the validator *)

Section ValidatorClaims.
Context {U : UnicodeData}.
Import Validator.

(** C3. The fabrication check tries every marker of the fixed set, in
    order and without stopping at the first match: its result is the list
    of the messages of the markers that match, one message per matching
    marker, each naming its marker.  Matching ignores case: contents that
    are equal up to ASCII case give the same failures, and "Once Told Me"
    gives the failure that "once told me" gives. *)
Theorem C3_fabrication_check :
  (forall content,
      _check_fabrication content
      = map fabrication_message
            (filter (fun p => Re.search_ignorecase p content) FABRICATION_MARKERS))
  /\ (forall content p,
         In p FABRICATION_MARKERS ->
         occurrences (fabrication_message p) (_check_fabrication content)
         = if Re.search_ignorecase p content then 1%nat else 0%nat)
  /\ (forall a b,
         map ascii_fold a = map ascii_fold b ->
         _check_fabrication a = _check_fabrication b)
  /\ _check_fabrication (lit "Once Told Me")
     = [lit "Fabrication marker detected: '\bonce told me\b'"]
  /\ _check_fabrication (lit "once told me")
     = [lit "Fabrication marker detected: '\bonce told me\b'"].
Proof.
  split; [exact check_fabrication_filter|]. split; [|split].
  - intros content p Hp. rewrite check_fabrication_filter.
    unfold FABRICATION_MARKERS in *. cbn [filter]. cbn [In] in Hp.
    destruct Hp as [<-|[<-|[<-|[<-|[<-|[]]]]]];
      repeat match goal with
             | |- context [Re.search_ignorecase ?q content] =>
                 destruct (Re.search_ignorecase q content)
             end;
      reflexivity.
  - intros a b Hab. rewrite !check_fabrication_filter. f_equal.
    apply filter_ext. intros p. now apply fold_search.
  - split; vm_compute; reflexivity.
Qed.

(** C5. [validate] reports [passed] exactly when its failure list is
    empty, and the failures come in the order of the checks: fabrication
    failures, then the length failure, then the emptiness failure. *)
Theorem C5_validate_passed_and_order (content platform : str) :
  (passed (validate content platform) = true
   <-> failures (validate content platform) = [])
  /\ failures (validate content platform)
     = _check_fabrication content
         ++ _check_platform_limits content platform
         ++ _check_not_empty content
  /\ (List.length (_check_platform_limits content platform) <= 1)%nat
  /\ (List.length (_check_not_empty content) <= 1)%nat.
Proof.
  split; [apply validate_passed|]. split; [apply validate_failures|].
  split.
  - unfold _check_platform_limits.
    destruct (PyDict.get _ _); [destruct (_ && _)|]; simpl; lia.
  - unfold _check_not_empty. destruct (_ || _); simpl; lia.
Qed.

(** C6. For a platform with a configured maximum, content longer than the
    maximum gets exactly one length failure, which states the actual
    length and the limit, and validation fails; content at or below the
    maximum gets no length failure.  For a platform without a configured
    maximum no content gets a length failure. *)
Theorem C6_platform_length_limit (content platform : str) :
  (forall max_chars,
      PyDict.get PLATFORM_MAX_CHARS platform = Some max_chars ->
      ((max_chars < len content)%Z ->
       _check_platform_limits content platform
       = [lit "Content exceeds " ++ platform ++ lit " limit: "
              ++ of_int (len content) ++ lit " > " ++ of_int max_chars
              ++ lit " chars"]
       /\ passed (validate content platform) = false)
      /\ ((len content <= max_chars)%Z ->
          _check_platform_limits content platform = []))
  /\ (PyDict.get PLATFORM_MAX_CHARS platform = None ->
      _check_platform_limits content platform = []).
Proof.
  split.
  - intros max_chars Hget.
    assert (Hnz : (max_chars =? 0)%Z = false).
    { apply Z.eqb_neq. destruct (platform_max_chars_values _ Hget) as [->|[->| ->]]; lia. }
    split; intros Hlen.
    + assert (Hlim : _check_platform_limits content platform
                     = [limit_message platform (len content) max_chars]).
      { unfold _check_platform_limits. rewrite Hget, Hnz.
        replace (max_chars <? len content)%Z with true
          by (symmetry; apply Z.ltb_lt; lia).
        reflexivity. }
      split; [exact Hlim|].
      destruct (passed (validate content platform)) eqn:Hp; [|reflexivity].
      apply validate_passed in Hp. rewrite validate_failures, Hlim in Hp.
      destruct (_check_fabrication content); discriminate.
    + unfold _check_platform_limits. rewrite Hget, Hnz.
      replace (max_chars <? len content)%Z with false
        by (symmetry; apply Z.ltb_ge; lia).
      reflexivity.
  - intros Hget. unfold _check_platform_limits. now rewrite Hget.
Qed.
End ValidatorClaims.


Lemma C3_fabrication_check_witness :
  occurrences (Validator.fabrication_message (lit "\btrue story\b"))
              (Validator._check_fabrication
                 (lit "A mentee of mine once told me a True Story."))
  = 1%nat
  /\ Validator._check_fabrication (lit "TRUE STORY")
     = Validator._check_fabrication (lit "true story").
Proof.
  destruct (@C3_fabrication_check ascii_only) as (_ & Hcount & Hfold & _).
  split.
  - rewrite Hcount; [reflexivity|]. simpl. auto.
  - apply Hfold. reflexivity.
Defined.

Lemma C6_platform_length_limit_witness :
  Validator._check_platform_limits (repeat 97%N 300) (lit "x")
  = [lit "Content exceeds x limit: 300 > 280 chars"]
  /\ Validator._check_platform_limits (repeat 97%N 280) (lit "x") = []
  /\ Validator._check_platform_limits (repeat 97%N 300) (lit "mastodon") = [].
Proof.
  split; [|split].
  - destruct (@C6_platform_length_limit ascii_only (repeat 97%N 300) (lit "x"))
      as (H & _).
    destruct (H 280%Z eq_refl) as (Hover & _).
    destruct Hover as (Hmsg & _); [reflexivity|]. exact Hmsg.
  - destruct (@C6_platform_length_limit ascii_only (repeat 97%N 280) (lit "x"))
      as (H & _).
    destruct (H 280%Z eq_refl) as (_ & Hat).
    apply Hat. discriminate.
  - destruct (@C6_platform_length_limit ascii_only (repeat 97%N 300) (lit "mastodon"))
      as (_ & H).
    apply H. reflexivity.
Defined.

(** ** The Twitter publisher: truncation *)

Section TruncateClaims.
Context {U : UnicodeData}.
Import TwitterPublisher.

Lemma slice_to_279 (content : str) :
  slice_to (MAX_TWEET_LENGTH - 1) content = firstn 279 content.
Proof. reflexivity. Qed.

Lemma truncated_len (content : str) :
  (280 < len content)%Z -> len (firstn 279 content ++ ellipsis) = 280%Z.
Proof.
  unfold len, ellipsis. intros H.
  rewrite length_app, length_firstn. simpl List.length. lia.
Qed.

Lemma truncate_len (content : str) : (len (_truncate content) <= 280)%Z.
Proof.
  unfold _truncate. rewrite slice_to_279. unfold MAX_TWEET_LENGTH.
  destruct (Z.leb_spec (len content) 280) as [Hle|Hgt]; [exact Hle|].
  rewrite truncated_len by exact Hgt. lia.
Qed.

(** The only text that [publish] hands to the HTTP client is the
    truncated content. *)
Lemma publish_posts_truncated self env content url headers text :
  In (HttpPost url headers text) (trace (publish self env content)) ->
  text = _truncate content.
Proof.
  unfold publish, _post_tweet.
  destruct (_build_oauth_headers _ _ _ _ _) as [e|h]; simpl.
  - destruct e; try destruct (is_Exception _); simpl; tauto.
  - destruct (http_post _ _ _ _) as [e|id]; simpl.
    + destruct e; try destruct (is_Exception _); simpl;
        intros [H|[]]; now inversion H.
    + intros [H|[]]; now inversion H.
Qed.

(** C9. Truncation leaves content of at most 280 code points unchanged
    and turns longer content into its first 279 code points followed by
    one ellipsis, 280 code points in all; so the text that [publish] posts
    never has more than 280 code points. *)
Theorem C9_truncate (content : str) :
  ((len content <= 280)%Z -> _truncate content = content)
  /\ ((280 < len content)%Z ->
      _truncate content = firstn 279 content ++ [8230%N]
      /\ len (_truncate content) = 280%Z)
  /\ (len (_truncate content) <= 280)%Z
  /\ (forall self env url headers text,
         In (HttpPost url headers text) (trace (publish self env content)) ->
         (len text <= 280)%Z).
Proof.
  split; [|split; [|split]].
  - intros H. unfold _truncate, MAX_TWEET_LENGTH.
    now apply Z.leb_le in H as ->.
  - intros H. unfold _truncate, MAX_TWEET_LENGTH.
    replace (len content <=? 280)%Z with false by (symmetry; apply Z.leb_gt; lia).
    split; [reflexivity|]. rewrite slice_to_279. now apply truncated_len.
  - apply truncate_len.
  - intros self env url headers text Hin.
    apply publish_posts_truncated in Hin as ->. apply truncate_len.
Qed.
End TruncateClaims.

Lemma C9_truncate_witness :
  TwitterPublisher._truncate (lit "short") = lit "short"
  /\ len (TwitterPublisher._truncate (repeat 97%N 300)) = 280%Z.
Proof.
  split.
  - apply (C9_truncate (lit "short")). discriminate.
  - apply (C9_truncate (repeat 97%N 300)). reflexivity.
Defined.

(** ** Floats: the backoff delay *)

Unset Implicit Arguments.

Section FloatFacts.
Import PyFloat ClaudeClient.

Lemma round_half_even_scale (c num den : Z) :
  (0 < c)%Z -> (0 < den)%Z ->
  round_half_even (c * num) (c * den) = round_half_even num den.
Proof.
  intros Hc Hd. unfold round_half_even.
  rewrite Z.div_mul_cancel_l by lia.
  rewrite Z.mul_mod_distr_l by lia.
  replace (2 * (c * (num mod den)) ?= c * den)%Z
    with (2 * (num mod den) ?= den)%Z; [reflexivity|].
  destruct (Z.compare_spec (2 * (num mod den)) den) as [E|E|E]; symmetry.
  - apply Z.compare_eq_iff. nia.
  - apply Z.compare_lt_iff. nia.
  - apply Z.compare_gt_iff. nia.
Qed.

Lemma Qred_divisors (q : Q) :
  exists g, (0 < g)%Z /\ Qnum q = (g * Qnum (Qred q))%Z
            /\ Zpos (Qden q) = (g * Zpos (Qden (Qred q)))%Z.
Proof.
  destruct q as [n d]. unfold Qred.
  pose proof (Z.ggcd_correct_divisors n (Zpos d)) as H.
  pose proof (Z.ggcd_gcd n (Zpos d)) as Hg.
  pose proof (Z.gcd_nonneg n (Zpos d)) as Hn.
  destruct (Z.ggcd n (Zpos d)) as [g [a b]]. simpl in *.
  destruct H as [Ha Hb]. exists g.
  assert (0 < g)%Z by (destruct (Z.eq_dec g 0); [subst; lia|lia]).
  assert (0 < b)%Z by nia.
  split; [assumption|]. split; [assumption|].
  rewrite Z2Pos.id by assumption. assumption.
Qed.

Lemma nearest_Qred (q : Q) : nearest q = nearest (Qred q).
Proof.
  unfold nearest.
  assert (He : exponent q = exponent (Qred q)).
  { unfold exponent. pose proof (Qred_correct q) as E.
    rewrite (Qleb_comp 1%Q 1%Q (Qeq_refl 1%Q) (Qred q) q E).
    rewrite (Qfloor_comp (Qred q) q E).
    rewrite (Qceiling_comp (/ Qred q) (/ q)) by (now rewrite E).
    reflexivity. }
  rewrite <- He.
  destruct (Qred_divisors q) as (g & Hg & Hn & Hd).
  destruct (exponent q <=? 52)%Z eqn:Hle.
  - f_equal. f_equal. rewrite Hn, Hd.
    rewrite <- Z.mul_assoc. apply round_half_even_scale; lia.
  - f_equal. f_equal. f_equal. rewrite Hn, Hd.
    rewrite <- Z.mul_assoc. apply round_half_even_scale; [lia|].
    apply Z.leb_gt in Hle.
    assert (0 < 2 ^ (exponent q - 52))%Z by (apply Z.pow_pos_nonneg; lia). nia.
Qed.

Lemma nearest_comp (q q' : Q) : (q == q')%Q -> nearest q = nearest q'.
Proof.
  intros E. rewrite (nearest_Qred q), (nearest_Qred q').
  now rewrite (Qred_complete _ _ E).
Qed.

Lemma binary64_comp (q q' : Q) : (q == q')%Q -> binary64 q = binary64 q'.
Proof.
  intros E. unfold binary64.
  destruct q as [n d], q' as [n' d']. unfold Qeq in E. cbn [Qnum Qden] in *.
  destruct n as [|p|p], n' as [|p'|p']; try lia; try reflexivity.
  - apply nearest_comp. exact E.
  - f_equal. apply nearest_comp. unfold Qeq, Qopp. cbn [Qnum Qden]. lia.
Qed.

(** The rounded value is within half a unit of the quotient. *)
Lemma round_half_even_near (num den : Z) :
  (0 < den)%Z ->
  (2 * num - den <= 2 * (round_half_even num den * den) <= 2 * num + den)%Z.
Proof.
  intros Hd. unfold round_half_even.
  pose proof (Z.div_mod num den ltac:(lia)) as E.
  pose proof (Z.mod_pos_bound num den Hd) as B.
  destruct (Z.compare_spec (2 * (num mod den)) den) as [C|C|C];
    [destruct (Z.even (num / den))| |]; nia.
Qed.

Lemma round_half_even_lower (num den a : Z) :
  (0 < den)%Z -> (a * den <= num)%Z -> (a <= round_half_even num den)%Z.
Proof.
  intros Hd H. unfold round_half_even.
  assert (a <= num / den)%Z by (apply Z.div_le_lower_bound; lia).
  destruct (_ ?= _)%Z; [destruct (Z.even _)| |]; lia.
Qed.

Lemma round_half_even_upper (num den b : Z) :
  (0 < den)%Z -> (num <= b * den)%Z -> (round_half_even num den <= b)%Z.
Proof.
  intros Hd H. unfold round_half_even.
  pose proof (Z.div_mod num den ltac:(lia)) as E.
  pose proof (Z.mod_pos_bound num den Hd) as B.
  destruct (Z.compare_spec (2 * (num mod den)) den) as [C|C|C];
    [destruct (Z.even (num / den))| |]; nia.
Qed.

Lemma round_half_even_exact (num den : Z) :
  (0 < den)%Z -> (den | num)%Z -> (round_half_even num den * den = num)%Z.
Proof.
  intros Hd [c ->]. unfold round_half_even.
  rewrite Z.mod_mul, Z.div_mul by lia.
  replace (2 * 0 ?= den)%Z with Lt by (symmetry; apply Z.compare_lt_iff; lia).
  reflexivity.
Qed.


Lemma exponent_below_one (q : Q) : (0 < q)%Q -> (q < 1)%Q -> (exponent q <= -1)%Z.
Proof.
  intros H0 H1. unfold exponent.
  destruct (Qle_bool 1 q) eqn:E.
  - apply Qle_bool_iff in E. exfalso. apply (Qlt_not_le _ _ H1 E).
  - assert (Hc : (2 <= Qceiling (/ q))%Z).
    { assert (1 < / q)%Q.
      { destruct q as [n d]. unfold Qlt, Qinv in *. cbn [Qnum Qden] in *.
        destruct n as [|p|p]; cbn [Qnum Qden]; lia. }
      assert (1 < Qceiling (/ q))%Z; [|lia].
      apply Z.lt_nge. intros Hle.
      pose proof (Qle_ceiling (/ q)) as Hq.
      assert (inject_Z (Qceiling (/ q)) <= 1)%Q.
      { unfold Qle, inject_Z. cbn [Qnum Qden]. lia. }
      apply (Qlt_not_le _ _ H). eapply Qle_trans; eassumption. }
    pose proof (Z.log2_up_le_mono 2 _ Hc) as Hl.
    change (Z.log2_up 2) with 1%Z in Hl. lia.
Qed.

(** A positive multiple of [2^-53] below 1 is a binary64 number. *)
Lemma nearest_small (k : Z) :
  (0 < k < 9007199254740992)%Z -> nearest (Qmake k 9007199254740992) = Qred (Qmake k 9007199254740992).
Proof.
  intros Hk.
  assert (He : (exponent (Qmake k 9007199254740992) <= -1)%Z).
  { apply exponent_below_one; unfold Qlt; cbn [Qnum Qden]; lia. }
  unfold nearest. set (e := exponent _) in *.
  replace (e <=? 52)%Z with true by (symmetry; apply Z.leb_le; lia).
  apply Qred_complete. unfold Qeq. cbn [Qnum Qden].
  assert (Hp : (0 < 2 ^ (52 - e))%Z) by (apply Z.pow_pos_nonneg; lia).
  rewrite Z2Pos.id by exact Hp.
  apply round_half_even_exact; [lia|].
  replace (52 - e)%Z with (53 + (- 1 - e))%Z by lia.
  rewrite Z.pow_add_r by lia. change (2 ^ 53)%Z with 9007199254740992%Z.
  exists (k * 2 ^ (-1 - e))%Z. ring.
Qed.

Lemma binary64_small (k : Z) :
  (0 <= k < 9007199254740992)%Z -> binary64 (Qmake k 9007199254740992) = Qred (Qmake k 9007199254740992).
Proof.
  intros Hk. unfold binary64. cbn [Qnum].
  destruct k as [|p|p]; [reflexivity| |lia].
  apply nearest_small. lia.
Qed.

Lemma uniform_0_1 (bits : N) : uniform 0 1 bits = Qred (random_float bits).
Proof.
  unfold uniform, PyFloat.add, PyFloat.mul.
  change (PyFloat.from_int 0) with 0%Q. change (PyFloat.from_int (1 - 0)) with 1%Q.
  assert (Hk : (0 <= Z.of_N (bits mod 9007199254740992) < 9007199254740992)%Z).
  { pose proof (N.mod_upper_bound bits 9007199254740992 ltac:(discriminate)) as H.
    set (k := (bits mod 9007199254740992)%N) in *. lia. }
  rewrite (binary64_comp (1 * random_float bits) (random_float bits))
    by apply Qmult_1_l.
  unfold random_float at 1. rewrite (binary64_small _ Hk).
  fold (random_float bits).
  rewrite (binary64_comp (0 + Qred (random_float bits)) (random_float bits))
    by (rewrite Qplus_0_l; apply Qred_correct).
  unfold random_float. now apply binary64_small.
Qed.

Lemma binary64_positive (q : Q) : (0 < q)%Q -> binary64 q = nearest q.
Proof.
  destruct q as [[|p|p] d]; unfold Qlt; cbn [Qnum Qden]; intros H;
    [lia|reflexivity|lia].
Qed.

(** The exponent of a number between [2^n] and [2^(n+1)]. *)
Lemma exponent_between (q : Q) (n : Z) :
  (0 <= n)%Z -> (inject_Z (2 ^ n) <= q)%Q -> (q < inject_Z (2 ^ (n + 1)))%Q ->
  exponent q = n.
Proof.
  intros Hn Hlo Hhi. unfold exponent.
  assert (H1 : (1 <= 2 ^ n)%Z) by (apply (Z.pow_le_mono_r 2 0 n); lia).
  assert (Hq : (1 <= q)%Q).
  { eapply Qle_trans; [|exact Hlo]. unfold Qle, inject_Z. cbn [Qnum Qden]. lia. }
  apply Qle_bool_iff in Hq. rewrite Hq.
  assert (Hf : (2 ^ n <= Qfloor q < 2 ^ (n + 1))%Z).
  { split.
    - apply Qfloor_resp_le in Hlo. now rewrite Qfloor_Z in Hlo.
    - apply Z.lt_nge. intros Hge.
      apply (Qlt_not_le _ _ Hhi).
      eapply Qle_trans; [|apply Qfloor_le].
      unfold Qle, inject_Z. cbn [Qnum Qden]. lia. }
  apply Z.log2_unique; [exact Hn|].
  replace (Z.succ n) with (n + 1)%Z by lia. exact Hf.
Qed.

Lemma backoff_delay_rounds (n : nat) (bits : N) :
  (n < 2)%nat ->
  let k := Z.of_N (bits mod 9007199254740992) in
  let num := ((2 ^ Z.of_nat n * 9007199254740992 + k) * 2 ^ (52 - Z.of_nat n))%Z in
  let m := round_half_even num 9007199254740992 in
  backoff_delay n bits = Qred (Qmake m (Z.to_pos (2 ^ (52 - Z.of_nat n))))
  /\ (4503599627370496 <= m <= 9007199254740992)%Z
  /\ (2 * num - 9007199254740992 <= 2 * (m * 9007199254740992)
      <= 2 * num + 9007199254740992)%Z.
Proof.
  intros Hn. cbv zeta.
  assert (Hk : (0 <= Z.of_N (bits mod 9007199254740992) < 9007199254740992)%Z).
  { pose proof (N.mod_upper_bound bits 9007199254740992 ltac:(discriminate)) as H.
    set (k := (bits mod 9007199254740992)%N) in *. lia. }
  set (k := Z.of_N (bits mod 9007199254740992)) in *.
  assert (Hpow : (2 ^ Z.of_nat n = 1 /\ 2 ^ (52 - Z.of_nat n) = 4503599627370496
                  \/ 2 ^ Z.of_nat n = 2 /\ 2 ^ (52 - Z.of_nat n) = 2251799813685248)%Z).
  { destruct n as [|[|n]]; [left|right|lia]; split; reflexivity. }
  split; [|split].
  - unfold backoff_delay, PyFloat.add. rewrite uniform_0_1.
    assert (Hint : PyFloat.from_int (2 ^ Z.of_nat n) = inject_Z (2 ^ Z.of_nat n)).
    { destruct n as [|[|n]]; [reflexivity|reflexivity|lia]. }
    rewrite Hint.
    set (q := Qmake (2 ^ Z.of_nat n * 9007199254740992 + k) 9007199254740992).
    rewrite (binary64_comp _ q).
    2:{ rewrite Qred_correct. unfold q, random_float, Qeq, Qplus, inject_Z.
        cbn [Qnum Qden]. fold k. rewrite Pos.mul_1_l. ring. }
    assert (Hlo : (inject_Z (2 ^ Z.of_nat n) <= q)%Q).
    { unfold q, Qle, inject_Z. cbn [Qnum Qden]. lia. }
    assert (Hhi : (q < inject_Z (2 ^ (Z.of_nat n + 1)))%Q).
    { unfold q, Qlt, inject_Z. cbn [Qnum Qden].
      rewrite Z.pow_add_r by lia. change (2 ^ 1)%Z with 2%Z.
      destruct Hpow as [[-> _]|[-> _]]; lia. }
    rewrite binary64_positive.
    2:{ eapply Qlt_le_trans; [|exact Hlo]. unfold Qlt, inject_Z. cbn [Qnum Qden].
        destruct Hpow as [[-> _]|[-> _]]; lia. }
    unfold nearest. rewrite (exponent_between q (Z.of_nat n)) by (lia || assumption).
    replace (Z.of_nat n <=? 52)%Z with true by (symmetry; apply Z.leb_le; lia).
    reflexivity.
  - split.
    + apply round_half_even_lower; [lia|].
      destruct Hpow as [[-> ->]|[-> ->]]; lia.
    + apply round_half_even_upper; [lia|].
      destruct Hpow as [[-> ->]|[-> ->]]; lia.
  - apply round_half_even_near. lia.
Qed.


Lemma backoff_delay_bounds (n : nat) (bits : N) :
  (n < 2)%nat ->
  (inject_Z (2 ^ Z.of_nat n) <= backoff_delay n bits
   <= inject_Z (2 ^ Z.of_nat n) + 1)%Q
  /\ (backoff_delay n bits - (inject_Z (2 ^ Z.of_nat n) + uniform 0 1 bits)
      <= Qmake (2 ^ Z.of_nat n) 9007199254740992)%Q
  /\ (inject_Z (2 ^ Z.of_nat n) + uniform 0 1 bits - backoff_delay n bits
      <= Qmake (2 ^ Z.of_nat n) 9007199254740992)%Q.
Proof.
  intros Hn. destruct (backoff_delay_rounds n bits Hn) as (Hd & Hm & Hnear).
  cbv zeta in Hd, Hm, Hnear. rewrite Hd, uniform_0_1, !Qred_correct.
  assert (Hk : (0 <= Z.of_N (bits mod 9007199254740992) < 9007199254740992)%Z).
  { pose proof (N.mod_upper_bound bits 9007199254740992 ltac:(discriminate)) as H.
    set (k := (bits mod 9007199254740992)%N) in *. lia. }
  unfold random_float.
  set (k := Z.of_N (bits mod 9007199254740992)) in *.
  set (m := round_half_even _ _) in *.
  destruct n as [|[|n]]; [| |lia].
  - change (2 ^ Z.of_nat 0)%Z with 1%Z in *.
    change (Z.to_pos (2 ^ (52 - Z.of_nat 0))) with 4503599627370496%positive.
    change (2 ^ (52 - Z.of_nat 0))%Z with 4503599627370496%Z in *.
    clearbody m k. clear Hd.
    unfold Qle, Qminus, Qplus, Qopp, inject_Z. cbn [Qnum Qden].
    rewrite ?Pos2Z.inj_mul. repeat split; lia.
  - change (2 ^ Z.of_nat 1)%Z with 2%Z in *.
    change (Z.to_pos (2 ^ (52 - Z.of_nat 1))) with 2251799813685248%positive.
    change (2 ^ (52 - Z.of_nat 1))%Z with 2251799813685248%Z in *.
    clearbody m k. clear Hd.
    unfold Qle, Qminus, Qplus, Qopp, inject_Z. cbn [Qnum Qden].
    rewrite ?Pos2Z.inj_mul. repeat split; lia.
Qed.

(** The model agrees with the library's formalisation of IEEE 754
    addition on the sums [2^n + k * 2^-53]. *)
Example binary64_add_agrees :
  map (fun nk => backoff_delay (fst nk) (snd nk))
      [ (0%nat, 9007199254740991%N); (1%nat, 9007199254740991%N);
        (0%nat, 1%N); (0%nat, 3%N); (1%nat, 3%N); (1%nat, 2%N); (1%nat, 6%N);
        (0%nat, 4503599627370496%N); (1%nat, 123456789123457%N) ]
  = map (fun nk =>
           value (SFadd 53 1024
                        (S754_finite false (Pos.of_nat (2 ^ fst nk)) 0)
                        (S754_finite false (N.succ_pos (N.pred (snd nk))) (-53))))
        [ (0%nat, 9007199254740991%N); (1%nat, 9007199254740991%N);
          (0%nat, 1%N); (0%nat, 3%N); (1%nat, 3%N); (1%nat, 2%N); (1%nat, 6%N);
          (0%nat, 4503599627370496%N); (1%nat, 123456789123457%N) ].
Proof. vm_compute. reflexivity. Qed.

(** With all 53 bits set the sum is rounded up to the next integer. *)
Example backoff_delay_rounds_up :
  backoff_delay 0 9007199254740991 = 2%Q
  /\ backoff_delay 1 9007199254740991 = 3%Q
  /\ uniform 0 1 9007199254740991 = Qmake 9007199254740991 9007199254740992.
Proof. vm_compute. repeat split. Qed.
End FloatFacts.

Set Implicit Arguments.

(** ** The generation client: retries *)

Section RetryClaims.
Variable w : World.
Variable prompt : str.
Import ClaudeClient.

Lemma retry_from_unfold n :
  (n < MAX_RETRIES)%nat ->
  retry_from w prompt n
  = retry_loop w prompt (n :: seq (S n) (MAX_RETRIES - S n)).
Proof.
  intros H. unfold retry_from.
  replace (MAX_RETRIES - n)%nat with (S (MAX_RETRIES - S n)) by lia.
  reflexivity.
Qed.

Lemma retry_loop_success n rest text :
  backend w prompt n = inr text ->
  retry_loop w prompt (n :: rest) = ([BackendCall prompt n], inr (Some text)).
Proof. intros H. simpl. now rewrite H. Qed.

Lemma retry_loop_other n rest e :
  backend w prompt n = inl e -> retryable e = false ->
  retry_loop w prompt (n :: rest) = ([BackendCall prompt n], inl e).
Proof. intros H Hr. simpl. rewrite H. destruct e; try discriminate; reflexivity. Qed.

Lemma retry_loop_rate_limit_last n rest m :
  backend w prompt n = inl (RateLimitError m) -> n = (MAX_RETRIES - 1)%nat ->
  retry_loop w prompt (n :: rest)
  = ([BackendCall prompt n], inl (ContentGenerationError rate_limit_message)).
Proof. intros H Hn. cbn [retry_loop]. rewrite H. subst n. reflexivity. Qed.

Lemma retry_loop_api_error_last n rest m :
  backend w prompt n = inl (APIError m) -> n = (MAX_RETRIES - 1)%nat ->
  retry_loop w prompt (n :: rest)
  = ([BackendCall prompt n],
     inl (ContentGenerationError (api_error_message (APIError m)))).
Proof. intros H Hn. cbn [retry_loop]. rewrite H. subst n. reflexivity. Qed.

Lemma retry_loop_rate_limit_retry n rest m :
  backend w prompt n = inl (RateLimitError m) -> n <> (MAX_RETRIES - 1)%nat ->
  retry_loop w prompt (n :: rest)
  = (BackendCall prompt n
       :: Sleep (backoff_delay n (random w prompt n))
       :: trace (retry_loop w prompt rest),
     result (retry_loop w prompt rest)).
Proof.
  intros H Hn. cbn [retry_loop]. rewrite H.
  apply Nat.eqb_neq in Hn. rewrite Hn.
  destruct (retry_loop w prompt rest) as [t r]. reflexivity.
Qed.

Lemma retry_loop_api_error_retry n rest m :
  backend w prompt n = inl (APIError m) -> n <> (MAX_RETRIES - 1)%nat ->
  retry_loop w prompt (n :: rest)
  = (BackendCall prompt n :: Sleep 1 :: trace (retry_loop w prompt rest),
     result (retry_loop w prompt rest)).
Proof.
  intros H Hn. cbn [retry_loop]. rewrite H.
  apply Nat.eqb_neq in Hn. rewrite Hn.
  destruct (retry_loop w prompt rest) as [t r]. reflexivity.
Qed.


(** The loop always ends in a reply or an exception, never in [None],
    and it calls the backend at most [MAX_RETRIES] times. *)
Lemma call_with_retry_total :
  (exists text, result (_call_with_retry w prompt) = inr (Some text))
  \/ (exists e, result (_call_with_retry w prompt) = inl e).
Proof.
  unfold _call_with_retry, MAX_RETRIES. simpl.
  repeat match goal with
         | |- context [backend w prompt ?n] =>
             destruct (backend w prompt n) as [[]|]
         end; simpl; eauto.
Qed.

Lemma retry_loop_events attempts ev :
  In ev (trace (retry_loop w prompt attempts)) ->
  (exists n, In n attempts /\ ev = BackendCall prompt n)
  \/ (exists d, ev = Sleep d).
Proof.
  induction attempts as [|n rest IH]; [simpl; tauto|].
  assert (Hhead : (exists m, In m (n :: rest) /\ BackendCall prompt n = BackendCall prompt m)
                  \/ (exists d, BackendCall prompt n = Sleep d))
    by (left; exists n; simpl; auto).
  assert (Hrest : In ev (trace (retry_loop w prompt rest)) ->
                  (exists m, In m (n :: rest) /\ ev = BackendCall prompt m)
                  \/ (exists d, ev = Sleep d)).
  { intros H. destruct (IH H) as [(m & Hm & ->)|Hs]; [left; exists m; simpl; auto|auto]. }
  destruct (backend w prompt n) as [e|text] eqn:Hb.
  - destruct (retryable e) eqn:Hr.
    + destruct (Nat.eq_dec n (MAX_RETRIES - 1)) as [Hlast|Hmore];
        destruct e; try discriminate.
      * rewrite (retry_loop_rate_limit_last _ Hb Hlast). intros [<-|[]]. exact Hhead.
      * rewrite (retry_loop_api_error_last _ Hb Hlast). intros [<-|[]]. exact Hhead.
      * rewrite (retry_loop_rate_limit_retry _ Hb Hmore).
        intros [<-|[<-|H]]; [exact Hhead|right; eauto|auto].
      * rewrite (retry_loop_api_error_retry _ Hb Hmore).
        intros [<-|[<-|H]]; [exact Hhead|right; eauto|auto].
    + rewrite (@retry_loop_other n rest e Hb Hr). intros [<-|[]]. exact Hhead.
  - rewrite (@retry_loop_success n rest text Hb). intros [<-|[]]. exact Hhead.
Qed.
End RetryClaims.



(** With every random bit set the jitter is [1 - 2^-53]: neither
    [1 + jitter] nor [2 + jitter] is a binary64 number, and the sums that
    are slept are 2 and 3.  No jitter below 1 makes [1 + jitter] equal
    to 2. *)
Lemma C4_retry_policy_counterexample :
  ClaudeClient._call_with_retry saturated_world (lit "p")
  = ([BackendCall (lit "p") 0; Sleep 2;
      BackendCall (lit "p") 1; Sleep 3;
      BackendCall (lit "p") 2],
     inl (ContentGenerationError (lit "Rate limit exceeded after max retries")))
  /\ ClaudeClient.uniform 0 1 (random saturated_world (lit "p") 0)
     = Qmake 9007199254740991 9007199254740992
  /\ ~ (exists jitter : Q,
           (0 <= jitter < 1)%Q /\ (2 == inject_Z (2 ^ 0) + jitter)%Q).
Proof.
  split; [vm_compute; reflexivity|]. split; [vm_compute; reflexivity|].
  intros (j & (_ & Hlt) & Heq).
  destruct j as [a b]. unfold Qlt, Qeq, Qplus, inject_Z in *.
  cbn [Qnum Qden] in *. change (2 ^ 0)%Z with 1%Z in Heq. lia.
Qed.

(** Two rate limits, then a reply on the last attempt: two sleeps, of
    1.5 and 2.5 seconds, and the reply is returned. *)
Example retry_then_success :
  ClaudeClient._call_with_retry flaky_world (lit "p")
  = ([BackendCall (lit "p") 0; Sleep (3 # 2);
      BackendCall (lit "p") 1; Sleep (5 # 2);
      BackendCall (lit "p") 2],
     inr (Some (lit "generated text"))).
Proof. vm_compute. reflexivity. Qed.

(** Rate limits on every attempt: the error follows the third call, with
    no sleep after it. *)
Example retry_exhausted :
  ClaudeClient._call_with_retry limited_world (lit "p")
  = ([BackendCall (lit "p") 0; Sleep (3 # 2);
      BackendCall (lit "p") 1; Sleep (5 # 2);
      BackendCall (lit "p") 2],
     inl (ContentGenerationError (lit "Rate limit exceeded after max retries"))).
Proof. vm_compute. reflexivity. Qed.

(** ** Dictionaries and first occurrences *)

Lemma existsb_eqb_In (k : str) (l : list str) :
  existsb (PyStr.eqb k) l = true <-> In k l.
Proof.
  rewrite existsb_exists. split.
  - intros (x & Hx & E). apply eqb_eq in E. now subst.
  - intros H. exists k. split; [exact H|apply eqb_refl].
Qed.

Lemma add_key_In (keys : list str) (k p : str) :
  In p (add_key keys k) <-> In p keys \/ p = k.
Proof.
  unfold add_key. destruct (existsb (PyStr.eqb k) keys) eqn:E.
  - apply existsb_eqb_In in E. split; [auto|]. intros [H| ->]; auto.
  - rewrite in_app_iff. simpl. intuition congruence.
Qed.

Lemma add_key_NoDup (keys : list str) (k : str) :
  NoDup keys -> NoDup (add_key keys k).
Proof.
  intros H. unfold add_key. destruct (existsb (PyStr.eqb k) keys) eqn:E; [exact H|].
  assert (Hk : ~ In k keys).
  { intros Hin. apply existsb_eqb_In in Hin. congruence. }
  clear E. induction H as [|x l Hx Hl IH]; simpl.
  - constructor; [tauto|constructor].
  - constructor.
    + rewrite in_app_iff. simpl in *. intuition congruence.
    + apply IH. simpl in Hk. tauto.
Qed.

Lemma fold_add_key_In (l acc : list str) (p : str) :
  In p (fold_left add_key l acc) <-> In p acc \/ In p l.
Proof.
  revert acc. induction l as [|k l IH]; intros acc; simpl; [tauto|].
  rewrite IH, add_key_In. intuition congruence.
Qed.

Lemma fold_add_key_NoDup (l acc : list str) :
  NoDup acc -> NoDup (fold_left add_key l acc).
Proof.
  revert acc. induction l as [|k l IH]; intros acc H; simpl; auto using add_key_NoDup.
Qed.

Lemma first_occurrences_In (l : list str) (p : str) :
  In p (first_occurrences l) <-> In p l.
Proof. unfold first_occurrences. rewrite fold_add_key_In. simpl. tauto. Qed.

Lemma first_occurrences_NoDup (l : list str) : NoDup (first_occurrences l).
Proof. apply fold_add_key_NoDup. constructor. Qed.

Lemma set_fresh {V} (d : PyDict.dict V) (k : str) (v : V) :
  ~ In k (PyDict.keys d) -> PyDict.set d k v = d ++ [(k, v)].
Proof.
  induction d as [|[k' v'] d IH]; simpl; intros H; [reflexivity|].
  destruct (PyStr.eqb k' k) eqn:E.
  - apply eqb_eq in E. tauto.
  - rewrite IH; tauto.
Qed.

Lemma fold_set_fresh {V} (ps acc : list (str * V)) :
  NoDup (PyDict.keys acc ++ map fst ps) ->
  fold_left (fun d kv => PyDict.set d (fst kv) (snd kv)) ps acc = acc ++ ps.
Proof.
  revert acc. induction ps as [|[k v] ps IH]; intros acc H; simpl.
  - now rewrite app_nil_r.
  - simpl in H. rewrite set_fresh.
    + rewrite IH; [now rewrite <- app_assoc|].
      unfold PyDict.keys in *. rewrite map_app, <- app_assoc. exact H.
    + apply NoDup_remove_2 in H. rewrite in_app_iff in H. tauto.
Qed.

Lemma of_pairs_fresh {V} (ps : list (str * V)) :
  NoDup (map fst ps) -> PyDict.of_pairs ps = ps.
Proof. intros H. unfold PyDict.of_pairs. now rewrite fold_set_fresh. Qed.




(** ** The orchestrator *)

Section PipelineFacts.
Context {U : UnicodeData}.
Import ContentPipeline.

Lemma supported_iff (p : str) :
  supported p = true
  <-> p = lit "linkedin" \/ p = lit "medium" \/ p = lit "x".
Proof.
  unfold supported. rewrite existsb_eqb_In. unfold SUPPORTED_PLATFORMS.
  simpl. intuition.
Qed.

Lemma launched_iff (config : PipelineConfig) (p : str) :
  In p (launched config) <-> In p (platforms config) /\ supported p = true.
Proof. unfold launched. now rewrite first_occurrences_In, filter_In. Qed.

Lemma launched_NoDup (config : PipelineConfig) : NoDup (launched config).
Proof. apply first_occurrences_NoDup. Qed.

Section WithWorld.
Variable w : World.
Variable config : PipelineConfig.

Lemma set_task (ks : list str) (p : str) :
  PyDict.set (map (task_entry w config) ks) p
             (fun _ => _generate_and_publish w config p)
  = map (task_entry w config) (add_key ks p).
Proof.
  induction ks as [|k ks IH]; [reflexivity|].
  simpl. unfold add_key in *. simpl. rewrite (eqb_sym p k).
  destruct (PyStr.eqb k p) eqn:E; simpl.
  - apply eqb_eq in E. subst. reflexivity.
  - rewrite IH. now destruct (existsb (PyStr.eqb p) ks).
Qed.

Lemma build_tasks_from (l acc : list str) :
  fold_left
    (fun tasks platform =>
       if supported platform
       then PyDict.set tasks platform
                       (fun _ => _generate_and_publish w config platform)
       else tasks)
    l (map (task_entry w config) acc)
  = map (task_entry w config) (fold_left add_key (filter supported l) acc).
Proof.
  revert acc. induction l as [|p l IH]; intros acc; simpl; [reflexivity|].
  destruct (supported p); simpl; [|apply IH].
  rewrite set_task. apply IH.
Qed.

Lemma build_tasks_spec :
  build_tasks w config = map (task_entry w config) (launched config).
Proof. apply (build_tasks_from (platforms config) []). Qed.

Lemma gather_tasks (ks : list str) :
  gather_return_exceptions (map snd (map (task_entry w config) ks))
  = (flat_map (fun k => trace (_generate_and_publish w config k))
              (until (task_stops w config) ks),
     match first_stop w config ks with
     | Some e => inl e
     | None =>
         inr (map (fun k => recorded (result (_generate_and_publish w config k))) ks)
     end).
Proof.
  induction ks as [|k ks IH]; [reflexivity|].
  cbn [map snd task_entry gather_return_exceptions].
  cbn [map snd task_entry] in IH. rewrite IH. clear IH.
  cbn [until first_stop]. unfold await, capture.
  change (task_stops w config k)
    with (match result (_generate_and_publish w config k) with
          | inl e => stops_loop e
          | inr _ => false
          end).
  destruct (_generate_and_publish w config k) as [t [e|status]] eqn:Hk;
    cbn [result trace fst snd].
  - destruct (stops_loop e).
    + cbn [bind flat_map]. rewrite Hk. cbn [trace fst]. now rewrite app_nil_r.
    + cbn [flat_map map]. rewrite Hk. cbn [trace result fst snd recorded].
      destruct (is_CancelledError e); cbn [bind];
        destruct (first_stop w config ks); cbn [bind ret];
        rewrite ?app_nil_r; reflexivity.
  - cbn [flat_map map]. rewrite Hk. cbn [trace result fst snd bind recorded].
    destruct (first_stop w config ks); cbn [bind ret];
      rewrite ?app_nil_r; reflexivity.
Qed.

(** What [run] does and returns: the tasks of the launched platforms are
    run, up to one that stops the event loop; unless one does, there is
    one entry per launched platform holding what [gather] lists for its
    task. *)
Lemma run_spec :
  run w config
  = (flat_map (fun k => trace (_generate_and_publish w config k))
              (until (task_stops w config) (launched config)),
     match first_stop w config (launched config) with
     | Some e => inl e
     | None =>
         inr (map (fun k => (k, recorded (result (_generate_and_publish w config k))))
                  (launched config))
     end).
Proof.
  unfold run. rewrite build_tasks_spec. unfold PyDict.values.
  rewrite gather_tasks.
  destruct (first_stop w config (launched config)) as [e|]; [reflexivity|].
  cbn [bind ret]. rewrite app_nil_r. f_equal. f_equal.
  assert (E : combine (PyDict.keys (map (task_entry w config) (launched config)))
                      (map (fun k => recorded (result (_generate_and_publish w config k)))
                           (launched config))
              = map (fun k => (k, recorded (result (_generate_and_publish w config k))))
                    (launched config)).
  { unfold PyDict.keys.
    induction (launched config) as [|k ks IH]; simpl; [reflexivity|].
    now rewrite IH. }
  rewrite E. apply of_pairs_fresh.
  rewrite map_map. simpl. rewrite map_id. apply launched_NoDup.
Qed.

(** The tasks that are run are the first of those launched. *)
Lemma until_prefix (stop : str -> bool) (ks : list str) :
  exists rest, ks = until stop ks ++ rest.
Proof.
  induction ks as [|k ks [rest IH]]; [now exists []|].
  cbn [until]. destruct (stop k).
  - now exists ks.
  - exists rest. cbn [app]. now rewrite <- IH.
Qed.

Lemma until_In (stop : str -> bool) (ks : list str) (k : str) :
  In k (until stop ks) -> In k ks.
Proof.
  destruct (until_prefix stop ks) as [rest E]. intros H.
  rewrite E. apply in_or_app. now left.
Qed.

Lemma first_stop_none (ks : list str) :
  first_stop w config ks = None
  <-> forall k e, In k ks ->
                  result (_generate_and_publish w config k) = inl e ->
                  stops_loop e = false.
Proof.
  induction ks as [|k ks IH]; cbn [first_stop].
  - split; [intros _ k e []|reflexivity].
  - destruct (result (_generate_and_publish w config k)) as [e|status] eqn:Hk.
    + destruct (stops_loop e) eqn:Hs.
      * split; [discriminate|]. intros H.
        specialize (H k e (or_introl eq_refl) Hk). congruence.
      * rewrite IH. split.
        -- intros H k' e' [<-|Hin] He; [congruence|now apply (H k')].
        -- intros H k' e' Hin. apply H. now right.
    + rewrite IH. split.
      * intros H k' e' [<-|Hin] He; [congruence|now apply (H k')].
      * intros H k' e' Hin. apply H. now right.
Qed.



Lemma generate_publisher_free (platform : str) :
  publisher_free (trace (ClaudeClient.generate w (pillar config) platform)).
Proof.
  intros ev Hin. apply retry_loop_events in Hin.
  destruct Hin as [(n & _ & ->)|(d & ->)]; reflexivity.
Qed.

Lemma task_trace (platform : str) :
  trace (_generate_and_publish w config platform)
  = trace (ClaudeClient.generate w (pillar config) platform)
      ++ match result (ClaudeClient.generate w (pillar config) platform) with
         | inr (Some content) =>
             if negb (Validator.passed (Validator.validate content platform))
             then []
             else if dry_run config then []
             else trace (publisher <- _get_publisher w platform ;;
                         publish w publisher content)
         | _ => []
         end.
Proof.
  unfold _generate_and_publish. rewrite trace_bind. f_equal.
  destruct (result _) as [e|[content|]]; try reflexivity.
  destruct (negb _); [reflexivity|]. now destruct (dry_run config).
Qed.

Lemma task_result (platform : str) :
  result (_generate_and_publish w config platform)
  = match result (ClaudeClient.generate w (pillar config) platform) with
    | inl e => inl e
    | inr None => inl (TypeError (lit "expected string or bytes-like object"))
    | inr (Some content) =>
        let validation := Validator.validate content platform in
        if negb (Validator.passed validation)
        then inl (ValueError
                    (validation_message platform (Validator.failures validation)))
        else if dry_run config then inr (dry_run_status platform)
        else result (publisher <- _get_publisher w platform ;;
                     publish w publisher content)
    end.
Proof.
  unfold _generate_and_publish. rewrite result_bind.
  destruct (result _) as [e|[content|]]; try reflexivity.
  simpl. destruct (negb _); [reflexivity|]. now destruct (dry_run config).
Qed.

(** Only the events of the publishing stage touch a publisher. *)
Lemma task_publisher_free (platform : str) :
  (forall content,
      result (ClaudeClient.generate w (pillar config) platform) = inr (Some content) ->
      Validator.passed (Validator.validate content platform) = false
      \/ dry_run config = true) ->
  publisher_free (trace (_generate_and_publish w config platform)).
Proof.
  intros H ev. rewrite task_trace, in_app_iff. intros [Hin|Hin].
  - now apply generate_publisher_free in Hin.
  - destruct (result _) as [e|[content|]]; try contradiction.
    destruct (H content eq_refl) as [E|E]; rewrite E in Hin; simpl in Hin.
    + contradiction.
    + destruct (negb _); contradiction.
Qed.
End WithWorld.

End PipelineFacts.

(** *** Counting the backend calls of a run *)






Section PipelineCalls.
Context {U : UnicodeData}.
Import ContentPipeline.
Variable w : World.
Variable config : PipelineConfig.




End PipelineCalls.

(** A list without repetitions is its own list of first occurrences. *)
Lemma fold_add_key_fresh (l acc : list str) :
  NoDup (acc ++ l) -> fold_left add_key l acc = acc ++ l.
Proof.
  revert acc. induction l as [|k l IH]; intros acc H; simpl.
  - now rewrite app_nil_r.
  - unfold add_key at 2.
    replace (existsb (PyStr.eqb k) acc) with false.
    + rewrite IH; rewrite <- app_assoc; [reflexivity|exact H].
    + symmetry. destruct (existsb (PyStr.eqb k) acc) eqn:E; [|reflexivity].
      apply existsb_eqb_In in E. apply NoDup_remove_2 in H.
      rewrite in_app_iff in H. tauto.
Qed.


(** *** The claims about the orchestrator *)

Section PipelineClaims.
Context {U : UnicodeData}.
Import ContentPipeline.

Lemma run_result (w : World) (config : PipelineConfig) :
  first_stop w config (launched config) = None ->
  result (run w config)
  = inr (map (fun k => (k, recorded (result (_generate_and_publish w config k))))
             (launched config)).
Proof. intros H. now rewrite run_spec, H. Qed.

Lemma run_returns (w : World) (config : PipelineConfig)
      (d : PyDict.dict (exn + str)) :
  result (run w config) = inr d ->
  first_stop w config (launched config) = None
  /\ d = map (fun k => (k, recorded (result (_generate_and_publish w config k))))
             (launched config).
Proof.
  rewrite run_spec. cbn [result snd].
  destruct (first_stop w config (launched config)); [discriminate|].
  intros H. injection H as <-. split; reflexivity.
Qed.


(** The run is not stopped exactly when no task of a supported requested
    platform raises [KeyboardInterrupt] or [SystemExit]. *)
Lemma run_completes (w : World) (config : PipelineConfig) :
  first_stop w config (launched config) = None
  <-> forall p e,
        In p (platforms config) -> supported p = true ->
        result (_generate_and_publish w config p) = inl e ->
        stops_loop e = false.
Proof.
  rewrite first_stop_none. split.
  - intros H p e Hin Hsup. apply H. apply launched_iff. auto.
  - intros H k e Hk. apply launched_iff in Hk as [Hin Hsup]. now apply H.
Qed.

(** Every event of a run is an event of the task of a launched platform. *)
Lemma run_trace_In (w : World) (config : PipelineConfig) (ev : event) :
  In ev (trace (run w config)) ->
  exists k, In k (launched config)
            /\ In ev (trace (_generate_and_publish w config k)).
Proof.
  rewrite run_spec. cbn [trace fst]. rewrite in_flat_map.
  intros (k & Hk & Hin). exists k. split; [|exact Hin].
  now apply until_In in Hk.
Qed.

(** The events of a run are the first of the events of all the launched
    tasks. *)
Lemma run_trace_prefix (w : World) (config : PipelineConfig) :
  exists more,
    flat_map (fun k => trace (_generate_and_publish w config k)) (launched config)
    = trace (run w config) ++ more.
Proof.
  rewrite run_spec. cbn [trace fst].
  destruct (until_prefix (task_stops w config) (launched config)) as [rest E].
  exists (flat_map (fun k => trace (_generate_and_publish w config k)) rest).
  rewrite <- flat_map_app. now rewrite <- E.
Qed.






(** C7. When validation fails the task raises the validation error and no
    publisher is touched; under dry-run no publisher is touched either,
    and a task whose content passed validation returns the would-publish
    status; so a dry run touches no publisher for any platform. *)
Theorem C7_publisher_not_invoked (w : World) (config : PipelineConfig) (p : str) :
  (forall content,
      result (ClaudeClient.generate w (pillar config) p) = inr (Some content) ->
      Validator.passed (Validator.validate content p) = false ->
      publisher_free (trace (_generate_and_publish w config p))
      /\ result (_generate_and_publish w config p)
         = inl (ValueError
                  (validation_message
                     p (Validator.failures (Validator.validate content p)))))
  /\ (dry_run config = true ->
      publisher_free (trace (_generate_and_publish w config p))
      /\ (forall content,
             result (ClaudeClient.generate w (pillar config) p) = inr (Some content) ->
             Validator.passed (Validator.validate content p) = true ->
             result (_generate_and_publish w config p)
             = inr (lit "[DRY RUN] Would publish to " ++ p))
      /\ publisher_free (trace (run w config))).
Proof.
  split.
  - intros content Hgen Hfail. split.
    + apply task_publisher_free. intros c Hc. left. congruence.
    + rewrite task_result, Hgen. cbv zeta. now rewrite Hfail.
  - intros Hdry. split; [|split].
    + apply task_publisher_free. auto.
    + intros content Hgen Hpass. rewrite task_result, Hgen. cbv zeta.
      now rewrite Hpass, Hdry.
    + intros ev Hev. apply run_trace_In in Hev as (k & _ & Hin).
      revert ev Hin. apply task_publisher_free. auto.
Qed.

End PipelineClaims.


(** A keyboard interrupt while the task of one platform runs: the run
    yields no mapping, so that the other platforms have no entry. *)
Lemma C1_run_captures_failures_counterexample :
  result (ContentPipeline.run
            (raising_world (OtherError (lit "KeyboardInterrupt") [])
                           (lit "x") (lit "career_mentorship") sixty_letters)
            (sample_config [lit "linkedin"; lit "x"; lit "medium"] true))
  = inl (OtherError (lit "KeyboardInterrupt") [])
  /\ ~ (exists d,
           result (ContentPipeline.run
                     (raising_world (OtherError (lit "KeyboardInterrupt") [])
                                    (lit "x") (lit "career_mentorship")
                                    sixty_letters)
                     (sample_config [lit "linkedin"; lit "x"; lit "medium"] true))
           = inr d).
Proof.
  split; [vm_compute; reflexivity|].
  intros [d Hd]. vm_compute in Hd. discriminate Hd.
Qed.


(** The publisher of the first platform exits the interpreter: the run
    yields no mapping, so that the second platform, supported and
    requested, has no entry. *)
Lemma C2_supported_platforms_only_counterexample :
  ~ (exists d,
        result (ContentPipeline.run
                  (failing_publishers (OtherError (lit "SystemExit") (lit "1"))
                                      sixty_letters)
                  (sample_config [lit "medium"; lit "x"] false))
        = inr d
        /\ exists r, PyDict.get d (lit "x") = Some r).
Proof. intros (d & Hd & _). vm_compute in Hd. discriminate Hd. Qed.

Lemma C7_publisher_not_invoked_witness :
  result (ContentPipeline._generate_and_publish
            (sample_world (lit "medium") (lit "career_mentorship") (lit "too short"))
            (sample_config [lit "x"] false) (lit "x"))
  = inl (ValueError (lit "Validation failed for x: ['Content is empty or too short']"))
  /\ publisher_free
       (trace (ContentPipeline.run
                 (sample_world (lit "medium") (lit "career_mentorship") sixty_letters)
                 (sample_config [lit "x"; lit "linkedin"] true))).
Proof.
  split.
  - destruct (@C7_publisher_not_invoked ascii_only
                (sample_world (lit "medium") (lit "career_mentorship") (lit "too short"))
                (sample_config [lit "x"] false) (lit "x")) as (Hfail & _).
    destruct (Hfail (lit "too short")) as (_ & Hres);
      [vm_compute; reflexivity|vm_compute; reflexivity|].
    exact Hres.
  - destruct (@C7_publisher_not_invoked ascii_only
                (sample_world (lit "medium") (lit "career_mentorship") sixty_letters)
                (sample_config [lit "x"; lit "linkedin"] true) (lit "x")) as (_ & Hdry).
    destruct (Hdry eq_refl) as (_ & _ & Hrun). exact Hrun.
Defined.


(** The platform [x] is requested twice and the task of the platform
    before it exits the interpreter: the run yields no mapping and thus
    no entry for [x]. *)
Lemma C10_duplicates_collapse_counterexample :
  ~ (exists d,
        result (ContentPipeline.run
                  (raising_world (OtherError (lit "SystemExit") (lit "1"))
                                 (lit "linkedin") (lit "career_mentorship")
                                 sixty_letters)
                  (sample_config [lit "linkedin"; lit "x"; lit "x"] true))
        = inr d
        /\ occurrences (lit "x") (PyDict.keys d) = 1%nat).
Proof. intros (d & Hd & _). vm_compute in Hd. discriminate Hd. Qed.

(** The three-platform dry run of the design document: two entries, each
    the would-publish status, and nothing for the unsupported platform. *)
Example dry_run_scenario :
  ContentPipeline.run
    (sample_world (lit "none") (lit "career_mentorship") sixty_letters)
    (sample_config [lit "x"; lit "linkedin"; lit "bogus"] true)
  = ([BackendCall (ClaudeClient.user_prompt (lit "career_mentorship") (lit "x")) 0;
      BackendCall (ClaudeClient.user_prompt (lit "career_mentorship") (lit "linkedin")) 0],
     inr [(lit "x", inr (lit "[DRY RUN] Would publish to x"));
          (lit "linkedin", inr (lit "[DRY RUN] Would publish to linkedin"))]).
Proof. vm_compute. reflexivity. Qed.

(** Outside dry run the publisher of a platform whose content passed is
    instantiated and invoked with that content. *)
Example publish_scenario :
  ContentPipeline.run
    (sample_world (lit "none") (lit "career_mentorship") sixty_letters)
    (sample_config [lit "x"; lit "x"] false)
  = ([BackendCall (ClaudeClient.user_prompt (lit "career_mentorship") (lit "x")) 0;
      PublishersImport; PublisherInit TwitterPublisher;
      PublisherPublish TwitterPublisher sixty_letters],
     inr [(lit "x", inr (lit "published"))]).
Proof. vm_compute. reflexivity. Qed.

(** ** The Twitter publisher: request signing *)

Section Encoding.
Import OAuthSpec.

Lemma well_formed_app (a b : str) :
  well_formed (a ++ b) = well_formed a && well_formed b.
Proof. apply forallb_app. Qed.

Lemma ascii_well_formed (s : str) :
  forallb is_ascii s = true -> well_formed s = true.
Proof.
  unfold well_formed. rewrite !forallb_forall. intros H c Hc.
  specialize (H c Hc). unfold is_ascii in H. apply N.ltb_lt in H.
  unfold Bytes.is_surrogate. apply negb_true_iff, andb_false_iff.
  left. apply N.leb_gt. lia.
Qed.

Lemma first_surrogate_none (s : str) (pos : nat) :
  well_formed s = true -> Bytes.first_surrogate s pos = None.
Proof.
  revert pos. induction s as [|c s IH]; intros pos H; simpl in *; [reflexivity|].
  apply andb_true_iff in H as [Hc Hs]. apply negb_true_iff in Hc.
  rewrite Hc. now apply IH.
Qed.

Lemma encode_well_formed (s : str) :
  well_formed s = true -> Bytes.encode s = inr (flat_map Bytes.utf8_char s).
Proof. intros H. unfold Bytes.encode. now rewrite first_surrogate_none. Qed.

Lemma always_safe_unreserved (b : Bytes.byte) :
  UrlLib.always_safe b = unreserved b.
Proof.
  unfold UrlLib.always_safe, unreserved, ascii_isalnum. simpl.
  destruct (ascii_isalpha b), (ascii_isdigit b), (b =? 95)%N, (b =? 46)%N,
    (b =? 45)%N, (b =? 126)%N; reflexivity.
Qed.

Lemma quote_well_formed (s : str) :
  well_formed s = true -> UrlLib.quote s = inr (percent_encode s).
Proof.
  intros H. unfold UrlLib.quote. rewrite encode_well_formed by exact H.
  unfold percent_encode. f_equal. apply flat_map_ext. intros b.
  unfold UrlLib.quote_byte, percent_encode_byte.
  now rewrite always_safe_unreserved.
Qed.
End Encoding.

Section SigningFacts.
Import OAuthSpec.

Lemma ascii_app (a b : str) :
  forallb is_ascii (a ++ b) = forallb is_ascii a && forallb is_ascii b.
Proof. apply forallb_app. Qed.

Lemma hex_digits_ascii (upper : bool) (width : nat) (n : N) :
  forallb is_ascii (hex_digits upper width n) = true.
Proof.
  revert n. induction width as [|width IH]; intros n; [reflexivity|].
  simpl. rewrite ascii_app, IH. simpl. rewrite andb_true_r.
  unfold hex_digit, is_ascii.
  assert (n mod 16 < 16)%N by (apply N.mod_lt; lia).
  destruct (N.ltb_spec (n mod 16) 10), upper; apply N.ltb_lt; lia.
Qed.

Lemma unreserved_ascii (b : Bytes.byte) : unreserved b = true -> is_ascii b = true.
Proof.
  unfold unreserved, ascii_isalpha, ascii_isupper, ascii_islower, ascii_isdigit,
    is_ascii.
  rewrite !orb_true_iff, !andb_true_iff, !N.leb_le, !N.eqb_eq, N.ltb_lt. lia.
Qed.

Lemma percent_encode_ascii (s : str) :
  forallb is_ascii (percent_encode s) = true.
Proof.
  unfold percent_encode.
  induction (flat_map Bytes.utf8_char s) as [|b bs IH]; [reflexivity|].
  simpl. rewrite ascii_app, IH, andb_true_r.
  unfold percent_encode_byte. destruct (unreserved b) eqn:E.
  - simpl. now rewrite unreserved_ascii.
  - rewrite ascii_app, hex_digits_ascii. reflexivity.
Qed.

Lemma uint_digits_ascii (d : Decimal.uint) :
  forallb is_ascii (lit (NilEmpty.string_of_uint d)) = true.
Proof. induction d; simpl; auto. Qed.

Lemma uint_ascii (d : Decimal.uint) :
  forallb is_ascii (lit (NilZero.string_of_uint d)) = true.
Proof.
  unfold NilZero.string_of_uint.
  destruct d; try apply uint_digits_ascii. reflexivity.
Qed.

Lemma of_int_ascii (n : Z) : forallb is_ascii (of_int n) = true.
Proof.
  unfold of_int, NilZero.string_of_int.
  destruct (Z.to_int n) as [d|d]; [|simpl]; apply uint_ascii.
Qed.

Lemma join_ascii (sep : str) (parts : list str) :
  forallb is_ascii sep = true ->
  Forall (fun p => forallb is_ascii p = true) parts ->
  forallb is_ascii (join sep parts) = true.
Proof.
  intros Hsep. induction 1 as [|p parts Hp Hparts IH]; [reflexivity|].
  destruct parts as [|q parts]; [exact Hp|].
  change (join sep (p :: q :: parts)) with (p ++ sep ++ join sep (q :: parts)).
  now rewrite !ascii_app, Hp, Hsep, IH.
Qed.

Lemma quote_pairs_well_formed (fmt : str -> str -> str) (items : list (str * str)) :
  Forall (fun kv => well_formed (fst kv) = true /\ well_formed (snd kv) = true) items ->
  TwitterPublisher.quote_pairs fmt items
  = inr (map (fun kv => fmt (percent_encode (fst kv)) (percent_encode (snd kv))) items).
Proof.
  induction 1 as [|[k v] items [Hk Hv] Hitems IH]; [reflexivity|].
  simpl in *. rewrite (quote_well_formed _ Hk), (quote_well_formed _ Hv), IH.
  reflexivity.
Qed.
End SigningFacts.

Section SigningClaims.
Context {U : UnicodeData}.
Import OAuthSpec TwitterPublisher.
Variable self : Credentials.

(** The parameter names are already in order, and stay so after
    encoding: none of them has a character that is escaped. *)
Lemma sorted_init (nonce : str) (timestamp : Z) :
  PySort.sorted (oauth_params_init self nonce timestamp)
  = parameters self nonce timestamp.
Proof. reflexivity. Qed.

Lemma sorted_signed (nonce : str) (timestamp : Z) (sig : str) :
  PySort.sorted
    (PyDict.set (oauth_params_init self nonce timestamp) (lit "oauth_signature") sig)
  = signed_parameters self nonce timestamp sig.
Proof. reflexivity. Qed.

Lemma spec_sort_parameters (nonce : str) (timestamp : Z) :
  sort_by_key (map encode_pair (parameters self nonce timestamp))
  = map encode_pair (parameters self nonce timestamp).
Proof. reflexivity. Qed.

Lemma spec_sort_signed (nonce : str) (timestamp : Z) (sig : str) :
  sort_by_key
    (map encode_pair (parameters self nonce timestamp ++ [(lit "oauth_signature", sig)]))
  = map encode_pair (signed_parameters self nonce timestamp sig).
Proof. reflexivity. Qed.

Lemma b64encode_ascii (b : Bytes.bytes) :
  forallb is_ascii (Bytes.b64encode b) = true.
Proof.
  assert (Hc : forall n, is_ascii (Bytes.b64_char n) = true).
  { intros n. unfold Bytes.b64_char, is_ascii.
    destruct (N.ltb_spec n 26); [apply N.ltb_lt; lia|].
    destruct (N.ltb_spec n 52); [apply N.ltb_lt; lia|].
    destruct (N.ltb_spec n 62); [apply N.ltb_lt; lia|].
    now destruct (n =? 62)%N. }
  unfold Bytes.b64encode.
  induction (Bytes.chunks_of 3 b) as [|g gs IH]; [reflexivity|].
  simpl. rewrite ascii_app, IH, andb_true_r.
  destruct g as [|x [|y [|z [|? ?]]]]; simpl; rewrite ?Hc; reflexivity.
Qed.

(** Two [publish] calls that draw the same nonce and read the same clock
    send the same headers, whatever else differs between the runs. *)
Lemma publish_headers_deterministic (env env' : Env) (content content' : str)
      url1 h1 t1 url2 h2 t2 :
  token_hex env = token_hex env' -> time_now env = time_now env' ->
  In (HttpPost url1 h1 t1) (trace (publish self env content)) ->
  In (HttpPost url2 h2 t2) (trace (publish self env' content')) ->
  h1 = h2.
Proof.
  intros Hn Ht. unfold publish, _post_tweet. rewrite <- Hn, <- Ht.
  destruct (_build_oauth_headers _ _ _ _ _) as [e|h]; simpl.
  - destruct e; try destruct (is_Exception _); simpl; tauto.
  - destruct (http_post env _ _ _) as [e|id], (http_post env' _ _ _) as [e'|id'];
      simpl; try destruct e; try destruct e';
      repeat match goal with
             | |- context [is_Exception ?x] => destruct (is_Exception x)
             end;
      simpl; intros [H|[]] [H'|[]]; inversion H; inversion H'; congruence.
Qed.

(** C8. With the nonce and the clock reading fixed, the Authorization
    header is a function of the credentials, the method and the URL, and
    on well-formed text it is the header that the design document
    describes: names and values percent-encoded, pairs sorted by encoded
    name, the signature the Base64 of the HMAC-SHA1 of
    METHOD&encoded-URL&encoded-parameter-string under the key made of
    the two encoded secrets, all parameters listed in sorted order with
    quoted values.  Two publish calls with the same nonce and clock
    reading send identical headers. *)
Theorem C8_oauth_header_deterministic
        (nonce : str) (timestamp : Z) (method url : str) :
  (well_formed (consumer_key self) = true ->
   well_formed (consumer_secret self) = true ->
   well_formed (access_token self) = true ->
   well_formed (access_token_secret self) = true ->
   well_formed nonce = true ->
   well_formed url = true ->
   well_formed (upper method) = true ->
   _build_oauth_headers self nonce timestamp method url
   = inr [(lit "Authorization", authorization self nonce timestamp method url)])
  /\ map fst
         (sort_by_key
            (map encode_pair
                 (parameters self nonce timestamp
                    ++ [(lit "oauth_signature",
                         signature self nonce timestamp method url)])))
     = [lit "oauth_consumer_key"; lit "oauth_nonce"; lit "oauth_signature";
        lit "oauth_signature_method"; lit "oauth_timestamp"; lit "oauth_token";
        lit "oauth_version"]
  /\ increasing
       [lit "oauth_consumer_key"; lit "oauth_nonce"; lit "oauth_signature";
        lit "oauth_signature_method"; lit "oauth_timestamp"; lit "oauth_token";
        lit "oauth_version"] = true
  /\ (forall env env' content content' url1 h1 t1 url2 h2 t2,
         token_hex env = token_hex env' -> time_now env = time_now env' ->
         In (HttpPost url1 h1 t1) (trace (publish self env content)) ->
         In (HttpPost url2 h2 t2) (trace (publish self env' content')) ->
         h1 = h2).
Proof.
  split; [|split; [|split]].
  - intros Hck Hcs Htok Hts Hnonce Hurl Hmethod.
    unfold _build_oauth_headers. cbv zeta. unfold and_then.
    rewrite sorted_init.
    assert (Hlit : forall a, forallb is_ascii a = true -> well_formed a = true)
      by apply ascii_well_formed.
    assert (Hparams :
              Forall (fun kv => well_formed (fst kv) = true
                                /\ well_formed (snd kv) = true)
                     (parameters self nonce timestamp)).
    { unfold parameters.
      repeat constructor; cbn [fst snd]; auto using of_int_ascii. }
    rewrite (quote_pairs_well_formed param_pair Hparams).
    rewrite (quote_well_formed url Hurl).
    set (ps := join (lit "&") _).
    assert (Hps : forallb is_ascii ps = true).
    { apply join_ascii; [reflexivity|]. apply Forall_map, Forall_forall.
      intros kv _. unfold param_pair.
      now rewrite !ascii_app, !percent_encode_ascii. }
    rewrite (quote_well_formed ps (Hlit _ Hps)).
    rewrite (quote_well_formed _ Hcs), (quote_well_formed _ Hts).
    rewrite encode_well_formed
      by (apply Hlit; now rewrite !ascii_app, !percent_encode_ascii).
    rewrite encode_well_formed
      by (rewrite well_formed_app, Hmethod; apply Hlit;
          now rewrite !ascii_app, !percent_encode_ascii).
    rewrite sorted_signed.
    set (sig := Bytes.decode_ascii _).
    assert (Hsig : well_formed sig = true)
      by (apply Hlit, b64encode_ascii).
    assert (Hsigned :
              Forall (fun kv => well_formed (fst kv) = true
                                /\ well_formed (snd kv) = true)
                     (signed_parameters self nonce timestamp sig)).
    { unfold signed_parameters.
      repeat constructor; cbn [fst snd]; auto using of_int_ascii. }
    rewrite (quote_pairs_well_formed header_pair Hsigned).
    unfold authorization. rewrite spec_sort_signed, map_map.
    assert (Eps : ps = parameter_string self nonce timestamp).
    { unfold parameter_string. rewrite spec_sort_parameters, map_map.
      reflexivity. }
    assert (Esig : sig = signature self nonce timestamp method url).
    { unfold sig, signature, signing_key, base_string. now rewrite Eps. }
    rewrite <- Esig. reflexivity.
  - rewrite spec_sort_signed. reflexivity.
  - reflexivity.
  - apply publish_headers_deterministic.
Qed.
End SigningClaims.

Lemma C8_oauth_header_deterministic_witness :
  TwitterPublisher._build_oauth_headers
    sample_credentials sample_nonce 1700000000 (lit "post")
    TwitterPublisher.TWEET_ENDPOINT
  = inr [(lit "Authorization", sample_header)].
Proof.
  destruct (@C8_oauth_header_deterministic ascii_only sample_credentials
              sample_nonce 1700000000 (lit "post") TwitterPublisher.TWEET_ENDPOINT)
    as (Hheader & _).
  rewrite Hheader by reflexivity. vm_compute. reflexivity.
Defined.

(** A secret with a lone surrogate cannot be encoded: the error of the
    codec comes out instead of a header. *)
Example surrogate_secret :
  TwitterPublisher._build_oauth_headers
    {| TwitterPublisher.consumer_key := lit "ck";
       TwitterPublisher.consumer_secret := [97%N; 55296%N];
       TwitterPublisher.access_token := lit "tok";
       TwitterPublisher.access_token_secret := lit "ts" |}
    sample_nonce 1700000000 (lit "POST") TwitterPublisher.TWEET_ENDPOINT
  = inl (UnicodeEncodeError
           (lit "'utf-8' codec can't encode character '\ud800' in position 1: surrogates not allowed")).
Proof. vm_compute. reflexivity. Qed.

(** ** Checks of the hash functions against published vectors *)

Example sha1_abc :
  hexs (Bytes.sha1 (lit "abc")) = lit "a9993e364706816aba3e25717850c26c9cd0d89d".
Proof. vm_compute. reflexivity. Qed.

Example sha1_empty :
  hexs (Bytes.sha1 []) = lit "da39a3ee5e6b4b0d3255bfef95601890afd80709".
Proof. vm_compute. reflexivity. Qed.

Example sha1_two_blocks :
  hexs (Bytes.sha1 (lit "abcdbcdecdefdefgefghfghighijhijkijkljklmklmnlmnomnopnopq"))
  = lit "84983e441c3bd26ebaae4aa1f95129e5e54670f1".
Proof. vm_compute. reflexivity. Qed.

Example hmac_sha1_rfc2202 :
  hexs (Bytes.hmac_sha1 (lit "Jefe") (lit "what do ya want for nothing?"))
  = lit "effcdf6ae5eb2fa2d27416d5f184df9c259a7c79".
Proof. vm_compute. reflexivity. Qed.

Example b64encode_rfc4648 :
  Bytes.b64encode (lit "foobar") = lit "Zm9vYmFy"
  /\ Bytes.b64encode (lit "fooba") = lit "Zm9vYmE="
  /\ Bytes.b64encode (lit "foob") = lit "Zm9vYg=="
  /\ Bytes.b64encode [] = [].
Proof. vm_compute. auto. Qed.

Example quote_examples :
  UrlLib.quote (lit "a b~_.-/%" ++ [233%N; 8364%N; 128512%N])
  = inr (lit "a%20b~_.-%2F%25%C3%A9%E2%82%AC%F0%9F%98%80").
Proof. vm_compute. reflexivity. Qed.

(** * Further properties of the code *)

Unset Implicit Arguments.

(** ** The validator: emptiness, acceptance, detection *)

Lemma lstrip_length (s : str) : (List.length (lstrip s) <= List.length s)%nat.
Proof.
  induction s as [|c s IH]; simpl; [lia|].
  destruct (isspace c); simpl; lia.
Qed.

Lemma strip_length (s : str) : (len (strip s) <= len s)%Z.
Proof.
  unfold len, strip, rstrip.
  rewrite length_rev.
  pose proof (lstrip_length (rev (lstrip s))) as H1.
  rewrite length_rev in H1.
  pose proof (lstrip_length s). lia.
Qed.

Lemma lstrip_spaces (s : str) : forallb isspace s = true -> lstrip s = [].
Proof.
  induction s as [|c s IH]; simpl; [reflexivity|].
  intros H. apply andb_true_iff in H as [Hc Hs]. rewrite Hc. now apply IH.
Qed.

Lemma strip_spaces (s : str) : forallb isspace s = true -> strip s = [].
Proof. intros H. unfold strip. now rewrite lstrip_spaces. Qed.

Section ValidatorExtras.
Context {U : UnicodeData}.
Import Validator.

Lemma check_not_empty_short (content : str) :
  (len (strip content) < 50)%Z -> _check_not_empty content = [empty_message].
Proof.
  intros H. unfold _check_not_empty.
  replace (len (strip content) <? 50)%Z with true by (symmetry; now apply Z.ltb_lt).
  now rewrite orb_true_r.
Qed.

Lemma check_not_empty_long (content : str) :
  (50 <= len (strip content))%Z -> _check_not_empty content = [].
Proof.
  intros H. unfold _check_not_empty.
  replace (len (strip content) <? 50)%Z with false by (symmetry; now apply Z.ltb_ge).
  destruct content; [|reflexivity]. change (len (strip [])) with 0%Z in H. lia.
Qed.

(** X1. Content whose stripped length is below 50, in particular empty
    content, content of white space only and content of fewer than 50 code
    points, gets the emptiness failure as the last failure and fails
    validation on every platform; content with at least 50 code points
    after stripping gets no emptiness failure. *)
Theorem X1_emptiness_check (content : str) :
  ((len (strip content) < 50)%Z ->
   forall platform,
     _check_not_empty content = [empty_message]
     /\ passed (validate content platform) = false
     /\ exists before, failures (validate content platform) = before ++ [empty_message])
  /\ (forallb isspace content = true -> (len (strip content) < 50)%Z)
  /\ ((len content < 50)%Z -> (len (strip content) < 50)%Z)
  /\ ((50 <= len (strip content))%Z -> _check_not_empty content = []).
Proof.
  split; [|split; [|split]].
  - intros H platform. pose proof (check_not_empty_short _ H) as He.
    split; [exact He|]. split.
    + destruct (passed (validate content platform)) eqn:Hp; [|reflexivity].
      apply validate_passed in Hp. rewrite validate_failures, He in Hp.
      destruct (_check_fabrication content), (_check_platform_limits content platform);
        discriminate.
    + rewrite validate_failures, He.
      exists (_check_fabrication content ++ _check_platform_limits content platform).
      now rewrite <- app_assoc.
  - intros H. rewrite strip_spaces by exact H. reflexivity.
  - intros H. pose proof (strip_length content). lia.
  - apply check_not_empty_long.
Qed.

Lemma check_fabrication_nil (content : str) :
  _check_fabrication content = []
  <-> forall p, In p FABRICATION_MARKERS -> Re.search_ignorecase p content = false.
Proof.
  rewrite check_fabrication_filter. split.
  - intros H p Hp.
    destruct (Re.search_ignorecase p content) eqn:E; [|reflexivity].
    assert (Hin : In p (filter (fun q => Re.search_ignorecase q content)
                               FABRICATION_MARKERS))
      by (apply filter_In; auto).
    apply (in_map fabrication_message) in Hin. rewrite H in Hin. contradiction.
  - intros H.
    replace (filter (fun p => Re.search_ignorecase p content) FABRICATION_MARKERS)
      with (@nil str); [reflexivity|].
    symmetry. induction FABRICATION_MARKERS as [|q l IH]; [reflexivity|].
    simpl. rewrite (H q) by (simpl; auto). apply IH. intros; apply H; simpl; auto.
Qed.

Lemma check_platform_limits_nil (content platform : str) :
  _check_platform_limits content platform = []
  <-> forall max_chars,
      PyDict.get PLATFORM_MAX_CHARS platform = Some max_chars ->
      (len content <= max_chars)%Z.
Proof.
  unfold _check_platform_limits.
  destruct (PyDict.get PLATFORM_MAX_CHARS platform) as [m|] eqn:Hget.
  - assert (Hnz : (m =? 0)%Z = false).
    { apply Z.eqb_neq.
      destruct (platform_max_chars_values _ Hget) as [->|[->| ->]]; lia. }
    rewrite Hnz. simpl. destruct (Z.ltb_spec m (len content)); split.
    + discriminate.
    + intros H'. specialize (H' m eq_refl). lia.
    + intros _ m' Hm. inversion Hm. lia.
    + reflexivity.
  - split; [discriminate 2|reflexivity].
Qed.

Lemma check_not_empty_nil (content : str) :
  _check_not_empty content = [] <-> (50 <= len (strip content))%Z.
Proof.
  split; [|apply check_not_empty_long].
  intros H. destruct (Z.lt_ge_cases (len (strip content)) 50) as [Hlt|Hge]; [|exact Hge].
  rewrite check_not_empty_short in H by exact Hlt. discriminate.
Qed.

(** X2. [validate] accepts content for a platform exactly when no marker
    matches it, its length is within the platform's limit if there is one,
    and at least 50 code points remain after stripping. *)
Theorem X2_validate_accepts_iff (content platform : str) :
  passed (validate content platform) = true
  <-> (forall p, In p FABRICATION_MARKERS -> Re.search_ignorecase p content = false)
      /\ (forall max_chars,
             PyDict.get PLATFORM_MAX_CHARS platform = Some max_chars ->
             (len content <= max_chars)%Z)
      /\ (50 <= len (strip content))%Z.
Proof.
  rewrite validate_passed, validate_failures.
  rewrite <- check_fabrication_nil, <- check_platform_limits_nil, <- check_not_empty_nil.
  split.
  - intros H. apply app_eq_nil in H as [H1 H]. apply app_eq_nil in H as [H2 H3]. auto.
  - intros (H1 & H2 & H3). now rewrite H1, H2, H3.
Qed.
End ValidatorExtras.

Section DetectionExtras.
Context {U : UnicodeData}.
Import Validator.

Lemma search_from_unfold items prev rest :
  Re.search_from items prev rest
  = Re.match_here items prev rest
    || match rest with
       | ch :: rest' => Re.search_from items (Some ch) rest'
       | [] => false
       end.
Proof. destruct rest; reflexivity. Qed.

(** A match at the end of [pre] is found by the search. *)
Lemma search_from_skip items (pre : str) prev rest :
  Re.match_here items (fold_left (fun _ c => Some c) pre prev) rest = true ->
  Re.search_from items prev (pre ++ rest) = true.
Proof.
  revert prev. induction pre as [|c pre IH]; intros prev H.
  - simpl in *. rewrite search_from_unfold, H. reflexivity.
  - rewrite search_from_unfold. simpl. rewrite (IH (Some c)) by exact H.
    apply orb_true_r.
Qed.

(** Each marker matches its own phrase between two non-word positions. *)
Lemma marker_matches_phrase (p : str) prev (post : str) :
  In p FABRICATION_MARKERS ->
  Re.is_word_opt prev = false ->
  Re.is_word_opt (hd_error post) = false ->
  Re.match_here (Re.compile_ignorecase p) prev (phrase_of p ++ post) = true.
Proof.
  intros Hp Hprev Hpost. unfold FABRICATION_MARKERS in Hp. cbn [In] in Hp.
  destruct Hp as [<-|[<-|[<-|[<-|[<-|[]]]]]];
    cbn; unfold Re.at_boundary; rewrite Hprev, Hpost; reflexivity.
Qed.

Lemma marker_found (p pre w post : str) :
  In p FABRICATION_MARKERS ->
  map ascii_fold w = map ascii_fold (phrase_of p) ->
  Re.is_word_opt (last_codepoint pre) = false ->
  Re.is_word_opt (hd_error post) = false ->
  Re.search_ignorecase p (pre ++ w ++ post) = true.
Proof.
  intros Hp Hw Hpre Hpost.
  rewrite (fold_search p (pre ++ w ++ post) (pre ++ phrase_of p ++ post))
    by (rewrite !map_app, Hw; reflexivity).
  apply search_from_skip. now apply marker_matches_phrase.
Qed.

(** X3. Content that contains the phrase of a marker, in any ASCII
    capitalisation, with no word character right before or right after it,
    gets that marker's failure and fails validation on every platform. *)
Theorem X3_marker_phrase_detected (p pre w post platform : str) :
  In p FABRICATION_MARKERS ->
  map ascii_fold w = map ascii_fold (phrase_of p) ->
  Re.is_word_opt (last_codepoint pre) = false ->
  Re.is_word_opt (hd_error post) = false ->
  In (fabrication_message p) (failures (validate (pre ++ w ++ post) platform))
  /\ passed (validate (pre ++ w ++ post) platform) = false.
Proof.
  intros Hp Hw Hpre Hpost.
  pose proof (marker_found p pre w post Hp Hw Hpre Hpost) as Hfound.
  assert (Hin : In (fabrication_message p) (_check_fabrication (pre ++ w ++ post))).
  { rewrite check_fabrication_filter. apply in_map, filter_In. auto. }
  split.
  - rewrite validate_failures. apply in_or_app. auto.
  - destruct (passed (validate (pre ++ w ++ post) platform)) eqn:E; [|reflexivity].
    apply validate_passed in E. rewrite validate_failures in E.
    destruct (_check_fabrication (pre ++ w ++ post)); [contradiction|discriminate].
Qed.
End DetectionExtras.

Lemma X1_emptiness_check_witness :
  Validator._check_not_empty (lit "   too short   ") = [empty_message]
  /\ (len (strip (repeat 32%N 80)) < 50)%Z
  /\ Validator._check_not_empty sixty_letters = [].
Proof.
  destruct (@X1_emptiness_check ascii_only (lit "   too short   ")) as (Hshort & _).
  destruct (@X1_emptiness_check ascii_only (repeat 32%N 80)) as (_ & Hspace & _).
  destruct (@X1_emptiness_check ascii_only sixty_letters) as (_ & _ & _ & Hlong).
  split; [|split].
  - apply (Hshort eq_refl (lit "x")).
  - apply Hspace. reflexivity.
  - apply Hlong. discriminate.
Defined.

Lemma X2_validate_accepts_iff_witness :
  Validator.passed (Validator.validate sixty_letters (lit "x")) = true.
Proof.
  apply (@X2_validate_accepts_iff ascii_only sixty_letters (lit "x")).
  split; [|split].
  - intros p Hp. unfold Validator.FABRICATION_MARKERS in Hp. cbn [In] in Hp.
    destruct Hp as [<-|[<-|[<-|[<-|[<-|[]]]]]]; reflexivity.
  - intros m Hm. vm_compute in Hm. inversion Hm. discriminate.
  - discriminate.
Defined.

Lemma X3_marker_phrase_detected_witness :
  Validator.passed
    (Validator.validate (lit "It is a " ++ lit "TRUE Story" ++ lit ", believe me.")
                        (lit "linkedin")) = false.
Proof.
  apply (@X3_marker_phrase_detected ascii_only (lit "\btrue story\b")
           (lit "It is a ") (lit "TRUE Story") (lit ", believe me.") (lit "linkedin"));
    [simpl; auto 6|reflexivity|reflexivity|reflexivity].
Defined.

(** ** The generation client: the loop as a whole *)

Section RetryExtras.
Variable w : World.
Variable prompt : str.
Import ClaudeClient.

(** From attempt [n] on, the calls are attempts [n], [n + 1], ... without
    a gap, each but the last followed by one sleep, and the loop does not
    fall through. *)
Lemma retry_from_shape (m : nat) :
  forall n, (n + m = MAX_RETRIES)%nat -> (1 <= m)%nat ->
  exists k,
    (1 <= k <= m)%nat
    /\ call_attempts (trace (retry_from w prompt n)) = seq n k
    /\ List.length (sleeps (trace (retry_from w prompt n))) = (k - 1)%nat
    /\ result (retry_from w prompt n) <> inr None.
Proof.
  induction m as [|m IH]; [lia|]. intros n Hn _.
  assert (Hlt : (n < MAX_RETRIES)%nat) by lia.
  assert (Hone : forall r : exn + option str,
             r <> inr None ->
             exists k,
               (1 <= k <= S m)%nat
               /\ call_attempts (trace ([BackendCall prompt n], r)) = seq n k
               /\ List.length (sleeps (trace ([BackendCall prompt n], r))) = (k - 1)%nat
               /\ result ([BackendCall prompt n], r) <> inr None).
  { intros r Hr. exists 1%nat. repeat split; auto; lia. }
  assert (Hmore : forall d,
             n <> (MAX_RETRIES - 1)%nat ->
             exists k,
               (1 <= k <= S m)%nat
               /\ call_attempts
                    (BackendCall prompt n :: Sleep d
                       :: trace (retry_from w prompt (S n))) = seq n k
               /\ List.length
                    (sleeps (BackendCall prompt n :: Sleep d
                               :: trace (retry_from w prompt (S n)))) = (k - 1)%nat
               /\ result (retry_from w prompt (S n)) <> inr None).
  { intros d Hnot.
    destruct (IH (S n)) as (k & Hk & Hcalls & Hsleeps & Hres);
      [unfold MAX_RETRIES in *; lia|unfold MAX_RETRIES in *; lia|].
    exists (S k). repeat split; try lia.
    - cbn [call_attempts flat_map app]. fold (call_attempts (trace (retry_from w prompt (S n)))).
      rewrite Hcalls. reflexivity.
    - cbn [sleeps flat_map app List.length].
      fold (sleeps (trace (retry_from w prompt (S n)))). rewrite Hsleeps. lia.
    - exact Hres. }
  rewrite (retry_from_unfold w prompt Hlt).
  destruct (backend w prompt n) as [e|text] eqn:Hb.
  - destruct (retryable e) eqn:Hr.
    + destruct (Nat.eq_dec n (MAX_RETRIES - 1)) as [Hlast|Hnot];
        destruct e; try discriminate.
      * rewrite (@retry_loop_rate_limit_last w prompt n _ message Hb Hlast).
        apply Hone. discriminate.
      * rewrite (@retry_loop_api_error_last w prompt n _ message Hb Hlast).
        apply Hone. discriminate.
      * rewrite (@retry_loop_rate_limit_retry w prompt n _ message Hb Hnot).
        apply Hmore. exact Hnot.
      * rewrite (@retry_loop_api_error_retry w prompt n _ message Hb Hnot).
        apply Hmore. exact Hnot.
    + rewrite (@retry_loop_other w prompt n _ e Hb Hr). apply Hone. discriminate.
  - rewrite (@retry_loop_success w prompt n _ text Hb). apply Hone. discriminate.
Qed.

(** From attempt [n] on the events are a call, then a sleep and a call
    any number of times: the last event is a call. *)
Lemma retry_from_alternates (m : nat) :
  forall n, (n + m = MAX_RETRIES)%nat -> (1 <= m)%nat ->
  exists delays,
    (List.length delays < m)%nat
    /\ trace (retry_from w prompt n) = calls_and_sleeps prompt n delays.
Proof.
  induction m as [|m IH]; [lia|]. intros n Hn _.
  assert (Hlt : (n < MAX_RETRIES)%nat) by lia.
  assert (Hone : forall r : exn + option str,
             exists delays,
               (List.length delays < S m)%nat
               /\ trace ([BackendCall prompt n], r)
                  = calls_and_sleeps prompt n delays).
  { intros r. exists []. split; [cbn; lia|reflexivity]. }
  assert (Hmore : forall d (r : exn + option str),
             n <> (MAX_RETRIES - 1)%nat ->
             exists delays,
               (List.length delays < S m)%nat
               /\ trace (BackendCall prompt n :: Sleep d
                           :: trace (retry_from w prompt (S n)), r)
                  = calls_and_sleeps prompt n delays).
  { intros d r Hnot.
    destruct (IH (S n)) as (delays & Hlen & Ht);
      [unfold MAX_RETRIES in *; lia|unfold MAX_RETRIES in *; lia|].
    exists (d :: delays). split; [cbn; lia|].
    cbn [trace fst]. rewrite Ht. reflexivity. }
  rewrite (retry_from_unfold w prompt Hlt).
  destruct (backend w prompt n) as [e|text] eqn:Hb.
  - destruct (retryable e) eqn:Hr.
    + destruct (Nat.eq_dec n (MAX_RETRIES - 1)) as [Hlast|Hnot];
        destruct e; try discriminate.
      * rewrite (@retry_loop_rate_limit_last w prompt n _ message Hb Hlast).
        apply Hone.
      * rewrite (@retry_loop_api_error_last w prompt n _ message Hb Hlast).
        apply Hone.
      * rewrite (@retry_loop_rate_limit_retry w prompt n _ message Hb Hnot).
        apply Hmore. exact Hnot.
      * rewrite (@retry_loop_api_error_retry w prompt n _ message Hb Hnot).
        apply Hmore. exact Hnot.
    + rewrite (@retry_loop_other w prompt n _ e Hb Hr). apply Hone.
  - rewrite (@retry_loop_success w prompt n _ text Hb). apply Hone.
Qed.

Lemma calls_and_sleeps_sleeps (q : str) (n : nat) (delays : list Q) :
  sleeps (calls_and_sleeps q n delays) = delays.
Proof.
  revert n. induction delays as [|d delays IH]; intros n; [reflexivity|].
  cbn [calls_and_sleeps]. change (sleeps (BackendCall q n :: Sleep d :: ?t))
    with (d :: sleeps t).
  cbn [sleeps flat_map app].
  fold (sleeps (calls_and_sleeps q (S n) delays)). now rewrite IH.
Qed.

(** X4. One [_call_with_retry] makes between one and [MAX_RETRIES] backend
    calls, all with the prompt it was given, numbered 0, 1, ... without a
    gap.  Its events are a call, then a sleep and a call any number of
    times: it sleeps exactly once between two consecutive calls, never
    before the first call and never after the last.  It never returns
    [None]. *)
Theorem X4_retry_bounds :
  let t := trace (_call_with_retry w prompt) in
  (1 <= List.length (call_attempts t) <= MAX_RETRIES)%nat
  /\ call_attempts t = seq 0 (List.length (call_attempts t))
  /\ List.length (sleeps t) = (List.length (call_attempts t) - 1)%nat
  /\ t = calls_and_sleeps prompt 0 (sleeps t)
  /\ (forall q n, In (BackendCall q n) t -> q = prompt)
  /\ result (_call_with_retry w prompt) <> inr None.
Proof.
  cbv zeta. change (_call_with_retry w prompt) with (retry_from w prompt 0).
  destruct (retry_from_shape MAX_RETRIES 0) as (k & Hk & Hcalls & Hsleeps & Hres);
    [reflexivity|unfold MAX_RETRIES; lia|].
  destruct (retry_from_alternates MAX_RETRIES 0) as (delays & _ & Halt);
    [reflexivity|unfold MAX_RETRIES; lia|].
  rewrite Hcalls, length_seq.
  split; [lia|]. split; [reflexivity|]. split; [lia|].
  split; [rewrite Halt at 1; now rewrite Halt, calls_and_sleeps_sleeps|].
  split; [|exact Hres].
  intros q n Hin. apply retry_loop_events in Hin.
  destruct Hin as [(m & _ & E)|(d & E)]; [now inversion E|discriminate].
Qed.

(** What the loop raises is the error it builds itself or an exception of
    the backend outside the two classes it handles. *)
Lemma retry_from_raises (m : nat) :
  forall n e, (n + m = MAX_RETRIES)%nat ->
  result (retry_from w prompt n) = inl e ->
  (exists msg, e = ContentGenerationError msg)
  \/ (exists i, (n <= i < MAX_RETRIES)%nat
                /\ backend w prompt i = inl e /\ retryable e = false).
Proof.
  induction m as [|m IH]; intros n e Hn.
  - unfold retry_from. replace (MAX_RETRIES - n)%nat with 0%nat by lia. discriminate.
  - assert (Hlt : (n < MAX_RETRIES)%nat) by lia.
    assert (Hnext : result (retry_from w prompt (S n)) = inl e ->
                    (exists msg, e = ContentGenerationError msg)
                    \/ (exists i, (n <= i < MAX_RETRIES)%nat
                                  /\ backend w prompt i = inl e /\ retryable e = false)).
    { intros H. destruct (IH (S n) e) as [Hgen|(i & Hi & Hb & Hr)]; [lia|exact H|auto|].
      right. exists i. repeat split; auto; lia. }
    rewrite (retry_from_unfold w prompt Hlt).
    destruct (backend w prompt n) as [e'|text] eqn:Hb.
    + destruct (retryable e') eqn:Hr.
      * destruct (Nat.eq_dec n (MAX_RETRIES - 1)) as [Hlast|Hnot];
          destruct e'; try discriminate.
        -- rewrite (@retry_loop_rate_limit_last w prompt n _ message Hb Hlast).
           intros H; inversion H. eauto.
        -- rewrite (@retry_loop_api_error_last w prompt n _ message Hb Hlast).
           intros H; inversion H. eauto.
        -- rewrite (@retry_loop_rate_limit_retry w prompt n _ message Hb Hnot).
           exact Hnext.
        -- rewrite (@retry_loop_api_error_retry w prompt n _ message Hb Hnot).
           exact Hnext.
      * rewrite (@retry_loop_other w prompt n _ e' Hb Hr).
        intros H; inversion H; subst. right. exists n. repeat split; auto; lia.
    + rewrite (@retry_loop_success w prompt n _ text Hb). discriminate.
Qed.

End RetryExtras.

(** X5. A rate-limit error or a generic backend error never leaves
    [generate]: what it raises is a [ContentGenerationError] or an
    exception of another class that the backend raised on one of the
    attempts. *)
Theorem X5_retryable_errors_do_not_escape
        (w : World) (pillar platform : str) (e : exn) :
  result (ClaudeClient.generate w pillar platform) = inl e ->
  retryable e = false
  /\ ((exists msg, e = ContentGenerationError msg)
      \/ (exists i, (i < ClaudeClient.MAX_RETRIES)%nat
                    /\ backend w (ClaudeClient.user_prompt pillar platform) i = inl e)).
Proof.
  intros H.
  destruct (retry_from_raises w (ClaudeClient.user_prompt pillar platform)
              ClaudeClient.MAX_RETRIES 0 e eq_refl H)
    as [(msg & ->)|(i & Hi & Hb & Hr)].
  - split; [reflexivity|eauto].
  - split; [exact Hr|]. right. exists i. split; [lia|exact Hb].
Qed.

Lemma trace_pair {A} (t : list event) (r : exn + A) : trace (t, r) = t.
Proof. reflexivity. Qed.

Lemma call_attempts_step (p : str) (n : nat) (d : Q) (t : list event) :
  call_attempts (BackendCall p n :: Sleep d :: t) = n :: call_attempts t.
Proof. reflexivity. Qed.

Section RetryOutcomes.
Variable w : World.
Variable prompt : str.
Import ClaudeClient.

Lemma retry_from_first_success (d : nat) :
  forall n text,
    (n + d < MAX_RETRIES)%nat ->
    (forall i, (n <= i < n + d)%nat ->
               exists e, backend w prompt i = inl e /\ retryable e = true) ->
    backend w prompt (n + d) = inr text ->
    result (retry_from w prompt n) = inr (Some text)
    /\ call_attempts (trace (retry_from w prompt n)) = seq n (S d).
Proof.
  induction d as [|d IH]; intros n text Hlt Hfail Hok.
  - rewrite Nat.add_0_r in Hok.
    rewrite (retry_from_unfold w prompt (n:=n)) by lia.
    rewrite (@retry_loop_success w prompt n _ text Hok). split; reflexivity.
  - destruct (Hfail n) as (e & Hb & Hr); [lia|].
    assert (Hnot : n <> (MAX_RETRIES - 1)%nat) by lia.
    destruct (IH (S n) text) as (Hres & Hcalls).
    { lia. }
    { intros i Hi. apply Hfail. lia. }
    { now rewrite Nat.add_succ_comm. }
    rewrite (retry_from_unfold w prompt (n:=n)) by lia.
    destruct e; try discriminate.
    + rewrite (@retry_loop_rate_limit_retry w prompt n _ message Hb Hnot).
      split; [exact Hres|].
      rewrite trace_pair, call_attempts_step.
      unfold retry_from in Hcalls. now rewrite Hcalls.
    + rewrite (@retry_loop_api_error_retry w prompt n _ message Hb Hnot).
      split; [exact Hres|].
      rewrite trace_pair, call_attempts_step.
      unfold retry_from in Hcalls. now rewrite Hcalls.
Qed.

Lemma retry_from_exhausted (m : nat) :
  forall n,
    (n + m = MAX_RETRIES)%nat -> (1 <= m)%nat ->
    (forall i, (n <= i < MAX_RETRIES)%nat ->
               exists e, backend w prompt i = inl e /\ retryable e = true) ->
    (exists msg, result (retry_from w prompt n) = inl (ContentGenerationError msg))
    /\ call_attempts (trace (retry_from w prompt n)) = seq n m.
Proof.
  induction m as [|m IH]; [lia|]. intros n Hn _ Hfail.
  destruct (Hfail n) as (e & Hb & Hr); [lia|].
  rewrite (retry_from_unfold w prompt (n:=n)) by lia.
  destruct (Nat.eq_dec n (MAX_RETRIES - 1)) as [Hlast|Hnot].
  - assert (m = 0)%nat by lia. subst m.
    destruct e; try discriminate.
    + rewrite (@retry_loop_rate_limit_last w prompt n _ message Hb Hlast).
      split; [eexists|]; reflexivity.
    + rewrite (@retry_loop_api_error_last w prompt n _ message Hb Hlast).
      split; [eexists|]; reflexivity.
  - destruct (IH (S n)) as (Hres & Hcalls); [lia|lia|intros; apply Hfail; lia|].
    destruct e; try discriminate.
    + rewrite (@retry_loop_rate_limit_retry w prompt n _ message Hb Hnot).
      split; [exact Hres|].
      rewrite trace_pair, call_attempts_step.
      unfold retry_from in Hcalls. now rewrite Hcalls.
    + rewrite (@retry_loop_api_error_retry w prompt n _ message Hb Hnot).
      split; [exact Hres|].
      rewrite trace_pair, call_attempts_step.
      unfold retry_from in Hcalls. now rewrite Hcalls.
Qed.

(** X6. The text of the first attempt that gets a reply is returned, after
    exactly one call per attempt up to that one, when every earlier attempt
    failed with a rate-limit or generic backend error; when all
    [MAX_RETRIES] attempts fail that way a [ContentGenerationError] is
    raised after exactly [MAX_RETRIES] calls. *)
Theorem X6_first_reply_wins :
  (forall k text,
      (k < MAX_RETRIES)%nat ->
      (forall i, (i < k)%nat ->
                 exists e, backend w prompt i = inl e /\ retryable e = true) ->
      backend w prompt k = inr text ->
      result (_call_with_retry w prompt) = inr (Some text)
      /\ call_attempts (trace (_call_with_retry w prompt)) = seq 0 (S k))
  /\ ((forall i, (i < MAX_RETRIES)%nat ->
                 exists e, backend w prompt i = inl e /\ retryable e = true) ->
      (exists msg,
          result (_call_with_retry w prompt) = inl (ContentGenerationError msg))
      /\ call_attempts (trace (_call_with_retry w prompt)) = seq 0 MAX_RETRIES).
Proof.
  change (_call_with_retry w prompt) with (retry_from w prompt 0). split.
  - intros k text Hk Hfail Hok.
    apply (retry_from_first_success k 0 text); auto.
    intros i Hi. apply Hfail. lia.
  - intros Hfail. apply (retry_from_exhausted MAX_RETRIES 0); auto.
    + unfold MAX_RETRIES. lia.
    + intros i Hi. apply Hfail. lia.
Qed.

Lemma total_sleep_step (p : str) (n : nat) (d : Q) (t : list event) :
  total_sleep (BackendCall p n :: Sleep d :: t) = (d + total_sleep t)%Q.
Proof. reflexivity. Qed.

(** From attempt [n] on: no sleep at all, or one sleep of the backoff of
    attempt [n] or of 1 second, followed by the sleeps from [n + 1] on. *)
Lemma retry_from_sleep_step (n : nat) :
  (n < MAX_RETRIES)%nat ->
  total_sleep (trace (retry_from w prompt n)) = 0%Q
  \/ (n <> (MAX_RETRIES - 1)%nat
      /\ exists d,
          (d = backoff_delay n (random w prompt n) \/ d = 1%Q)
          /\ total_sleep (trace (retry_from w prompt n))
             = (d + total_sleep (trace (retry_from w prompt (S n))))%Q).
Proof.
  intros Hlt. rewrite (retry_from_unfold w prompt Hlt).
  destruct (backend w prompt n) as [e|text] eqn:Hb.
  - destruct (retryable e) eqn:Hr.
    + destruct (Nat.eq_dec n (MAX_RETRIES - 1)) as [Hlast|Hnot];
        destruct e; try discriminate.
      * rewrite (@retry_loop_rate_limit_last w prompt n _ message Hb Hlast). now left.
      * rewrite (@retry_loop_api_error_last w prompt n _ message Hb Hlast). now left.
      * rewrite (@retry_loop_rate_limit_retry w prompt n _ message Hb Hnot).
        right. split; [exact Hnot|]. eexists. split; [left; reflexivity|].
        rewrite trace_pair, total_sleep_step. reflexivity.
      * rewrite (@retry_loop_api_error_retry w prompt n _ message Hb Hnot).
        right. split; [exact Hnot|]. eexists. split; [right; reflexivity|].
        rewrite trace_pair, total_sleep_step. reflexivity.
    + rewrite (@retry_loop_other w prompt n _ e Hb Hr). now left.
  - rewrite (@retry_loop_success w prompt n _ text Hb). now left.
Qed.

(** X7. The sleeps of one [_call_with_retry] add up to at most 5
    seconds, and to 5 seconds when the backend is rate limited throughout
    and every random bit is set: the two sums are then rounded up to 2
    and 3. *)
Theorem X7_total_sleep_bound :
  (0 <= total_sleep (trace (_call_with_retry w prompt)) <= 5)%Q
  /\ total_sleep (trace (_call_with_retry saturated_world prompt)) = 5%Q.
Proof.
  split; [|vm_compute; reflexivity].
  change (_call_with_retry w prompt) with (retry_from w prompt 0).
  assert (B0 : (1 <= backoff_delay 0 (random w prompt 0) <= 2)%Q).
  { destruct (backoff_delay_bounds 0 (random w prompt 0)) as ((Hlo & Hhi) & _);
      [lia|]. split; [exact Hlo|exact Hhi]. }
  assert (B1 : (2 <= backoff_delay 1 (random w prompt 1) <= 3)%Q).
  { destruct (backoff_delay_bounds 1 (random w prompt 1)) as ((Hlo & Hhi) & _);
      [lia|]. split; [exact Hlo|exact Hhi]. }
  assert (L2 : total_sleep (trace (retry_from w prompt 2)) = 0%Q).
  { destruct (retry_from_sleep_step 2) as [E|(Hnot & _)];
      [unfold MAX_RETRIES; lia|exact E|]. now elim Hnot. }
  assert (L1 : (0 <= total_sleep (trace (retry_from w prompt 1)) <= 3)%Q).
  { destruct (retry_from_sleep_step 1) as [E|(_ & d & [Hd|Hd] & E)];
      [unfold MAX_RETRIES; lia|..]; rewrite E; try rewrite L2; subst; lra. }
  destruct (retry_from_sleep_step 0) as [E|(_ & d & [Hd|Hd] & E)];
    [unfold MAX_RETRIES; lia|..]; rewrite E; subst; lra.
Qed.
End RetryOutcomes.

Lemma X5_retryable_errors_do_not_escape_witness :
  retryable (ContentGenerationError ClaudeClient.rate_limit_message) = false.
Proof.
  apply (X5_retryable_errors_do_not_escape limited_world (lit "p") (lit "x")
           (ContentGenerationError ClaudeClient.rate_limit_message)).
  reflexivity.
Defined.

Lemma X6_first_reply_wins_witness :
  result (ClaudeClient._call_with_retry flaky_world (lit "p"))
  = inr (Some (lit "generated text")).
Proof.
  destruct (X6_first_reply_wins flaky_world (lit "p")) as (Hfirst & _).
  apply (Hfirst 2%nat (lit "generated text")).
  - unfold ClaudeClient.MAX_RETRIES. lia.
  - intros i Hi. exists (RateLimitError (lit "429")).
    destruct i as [|[|i]]; [split; reflexivity|split; reflexivity|lia].
  - reflexivity.
Defined.

(** ** The orchestrator: stages, tables, bounds *)

Section PipelineExtras.
Context {U : UnicodeData}.
Import ContentPipeline.

(** X8. When generation raises, the task raises the same exception and
    does nothing after the generation: no validation failure is reported
    and no publisher is touched. *)
Theorem X8_generation_failure_stops_task
        (w : World) (config : PipelineConfig) (p : str) (e : exn) :
  result (ClaudeClient.generate w (pillar config) p) = inl e ->
  result (_generate_and_publish w config p) = inl e
  /\ trace (_generate_and_publish w config p)
     = trace (ClaudeClient.generate w (pillar config) p)
  /\ publisher_free (trace (_generate_and_publish w config p)).
Proof.
  intros H. split; [|split].
  - now rewrite task_result, H.
  - now rewrite task_trace, H, app_nil_r.
  - apply task_publisher_free. intros content Hc. congruence.
Qed.

Lemma get_publisher_ok (w : World) (p : str) (cls : Adapter) :
  publishers_import w = None ->
  PyDict.get publisher_classes p = Some cls ->
  adapter_init w cls = None ->
  _get_publisher w p = ([PublishersImport; PublisherInit cls], inr cls).
Proof.
  intros Himport Hcls Hinit. unfold _get_publisher.
  rewrite Himport, Hcls, Hinit. reflexivity.
Qed.

(** X9. Outside dry run, when the content passed validation and the
    publisher class could be imported and instantiated, the publisher is
    invoked exactly once, with the generated content unchanged, and what it
    returns or raises is the outcome of the task. *)
Theorem X9_publish_outcome_is_task_outcome
        (w : World) (config : PipelineConfig) (p content : str) (cls : Adapter) :
  result (ClaudeClient.generate w (pillar config) p) = inr (Some content) ->
  Validator.passed (Validator.validate content p) = true ->
  dry_run config = false ->
  publishers_import w = None ->
  PyDict.get publisher_classes p = Some cls ->
  adapter_init w cls = None ->
  trace (_generate_and_publish w config p)
  = trace (ClaudeClient.generate w (pillar config) p)
      ++ [PublishersImport; PublisherInit cls; PublisherPublish cls content]
  /\ result (_generate_and_publish w config p) = adapter_publish w cls content.
Proof.
  intros Hgen Hpass Hdry Himport Hcls Hinit.
  rewrite task_trace, task_result, Hgen. cbv zeta. rewrite Hpass, Hdry.
  cbn [negb]. rewrite (get_publisher_ok w p cls Himport Hcls Hinit).
  unfold publish. cbn [bind emit].
  destruct (adapter_publish w cls content); split; reflexivity.
Qed.

Lemma publisher_class_cases (p : str) :
  PyDict.get publisher_classes p
  = if PyStr.eqb p (lit "linkedin") then Some LinkedInPublisher
    else if PyStr.eqb p (lit "medium") then Some MediumPublisher
    else if PyStr.eqb p (lit "x") then Some TwitterPublisher
    else None.
Proof.
  unfold publisher_classes. cbn [PyDict.get].
  now rewrite (eqb_sym p (lit "linkedin")), (eqb_sym p (lit "medium")),
    (eqb_sym p (lit "x")).
Qed.

Lemma supported_cases (p : str) :
  supported p
  = PyStr.eqb p (lit "linkedin") || (PyStr.eqb p (lit "medium")
                                     || (PyStr.eqb p (lit "x") || false)).
Proof. reflexivity. Qed.

Lemma supported_has_class (p : str) :
  supported p = true <-> exists cls, PyDict.get publisher_classes p = Some cls.
Proof.
  rewrite publisher_class_cases, supported_cases.
  destruct (PyStr.eqb p (lit "linkedin")), (PyStr.eqb p (lit "medium")),
    (PyStr.eqb p (lit "x")); simpl; split; eauto; try discriminate;
    intros [cls H]; discriminate.
Qed.

(** X10. The supported platforms are exactly the keys of the publisher
    table, distinct supported platforms have distinct publisher classes,
    and every supported platform has a positive character limit and a word
    limit: a launched task never fails at a table lookup. *)
Theorem X10_tables_cover_supported (p : str) :
  (supported p = true <-> exists cls, PyDict.get publisher_classes p = Some cls)
  /\ (forall q cls,
         PyDict.get publisher_classes p = Some cls ->
         PyDict.get publisher_classes q = Some cls -> p = q)
  /\ (supported p = true ->
      (exists m, PyDict.get Validator.PLATFORM_MAX_CHARS p = Some m /\ (0 < m)%Z)
      /\ (exists n, PyDict.get ClaudeClient.PLATFORM_WORD_LIMITS p = Some n)).
Proof.
  split; [|split].
  - apply supported_has_class.
  - intros q cls. rewrite !publisher_class_cases.
    destruct (PyStr.eqb p (lit "linkedin")) eqn:P1;
      [|destruct (PyStr.eqb p (lit "medium")) eqn:P2;
        [|destruct (PyStr.eqb p (lit "x")) eqn:P3]];
      (destruct (PyStr.eqb q (lit "linkedin")) eqn:Q1;
       [|destruct (PyStr.eqb q (lit "medium")) eqn:Q2;
         [|destruct (PyStr.eqb q (lit "x")) eqn:Q3]]);
      intros H1 H2; try congruence;
      repeat match goal with
             | H : PyStr.eqb _ _ = true |- _ => apply eqb_eq in H
             end; congruence.
  - intros H. apply supported_iff in H.
    destruct H as [->|[->| ->]]; split; eexists; try split; try reflexivity.
Qed.

(** X11. [_get_publisher] first imports the publisher modules and raises
    what the import raises; after a successful import it raises a
    [KeyError] naming the platform when the platform has no publisher
    class, without instantiating anything. *)
Theorem X11_get_publisher_failures (w : World) (p : str) :
  (forall e, publishers_import w = Some e ->
             _get_publisher w p = ([PublishersImport], inl e))
  /\ (publishers_import w = None -> supported p = false ->
      _get_publisher w p = ([PublishersImport], inl (KeyError (repr p)))).
Proof.
  split.
  - intros e He. unfold _get_publisher. now rewrite He.
  - intros Himport Hsup. unfold _get_publisher. rewrite Himport.
    destruct (PyDict.get publisher_classes p) as [cls|] eqn:Hcls; [|reflexivity].
    assert (supported p = true) by (apply supported_has_class; eauto).
    congruence.
Qed.
End PipelineExtras.

Section PipelineBounds.
Context {U : UnicodeData}.
Import ContentPipeline.
Variable w : World.
Variable config : PipelineConfig.

Lemma publishes_of_app (cls : Adapter) (a b : list event) :
  publishes_of cls (a ++ b) = (publishes_of cls a + publishes_of cls b)%nat.
Proof. unfold publishes_of. now rewrite filter_app, length_app. Qed.

Lemma publishes_of_none (cls : Adapter) (t : list event) :
  (forall ev, In ev t -> is_publish cls ev = false) -> publishes_of cls t = 0%nat.
Proof.
  unfold publishes_of. induction t as [|ev t IH]; intros H; [reflexivity|].
  simpl. rewrite (H ev) by (simpl; auto). apply IH. intros; apply H; simpl; auto.
Qed.

Lemma is_publish_class (cls c : Adapter) (content : str) :
  is_publish cls (PublisherPublish c content) = true <-> cls = c.
Proof. destruct cls, c; simpl; split; congruence. Qed.

Lemma publish_trace (c : Adapter) (content : str) :
  trace (publish w c content) = [PublisherPublish c content].
Proof. unfold publish. destruct (adapter_publish w c content); reflexivity. Qed.

(** The publishing stage of a platform publishes at most once, and only
    on the class of that platform. *)
Lemma publishing_publishes (cls : Adapter) (k content : str) :
  (publishes_of cls
     (trace (publisher <- _get_publisher w k ;; publish w publisher content))
   <= 1)%nat
  /\ (PyDict.get publisher_classes k <> Some cls ->
      publishes_of cls
        (trace (publisher <- _get_publisher w k ;; publish w publisher content))
      = 0%nat).
Proof.
  rewrite trace_bind. unfold _get_publisher.
  destruct (PyDict.get publisher_classes k) as [c|] eqn:Hc;
    rewrite trace_bind, result_bind; simpl;
    (destruct (publishers_import w); simpl;
     [split; [cbn; lia|intros; reflexivity]|]);
    [|split; [cbn; lia|intros; reflexivity]].
  destruct (adapter_init w c); simpl; [split; [cbn; lia|intros; reflexivity]|].
  rewrite publish_trace.
  destruct cls, c; cbn; (split; [lia|]); intros Hne;
    try reflexivity; congruence.
Qed.

Lemma generate_publishes (cls : Adapter) (k : str) :
  publishes_of cls (trace (ClaudeClient.generate w (pillar config) k)) = 0%nat.
Proof.
  apply publishes_of_none. intros ev Hin. apply retry_loop_events in Hin.
  destruct Hin as [(n & _ & ->)|(d & ->)]; reflexivity.
Qed.

Lemma task_publishes (cls : Adapter) (k : str) :
  (publishes_of cls (trace (_generate_and_publish w config k)) <= 1)%nat
  /\ (PyDict.get publisher_classes k <> Some cls ->
      publishes_of cls (trace (_generate_and_publish w config k)) = 0%nat).
Proof.
  rewrite task_trace, publishes_of_app, generate_publishes.
  assert (Hnil : publishes_of cls [] = 0%nat) by reflexivity.
  destruct (result _) as [e|[content|]]; try (rewrite Hnil; split; [lia|reflexivity]).
  destruct (negb _); [rewrite Hnil; split; [lia|reflexivity]|].
  destruct (dry_run config); [rewrite Hnil; split; [lia|reflexivity]|].
  apply publishing_publishes.
Qed.

Lemma publisher_class_injective (p q : str) (cls : Adapter) :
  PyDict.get publisher_classes p = Some cls ->
  PyDict.get publisher_classes q = Some cls -> p = q.
Proof.
  rewrite !publisher_class_cases.
  destruct (PyStr.eqb p (lit "linkedin")) eqn:P1;
    [|destruct (PyStr.eqb p (lit "medium")) eqn:P2;
      [|destruct (PyStr.eqb p (lit "x")) eqn:P3]];
    (destruct (PyStr.eqb q (lit "linkedin")) eqn:Q1;
     [|destruct (PyStr.eqb q (lit "medium")) eqn:Q2;
       [|destruct (PyStr.eqb q (lit "x")) eqn:Q3]]);
    intros H1 H2; try congruence;
    repeat match goal with
           | H : PyStr.eqb _ _ = true |- _ => apply eqb_eq in H
           end; congruence.
Qed.

Lemma tasks_publishes (cls : Adapter) (ks : list str) :
  NoDup ks ->
  (publishes_of cls
     (flat_map (fun k => trace (_generate_and_publish w config k)) ks) <= 1)%nat.
Proof.
  assert (Hzero : forall l,
             (forall k, In k l -> PyDict.get publisher_classes k <> Some cls) ->
             publishes_of cls
               (flat_map (fun k => trace (_generate_and_publish w config k)) l)
             = 0%nat).
  { induction l as [|k l IH]; intros Hl; [reflexivity|].
    simpl. rewrite publishes_of_app, IH by (intros; apply Hl; simpl; auto).
    rewrite (proj2 (task_publishes cls k)) by (apply Hl; simpl; auto).
    reflexivity. }
  induction 1 as [|k ks Hk Hks IH]; [cbn; lia|].
  simpl. rewrite publishes_of_app.
  destruct (task_publishes cls k) as [Hle Hno].
  destruct (PyDict.get publisher_classes k) as [c|] eqn:Hc.
  - destruct (is_publish cls (PublisherPublish c [])) eqn:E.
    + apply is_publish_class in E. subst c.
      rewrite Hzero; [lia|].
      intros k' Hin Hk'. apply Hk.
      now rewrite (publisher_class_injective k k' cls Hc Hk').
    + rewrite Hno; [exact IH|].
      intros H. inversion H. subst c.
      assert (is_publish cls (PublisherPublish cls []) = true)
        by now apply is_publish_class.
      congruence.
  - rewrite Hno by discriminate. exact IH.
Qed.

(** X12. In one run each publisher class is published to at most once. *)
Theorem X12_one_publish_per_class (cls : Adapter) :
  (publishes_of cls (trace (run w config)) <= 1)%nat.
Proof.
  pose proof (tasks_publishes cls (launched config) (launched_NoDup config)) as H.
  destruct (run_trace_prefix w config) as [more E].
  rewrite E, publishes_of_app in H. lia.
Qed.

Lemma launched_length : (List.length (launched config) <= 3)%nat.
Proof.
  change 3%nat with (List.length SUPPORTED_PLATFORMS).
  apply NoDup_incl_length; [apply launched_NoDup|].
  intros p Hp. apply launched_iff in Hp as [_ Hs].
  unfold supported in Hs. now apply existsb_eqb_In in Hs.
Qed.

Lemma call_attempts_app (a b : list event) :
  call_attempts (a ++ b) = call_attempts a ++ call_attempts b.
Proof. apply flat_map_app. Qed.

Lemma publishing_no_calls (k content : str) :
  call_attempts
    (trace (publisher <- _get_publisher w k ;; publish w publisher content)) = [].
Proof.
  rewrite trace_bind. unfold _get_publisher.
  destruct (PyDict.get publisher_classes k) as [c|];
    rewrite trace_bind, result_bind; simpl;
    (destruct (publishers_import w); simpl; [reflexivity|]);
    [|reflexivity].
  destruct (adapter_init w c); simpl; [reflexivity|].
  unfold publish. destruct (adapter_publish w c content); reflexivity.
Qed.

Lemma task_call_attempts (k : str) :
  call_attempts (trace (_generate_and_publish w config k))
  = call_attempts (trace (ClaudeClient.generate w (pillar config) k)).
Proof.
  rewrite task_trace, call_attempts_app.
  destruct (result _) as [e|[content|]]; try apply app_nil_r.
  destruct (negb _); [apply app_nil_r|].
  destruct (dry_run config); [apply app_nil_r|].
  rewrite publishing_no_calls. apply app_nil_r.
Qed.

Lemma task_calls_bound (k : str) :
  (List.length (call_attempts (trace (_generate_and_publish w config k)))
   <= ClaudeClient.MAX_RETRIES)%nat.
Proof.
  rewrite task_call_attempts.
  unfold ClaudeClient.generate.
  change (ClaudeClient._call_with_retry w (ClaudeClient.user_prompt (pillar config) k))
    with (retry_from w (ClaudeClient.user_prompt (pillar config) k) 0).
  destruct (retry_from_shape w (ClaudeClient.user_prompt (pillar config) k)
              ClaudeClient.MAX_RETRIES 0)
    as (n & Hn & Hcalls & _); [reflexivity|unfold ClaudeClient.MAX_RETRIES; lia|].
  rewrite Hcalls, length_seq. lia.
Qed.

(** X13. A run launches at most three tasks; a mapping that it returns
    has one entry per launched task, so at most three; and it calls the
    backend at most [MAX_RETRIES] times per launched task, nine times in
    all, whether it returns or is stopped. *)
Theorem X13_run_bounds :
  (List.length (launched config) <= 3)%nat
  /\ (forall d,
         result (run w config) = inr d ->
         List.length d = List.length (launched config)
         /\ (List.length d <= 3)%nat)
  /\ (List.length (call_attempts (trace (run w config)))
      <= ClaudeClient.MAX_RETRIES * List.length (launched config))%nat
  /\ (List.length (call_attempts (trace (run w config))) <= 9)%nat.
Proof.
  pose proof launched_length as Hl.
  assert (Hcalls : (List.length (call_attempts (trace (run w config)))
                    <= ClaudeClient.MAX_RETRIES * List.length (launched config))%nat).
  { destruct (run_trace_prefix w config) as [more E].
    assert (Hfull : (List.length
                       (call_attempts
                          (flat_map (fun k => trace (_generate_and_publish w config k))
                                    (launched config)))
                     <= ClaudeClient.MAX_RETRIES * List.length (launched config))%nat).
    { clear Hl E. induction (launched config) as [|k ks IH]; [cbn; lia|].
      cbn [flat_map]. rewrite call_attempts_app, length_app.
      pose proof (task_calls_bound k) as Hk. cbn [List.length].
      unfold ClaudeClient.MAX_RETRIES in *. lia. }
    rewrite E, call_attempts_app, length_app in Hfull. lia. }
  split; [exact Hl|]. split; [|split; [exact Hcalls|]].
  - intros d Hd. apply run_returns in Hd as [_ ->].
    rewrite length_map. split; [reflexivity|exact Hl].
  - unfold ClaudeClient.MAX_RETRIES in Hcalls. lia.
Qed.

(** X14. For a request without repeated platforms, a mapping that the run
    returns lists exactly the supported requested platforms, in the order
    of the request; and the run returns a mapping unless a task raises
    [KeyboardInterrupt] or [SystemExit]. *)
Theorem X14_result_order :
  NoDup (platforms config) ->
  (forall d,
      result (run w config) = inr d ->
      PyDict.keys d = filter supported (platforms config))
  /\ ((forall p e,
          In p (platforms config) -> supported p = true ->
          result (_generate_and_publish w config p) = inl e ->
          stops_loop e = false) ->
      exists d, result (run w config) = inr d).
Proof.
  intros Hnd. split.
  - intros d Hd. apply run_returns in Hd as [_ ->].
    unfold PyDict.keys. rewrite map_map. simpl. rewrite map_id.
    unfold launched, first_occurrences.
    rewrite fold_add_key_fresh; [reflexivity|].
    simpl. now apply NoDup_filter.
  - intros H. eexists. apply run_result. now apply run_completes.
Qed.
End PipelineBounds.

Lemma X8_generation_failure_stops_task_witness :
  result (ContentPipeline._generate_and_publish
            (sample_world (lit "x") (lit "career_mentorship") sixty_letters)
            (sample_config [lit "x"] false) (lit "x"))
  = inl (OtherError (lit "ConnectionError") (lit "backend down")).
Proof.
  apply (@X8_generation_failure_stops_task ascii_only
           (sample_world (lit "x") (lit "career_mentorship") sixty_letters)
           (sample_config [lit "x"] false) (lit "x")).
  vm_compute. reflexivity.
Defined.

Lemma X9_publish_outcome_is_task_outcome_witness :
  result (ContentPipeline._generate_and_publish
            (sample_world (lit "none") (lit "career_mentorship") sixty_letters)
            (sample_config [lit "medium"] false) (lit "medium"))
  = inr (lit "published").
Proof.
  apply (@X9_publish_outcome_is_task_outcome ascii_only
           (sample_world (lit "none") (lit "career_mentorship") sixty_letters)
           (sample_config [lit "medium"] false) (lit "medium") sixty_letters
           MediumPublisher);
    vm_compute; reflexivity.
Defined.

Lemma X10_tables_cover_supported_witness :
  exists cls, PyDict.get ContentPipeline.publisher_classes (lit "medium") = Some cls.
Proof.
  apply (X10_tables_cover_supported (lit "medium")). reflexivity.
Defined.

Lemma X11_get_publisher_failures_witness :
  ContentPipeline._get_publisher
    (sample_world (lit "none") (lit "career_mentorship") sixty_letters) (lit "bogus")
  = ([PublishersImport], inl (KeyError (lit "'bogus'"))).
Proof.
  apply (@X11_get_publisher_failures ascii_only
           (sample_world (lit "none") (lit "career_mentorship") sixty_letters)
           (lit "bogus")); reflexivity.
Defined.

Lemma X13_run_bounds_witness :
  exists d,
    result (ContentPipeline.run
              (sample_world (lit "none") (lit "career_mentorship") sixty_letters)
              (sample_config [lit "x"; lit "bogus"; lit "linkedin"; lit "x"] true))
    = inr d
    /\ List.length d = 2%nat.
Proof.
  eexists. split; [vm_compute; reflexivity|].
  apply (@X13_run_bounds ascii_only
           (sample_world (lit "none") (lit "career_mentorship") sixty_letters)
           (sample_config [lit "x"; lit "bogus"; lit "linkedin"; lit "x"] true)).
  vm_compute. reflexivity.
Defined.

Lemma X14_result_order_witness :
  exists d,
    result (ContentPipeline.run
              (sample_world (lit "none") (lit "career_mentorship") sixty_letters)
              (sample_config [lit "x"; lit "bogus"; lit "linkedin"] true))
    = inr d
    /\ PyDict.keys d = [lit "x"; lit "linkedin"].
Proof.
  destruct (@X14_result_order ascii_only
              (sample_world (lit "none") (lit "career_mentorship") sixty_letters)
              (sample_config [lit "x"; lit "bogus"; lit "linkedin"] true))
    as (Hkeys & Hruns).
  { repeat constructor; simpl; intuition discriminate. }
  destruct Hruns as [d Hd].
  { intros p e [<-|[<-|[<-|[]]]] Hsup He;
      try (vm_compute in Hsup; discriminate Hsup);
      vm_compute in He; discriminate He. }
  exists d. split; [exact Hd|]. now apply Hkeys.
Defined.

(** ** The Twitter publisher: truncation, errors, request, signing *)

Section TwitterExtras.
Context {U : UnicodeData}.
Import TwitterPublisher.

(** X15. Truncating twice is truncating once, and truncation never changes
    the first 279 code points of the content. *)
Theorem X15_truncate_idempotent (content : str) :
  _truncate (_truncate content) = _truncate content
  /\ firstn 279 (_truncate content) = firstn 279 content.
Proof.
  split.
  - pose proof (truncate_len content) as H.
    unfold _truncate at 1. unfold MAX_TWEET_LENGTH.
    now apply Z.leb_le in H as ->.
  - unfold _truncate, MAX_TWEET_LENGTH.
    destruct (Z.leb_spec (len content) 280) as [Hle|Hgt]; [reflexivity|].
    rewrite slice_to_279. unfold len in Hgt.
    rewrite firstn_app, firstn_firstn.
    replace (Nat.min 279 279) with 279%nat by reflexivity.
    rewrite length_firstn.
    replace (279 - Nat.min 279 (List.length content))%nat with 0%nat by lia.
    simpl. apply app_nil_r.
Qed.

(** X16. Content that the validator accepts for platform [x] is posted as
    it is: truncation does not alter it. *)
Theorem X16_validated_tweet_not_truncated (content : str) :
  Validator.passed (Validator.validate content (lit "x")) = true ->
  _truncate content = content.
Proof.
  intros H. apply validate_passed in H. rewrite validate_failures in H.
  apply app_eq_nil in H as [_ H]. apply app_eq_nil in H as [H _].
  pose proof (proj1 (check_platform_limits_nil content (lit "x")) H 280%Z eq_refl)
    as Hlen.
  unfold _truncate, MAX_TWEET_LENGTH. now apply Z.leb_le in Hlen as ->.
Qed.

Variable self : Credentials.
Variable env : Env.




End TwitterExtras.

Section SigningExtras.
Context {U : UnicodeData}.
Import OAuthSpec TwitterPublisher.

Lemma first_surrogate_some (s : str) (pos : nat) :
  well_formed s = false -> exists r, Bytes.first_surrogate s pos = Some r.
Proof.
  revert pos. induction s as [|c s IH]; intros pos H; [discriminate|].
  simpl in *. destruct (Bytes.is_surrogate c); [eauto|]. now apply IH.
Qed.

Lemma encode_ill_formed (s : str) :
  well_formed s = false -> exists m, Bytes.encode s = inl (UnicodeEncodeError m).
Proof.
  intros H. unfold Bytes.encode.
  destruct (first_surrogate_some s 0 H) as [[[pos c] run] ->]. eauto.
Qed.

Lemma quote_ill_formed (s : str) :
  well_formed s = false -> exists m, UrlLib.quote s = inl (UnicodeEncodeError m).
Proof.
  intros H. unfold UrlLib.quote.
  destruct (encode_ill_formed s H) as [m ->]. eauto.
Qed.

Lemma quote_pairs_ill_formed (fmt : str -> str -> str) (items : list (str * str)) :
  forallb (fun kv => well_formed (fst kv) && well_formed (snd kv)) items = false ->
  exists m, quote_pairs fmt items = inl (UnicodeEncodeError m).
Proof.
  induction items as [|[k v] items IH]; [discriminate|].
  cbn [forallb fst snd quote_pairs]. intros H.
  destruct (well_formed k) eqn:Hk.
  - rewrite (quote_well_formed k Hk). cbn [and_then].
    destruct (well_formed v) eqn:Hv.
    + rewrite (quote_well_formed v Hv). cbn [and_then].
      destruct (IH H) as [m ->]. cbn [and_then]. eauto.
    + destruct (quote_ill_formed v Hv) as [m ->]. cbn [and_then]. eauto.
  - destruct (quote_ill_formed k Hk) as [m ->]. cbn [and_then]. eauto.
Qed.

Lemma quote_pairs_well_formed_b (fmt : str -> str -> str) (items : list (str * str)) :
  forallb (fun kv => well_formed (fst kv) && well_formed (snd kv)) items = true ->
  quote_pairs fmt items
  = inr (map (fun kv => fmt (percent_encode (fst kv)) (percent_encode (snd kv))) items).
Proof.
  intros H. apply quote_pairs_well_formed. apply Forall_forall. intros kv Hin.
  rewrite forallb_forall in H. now apply andb_true_iff, H.
Qed.

Lemma encoded_pairs_ascii (fmt : str -> str -> str) (items : list (str * str)) :
  (forall a b, forallb is_ascii a = true -> forallb is_ascii b = true ->
               forallb is_ascii (fmt a b) = true) ->
  Forall (fun p => forallb is_ascii p = true)
         (map (fun kv => fmt (percent_encode (fst kv)) (percent_encode (snd kv))) items).
Proof.
  intros Hfmt. apply Forall_map, Forall_forall. intros kv _.
  apply Hfmt; apply percent_encode_ascii.
Qed.

Variable self : Credentials.

(** X18. Signing produces a header exactly when the credentials, the
    nonce, the URL and the upper-cased method have no lone surrogate, and
    otherwise fails with the codec's [UnicodeEncodeError]; a header that is
    produced is the one entry [Authorization] and is pure ASCII. *)
Theorem X18_signing_outcomes (nonce : str) (timestamp : Z) (method url : str) :
  (signable self nonce method url = true ->
   exists auth,
     _build_oauth_headers self nonce timestamp method url
     = inr [(lit "Authorization", auth)]
     /\ forallb is_ascii auth = true)
  /\ (signable self nonce method url = false ->
      exists m,
        _build_oauth_headers self nonce timestamp method url
        = inl (UnicodeEncodeError m)).
Proof.
  unfold signable, _build_oauth_headers. cbv zeta. rewrite sorted_init.
  assert (Hlit : forall a, forallb is_ascii a = true -> well_formed a = true)
    by apply ascii_well_formed.
  assert (Hparams :
            forallb (fun kv => well_formed (fst kv) && well_formed (snd kv))
                    (parameters self nonce timestamp)
            = well_formed (consumer_key self) && well_formed nonce
              && well_formed (access_token self)).
  { unfold parameters. cbn [forallb fst snd].
    rewrite (Hlit _ (of_int_ascii timestamp)).
    change (well_formed (lit "oauth_consumer_key")) with true.
    change (well_formed (lit "oauth_nonce")) with true.
    change (well_formed (lit "oauth_signature_method")) with true.
    change (well_formed (lit "HMAC-SHA1")) with true.
    change (well_formed (lit "oauth_timestamp")) with true.
    change (well_formed (lit "oauth_token")) with true.
    change (well_formed (lit "oauth_version")) with true.
    change (well_formed (lit "1.0")) with true.
    cbn [andb]. now rewrite !andb_true_r, andb_assoc. }
  rewrite <- Hparams.
  destruct (forallb _ (parameters self nonce timestamp)) eqn:Hp; cbn [andb].
  2:{ split; [discriminate|]. intros _.
      destruct (quote_pairs_ill_formed param_pair _ Hp) as [m ->]. eexists; reflexivity. }
  rewrite (quote_pairs_well_formed_b param_pair _ Hp). cbn [and_then].
  destruct (well_formed url) eqn:Hurl; cbn [andb].
  2:{ split; [discriminate|]. intros _.
      destruct (quote_ill_formed url Hurl) as [m ->]. eexists; reflexivity. }
  rewrite (quote_well_formed url Hurl). cbn [and_then].
  set (ps := join (lit "&") _).
  assert (Hps : forallb is_ascii ps = true).
  { apply join_ascii; [reflexivity|]. apply encoded_pairs_ascii.
    intros a b Ha Hb. unfold param_pair. now rewrite !ascii_app, Ha, Hb. }
  rewrite (quote_well_formed ps (Hlit _ Hps)). cbn [and_then].
  destruct (well_formed (consumer_secret self)) eqn:Hcs; cbn [andb].
  2:{ split; [discriminate|]. intros _.
      destruct (quote_ill_formed _ Hcs) as [m ->]. eexists; reflexivity. }
  rewrite (quote_well_formed _ Hcs). cbn [and_then].
  destruct (well_formed (access_token_secret self)) eqn:Hts; cbn [andb].
  2:{ split; [discriminate|]. intros _.
      destruct (quote_ill_formed _ Hts) as [m ->]. eexists; reflexivity. }
  rewrite (quote_well_formed _ Hts). cbn [and_then].
  rewrite encode_well_formed
    by (apply Hlit; now rewrite !ascii_app, !percent_encode_ascii).
  cbn [and_then].
  destruct (well_formed (upper method)) eqn:Hm.
  2:{ split; [discriminate|]. intros _.
      destruct (encode_ill_formed
                  (upper method ++ lit "&" ++ percent_encode url
                                ++ lit "&" ++ percent_encode ps)) as [m ->].
      - now rewrite well_formed_app, Hm.
      - eexists; reflexivity. }
  rewrite encode_well_formed
    by (rewrite well_formed_app, Hm; apply Hlit;
        now rewrite !ascii_app, !percent_encode_ascii).
  cbn [and_then]. rewrite sorted_signed.
  set (sig := Bytes.decode_ascii _).
  assert (Hsig : well_formed sig = true) by (apply Hlit, b64encode_ascii).
  assert (Hsigned :
            forallb (fun kv => well_formed (fst kv) && well_formed (snd kv))
                    (signed_parameters self nonce timestamp sig) = true).
  { rewrite forallb_forall in Hp. apply forallb_forall. intros kv Hin.
    unfold signed_parameters in Hin. cbn [In] in Hin.
    destruct Hin as [<-|[<-|[<-|Hin]]];
      [apply Hp; unfold parameters; cbn [In]; auto
      |apply Hp; unfold parameters; cbn [In]; auto
      |cbn [fst snd]; now rewrite Hsig
      |apply Hp; unfold parameters; cbn [In]; tauto]. }
  rewrite (quote_pairs_well_formed_b header_pair _ Hsigned). cbn [and_then].
  split; [|discriminate]. intros _. eexists. split; [reflexivity|].
  rewrite ascii_app. apply andb_true_iff. split; [reflexivity|].
  apply join_ascii; [reflexivity|]. apply encoded_pairs_ascii.
  intros a b Ha Hb. unfold header_pair. now rewrite !ascii_app, Ha, Hb.
Qed.
End SigningExtras.

Lemma X16_validated_tweet_not_truncated_witness :
  TwitterPublisher._truncate sixty_letters = sixty_letters.
Proof.
  apply (@X16_validated_tweet_not_truncated ascii_only sixty_letters).
  vm_compute. reflexivity.
Defined.


Lemma X18_signing_outcomes_witness :
  (exists auth,
      TwitterPublisher._build_oauth_headers
        sample_credentials sample_nonce 1700000000 (lit "POST")
        TwitterPublisher.TWEET_ENDPOINT
      = inr [(lit "Authorization", auth)]
      /\ forallb is_ascii auth = true)
  /\ (exists m,
         TwitterPublisher._build_oauth_headers
           sample_credentials [55296%N] 1700000000 (lit "POST")
           TwitterPublisher.TWEET_ENDPOINT
         = inl (UnicodeEncodeError m)).
Proof.
  split.
  - apply (proj1 (@X18_signing_outcomes ascii_only sample_credentials
                    sample_nonce 1700000000 (lit "POST")
                    TwitterPublisher.TWEET_ENDPOINT)).
    vm_compute. reflexivity.
  - apply (proj2 (@X18_signing_outcomes ascii_only sample_credentials
                    [55296%N] 1700000000 (lit "POST")
                    TwitterPublisher.TWEET_ENDPOINT)).
    vm_compute. reflexivity.
Defined.

(** ** The Medium publisher *)

Section StringFacts.

Lemma part_of_refl (s : str) : part_of s s.
Proof. exists [], []. now rewrite app_nil_r. Qed.

Lemma part_of_trans (a b c : str) : part_of a b -> part_of b c -> part_of a c.
Proof.
  intros (p1 & q1 & ->) (p2 & q2 & ->).
  exists (p2 ++ p1), (q1 ++ q2). now rewrite <- !app_assoc.
Qed.

Lemma part_of_In (a b : str) (x : codepoint) : part_of a b -> In x a -> In x b.
Proof.
  intros (p & q & ->) H. apply in_or_app. right. apply in_or_app. now left.
Qed.

Lemma lstrip_suffix (s : str) : exists pre, s = pre ++ lstrip s.
Proof.
  induction s as [|c s [pre IH]]; [now exists []|].
  simpl. destruct (isspace c).
  - exists (c :: pre). simpl. now rewrite <- IH.
  - now exists [].
Qed.

Lemma rstrip_prefix (s : str) : exists post, s = rstrip s ++ post.
Proof.
  unfold rstrip. destruct (lstrip_suffix (rev s)) as [pre H].
  exists (rev pre). rewrite <- rev_app_distr, <- H. now rewrite rev_involutive.
Qed.

Lemma strip_part_of (s : str) : part_of (strip s) s.
Proof.
  unfold strip. destruct (lstrip_suffix s) as [pre H].
  destruct (rstrip_prefix (lstrip s)) as [post H'].
  exists pre, post. now rewrite <- H', <- H.
Qed.

Lemma lstrip_head (s : str) :
  match lstrip s with c :: _ => isspace c = false | [] => True end.
Proof.
  induction s as [|c s IH]; simpl; [exact I|].
  destruct (isspace c) eqn:E; [exact IH|exact E].
Qed.

Lemma lstrip_fixed (s : str) :
  match s with c :: _ => isspace c = false | [] => True end -> lstrip s = s.
Proof. destruct s as [|c s]; simpl; [reflexivity|]. now intros ->. Qed.

Lemma lstrip_idempotent (s : str) : lstrip (lstrip s) = lstrip s.
Proof. apply lstrip_fixed, lstrip_head. Qed.

Lemma rstrip_idempotent (s : str) : rstrip (rstrip s) = rstrip s.
Proof. unfold rstrip. now rewrite rev_involutive, lstrip_idempotent. Qed.

(** Stripping leaves a text that has no white space at either end. *)
Lemma strip_idempotent (s : str) : strip (strip s) = strip s.
Proof.
  unfold strip.
  assert (H : lstrip (rstrip (lstrip s)) = rstrip (lstrip s)).
  { apply lstrip_fixed. pose proof (lstrip_head s) as Hh.
    destruct (rstrip_prefix (lstrip s)) as [post Hp].
    destruct (rstrip (lstrip s)) as [|c r]; [exact I|].
    rewrite Hp in Hh. exact Hh. }
  rewrite H. apply rstrip_idempotent.
Qed.

Lemma lstrip_chars_suffix (chars s : str) :
  exists pre, s = pre ++ MediumPublisher.lstrip_chars chars s.
Proof.
  induction s as [|c s [pre IH]]; [now exists []|].
  simpl. destruct (existsb (N.eqb c) chars).
  - exists (c :: pre). simpl. now rewrite <- IH.
  - now exists [].
Qed.

Lemma lstrip_chars_part_of (chars s : str) :
  part_of (MediumPublisher.lstrip_chars chars s) s.
Proof.
  destruct (lstrip_chars_suffix chars s) as [pre H].
  exists pre, []. now rewrite app_nil_r.
Qed.

Lemma split_not_nil (sep : codepoint) (s : str) : MediumPublisher.split sep s <> [].
Proof.
  destruct s as [|c s]; simpl; [discriminate|].
  destruct (N.eqb c sep); [discriminate|].
  destruct (MediumPublisher.split sep s); discriminate.
Qed.

(** Joining the pieces with the separator gives the text back. *)
Lemma join_split (sep : codepoint) (s : str) :
  join [sep] (MediumPublisher.split sep s) = s.
Proof.
  induction s as [|c s IH]; [reflexivity|].
  simpl. destruct (N.eqb_spec c sep) as [->|Hne].
  - pose proof (split_not_nil sep s) as Hn.
    destruct (MediumPublisher.split sep s) as [|l ls]; [congruence|].
    change (join [sep] ([] :: l :: ls)) with ([] ++ [sep] ++ join [sep] (l :: ls)).
    now rewrite IH.
  - pose proof (split_not_nil sep s) as Hn.
    destruct (MediumPublisher.split sep s) as [|l ls]; [congruence|].
    destruct ls as [|l2 ls].
    + simpl in *. now rewrite IH.
    + change (join [sep] ((c :: l) :: l2 :: ls))
        with (c :: (l ++ [sep] ++ join [sep] (l2 :: ls))).
      change (join [sep] (l :: l2 :: ls))
        with (l ++ [sep] ++ join [sep] (l2 :: ls)) in IH.
      now rewrite IH.
Qed.

(** No piece contains the separator. *)
Lemma split_pieces (sep : codepoint) (s : str) :
  Forall (fun l => ~ In sep l) (MediumPublisher.split sep s).
Proof.
  induction s as [|c s IH]; [repeat constructor; intros []|].
  simpl. destruct (N.eqb_spec c sep) as [->|Hne].
  - constructor; [intros []|exact IH].
  - destruct (MediumPublisher.split sep s) as [|l ls].
    + repeat constructor. intros [H|[]]. congruence.
    + inversion IH as [|? ? Hl Hls]; subst. constructor; [|exact Hls].
      intros [H|H]; [congruence|contradiction].
Qed.

Lemma split_single (sep : codepoint) (s : str) :
  ~ In sep s -> MediumPublisher.split sep s = [s].
Proof.
  induction s as [|c s IH]; [reflexivity|].
  intros H. simpl. destruct (N.eqb_spec c sep) as [->|Hne].
  - exfalso. apply H. now left.
  - rewrite IH; [reflexivity|]. intros Hin. apply H. now right.
Qed.

Lemma split_several (sep : codepoint) (s : str) :
  In sep s -> exists l l2 ls, MediumPublisher.split sep s = l :: l2 :: ls.
Proof.
  induction s as [|c s IH]; [intros []|].
  intros H. simpl. destruct (N.eqb_spec c sep) as [->|Hne].
  - pose proof (split_not_nil sep s) as Hn.
    destruct (MediumPublisher.split sep s) as [|l ls]; [congruence|]. eauto.
  - destruct H as [H|H]; [congruence|].
    destruct (IH H) as (l & l2 & ls & ->). eauto.
Qed.

End StringFacts.

Section MediumExtras.
Import MediumPublisher.

(** X19. The title that [_extract_title_and_body] returns is one piece of
    the content, has no line break and no white space at either end; the
    word [Untitled] is never substituted.  For content of one line (after
    stripping) the body is the content as given, heading and surrounding
    white space included; otherwise the body is a stripped piece of the
    content that follows its first line break. *)
Theorem X19_title_and_body (content : str) :
  let title := fst (_extract_title_and_body content) in
  let body := snd (_extract_title_and_body content) in
  part_of title content
  /\ ~ In newline title
  /\ strip title = title
  /\ (~ In newline (strip content) ->
      title = strip (lstrip_chars [hash] (strip content)) /\ body = content)
  /\ (In newline (strip content) ->
      strip body = body
      /\ exists first rest,
          strip content = first ++ [newline] ++ rest
          /\ ~ In newline first
          /\ title = strip (lstrip_chars [hash] (strip first))
          /\ body = strip rest).
Proof.
  cbv zeta. unfold _extract_title_and_body. cbv zeta. cbn [fst snd].
  pose proof (split_not_nil newline (strip content)) as Hn.
  pose proof (join_split newline (strip content)) as Hj.
  pose proof (split_pieces newline (strip content)) as Hp.
  destruct (split newline (strip content)) as [|l ls] eqn:E; [congruence|].
  inversion Hp as [|? ? Hl Hls]; subst.
  assert (Hpart : part_of (strip (lstrip_chars [hash] (strip l))) l).
  { eapply part_of_trans; [apply strip_part_of|].
    eapply part_of_trans; [apply lstrip_chars_part_of|apply strip_part_of]. }
  assert (Hfirst : part_of l (strip content)).
  { rewrite <- Hj. destruct ls as [|l2 ls].
    - apply part_of_refl.
    - exists [], ([newline] ++ join [newline] (l2 :: ls)). reflexivity. }
  split; [|split; [|split; [|split]]].
  - eapply part_of_trans; [exact Hpart|].
    eapply part_of_trans; [exact Hfirst|apply strip_part_of].
  - intros H. apply Hl. eapply part_of_In; eassumption.
  - apply strip_idempotent.
  - intros Hno. rewrite (split_single newline _ Hno) in E.
    injection E as <- <-. split; [now rewrite strip_idempotent|reflexivity].
  - intros Hin. destruct (split_several newline _ Hin) as (l' & l2 & ls' & E').
    rewrite E' in E. injection E as -> <-.
    change (1 <? Z.of_nat (List.length (l :: l2 :: ls')))%Z
      with (1 <? Z.of_nat (S (S (List.length ls'))))%Z.
    replace (1 <? Z.of_nat (S (S (List.length ls'))))%Z with true
      by (symmetry; apply Z.ltb_lt; lia).
    split; [apply strip_idempotent|].
    exists l, (join [newline] (l2 :: ls')).
    repeat split; [now rewrite <- Hj|exact Hl].
Qed.
End MediumExtras.

Example extract_heading :
  MediumPublisher._extract_title_and_body sample_article
  = (lit "Title", lit "Body text" ++ [10%N] ++ lit " more").
Proof. vm_compute. reflexivity. Qed.

(** Only the leading run of [#] goes: a second one after a blank stays. *)
Example extract_second_hash :
  MediumPublisher._extract_title_and_body (lit "# # T") = (lit "# T", lit "# # T").
Proof. vm_compute. reflexivity. Qed.

Example extract_blank :
  MediumPublisher._extract_title_and_body (lit "  " ++ [10%N] ++ lit " ")
  = ([], lit "  " ++ [10%N] ++ lit " ").
Proof. vm_compute. reflexivity. Qed.

Lemma X19_title_and_body_witness :
  MediumPublisher._extract_title_and_body (lit " one line  ")
  = (lit "one line", lit " one line  ").
Proof.
  destruct (X19_title_and_body (lit " one line  ")) as (_ & _ & _ & H & _).
  destruct H as [Ht Hb]; [vm_compute; intuition discriminate|].
  rewrite (surjective_pairing (MediumPublisher._extract_title_and_body _)).
  rewrite Ht, Hb. vm_compute. reflexivity.
Defined.

Section MediumPublish.
Import MediumPublisher.
Variable env : Env.

Lemma auth_headers_token (self : Self) (cache : option str) :
  _auth_headers {| token := token self; _user_id := cache |} = _auth_headers self.
Proof. reflexivity. Qed.

(** The three ways through [publish]. *)
Lemma medium_publish_cases (self : Self) (content : str) :
  let me := BASE_URL ++ lit "/me" in
  let headers := _auth_headers self in
  publish env content self
  = match cached_id self with
    | Some id =>
        (self, [Post (posts_url id) headers (payload_of env content)],
         wrap_outcome (http_post env (posts_url id) headers (payload_of env content)))
    | None =>
        match http_get env me headers with
        | inl e => (self, [Get me headers], inl (medium_wrap e))
        | inr id =>
            ({| token := token self; _user_id := Some id |},
             [Get me headers; Post (posts_url id) headers (payload_of env content)],
             wrap_outcome
               (http_post env (posts_url id) headers (payload_of env content)))
        end
    end.
Proof.
  cbv zeta. unfold publish, _create_post, payload_of.
  destruct (_extract_title_and_body content) as [title body].
  cbv [Method.try_except Method.bind _get_user_id Method.read Method.perform
       Method.write Method.ret Method.raise cached_id posts_url wrap_outcome
       medium_wrap fst].
  destruct (_user_id self) as [[|c id]|].
  - destruct (http_get env _ _) as [e|id].
    + destruct (is_Exception e), (is_MediumPublisherError e); reflexivity.
    + rewrite auth_headers_token.
      destruct (http_post env _ _ _) as [e|u];
        [destruct (is_Exception e), (is_MediumPublisherError e)|]; reflexivity.
  - destruct (http_post env _ _ _) as [e|u];
      [destruct (is_Exception e), (is_MediumPublisherError e)|]; reflexivity.
  - destruct (http_get env _ _) as [e|id].
    + destruct (is_Exception e), (is_MediumPublisherError e); reflexivity.
    + rewrite auth_headers_token.
      destruct (http_post env _ _ _) as [e|u];
        [destruct (is_Exception e), (is_MediumPublisherError e)|]; reflexivity.
Qed.
End MediumPublish.

Section MediumProperties.
Import MediumPublisher.

Lemma payload_entries (env : Env) (content : str) :
  PyDict.keys (payload_of env content)
  = [lit "title"; lit "contentFormat"; lit "content"; lit "publishStatus"]
  /\ PyDict.get (payload_of env content) (lit "title")
     = Some (fst (_extract_title_and_body content))
  /\ PyDict.get (payload_of env content) (lit "contentFormat")
     = Some (lit "markdown")
  /\ PyDict.get (payload_of env content) (lit "content") = Some content
  /\ PyDict.get (payload_of env content) (lit "publishStatus")
     = Some match MEDIUM_PUBLISH_STATUS env with
            | Some v => v
            | None => lit "draft"
            end.
Proof. repeat split. Qed.


(** X20. A [publish] of the Medium publisher sends one or two requests:
    with a user id cached only the POST, otherwise a GET of [/me] first and
    the POST only if that GET gave an id.  The POST goes to the posts of
    that user with the bearer token, and its body carries the content as
    given (heading line included), the extracted title, the format
    [markdown] and the status of the environment, [draft] when unset; the
    outcome of the call is made from the answer to the POST: the status
    line with the address, a [MediumPublisherError] unchanged, any other
    exception of a class within [Exception] wrapped with its message, and
    an exception outside [Exception] unchanged. *)
Theorem X20_medium_requests (env : Env) (self : Self) (content : str) :
  let o := publish env content self in
  let me := BASE_URL ++ lit "/me" in
  Method.events o <> []
  /\ (List.length (filter is_get (Method.events o)) <= 1)%nat
  /\ (List.length (filter is_post (Method.events o)) <= 1)%nat
  /\ (forall url headers,
         In (Get url headers) (Method.events o) ->
         hd_error (Method.events o) = Some (Get url headers)
         /\ url = me /\ headers = _auth_headers self /\ cached_id self = None)
  /\ (forall url headers payload,
         In (Post url headers payload) (Method.events o) ->
         (exists id,
             url = posts_url id
             /\ (cached_id self = Some id
                 \/ cached_id self = None
                    /\ http_get env me (_auth_headers self) = inr id))
         /\ PyDict.get headers (lit "Authorization")
            = Some (lit "Bearer " ++ token self)
         /\ PyDict.keys payload
            = [lit "title"; lit "contentFormat"; lit "content"; lit "publishStatus"]
         /\ PyDict.get payload (lit "content") = Some content
         /\ PyDict.get payload (lit "title")
            = Some (fst (_extract_title_and_body content))
         /\ PyDict.get payload (lit "contentFormat") = Some (lit "markdown")
         /\ PyDict.get payload (lit "publishStatus")
            = Some match MEDIUM_PUBLISH_STATUS env with
                   | Some v => v
                   | None => lit "draft"
                   end
         /\ Method.outcome o
            = match http_post env url headers payload with
              | inl e =>
                  inl (if is_MediumPublisherError e then e
                       else if is_Exception e
                       then MediumPublisherError
                              (lit "Medium publish failed: " ++ exn_message e)
                       else e)
              | inr post_url =>
                  inr (lit "Medium: published successfully " ++ [8594%N]
                           ++ lit " " ++ post_url)
              end).
Proof.
  cbv zeta. rewrite medium_publish_cases. cbv zeta.
  destruct (payload_entries env content) as (Hk & Ht & Hf & Hc & Hs).
  destruct (cached_id self) as [id|] eqn:Hcache.
  - cbn [Method.events Method.outcome fst snd filter is_get is_post List.length].
    split; [discriminate|]. split; [lia|]. split; [lia|]. split.
    + intros url headers [H|[]]. discriminate.
    + intros url headers payload [H|[]]. injection H as <- <- <-.
      split; [exists id; split; [reflexivity|now left]|].
      repeat split; assumption.
  - destruct (http_get env _ _) as [e|id] eqn:Hget.
    + cbn [Method.events Method.outcome fst snd filter is_get is_post List.length].
      split; [discriminate|]. split; [lia|]. split; [lia|]. split.
      * intros url headers [H|[]]. injection H as <- <-. repeat split.
      * intros url headers payload [H|[]]. discriminate.
    + cbn [Method.events Method.outcome fst snd filter is_get is_post List.length].
      split; [discriminate|]. split; [lia|]. split; [lia|]. split.
      * intros url headers [H|[H|[]]]; [|discriminate].
        injection H as <- <-. repeat split.
      * intros url headers payload [H|[H|[]]]; [discriminate|].
        injection H as <- <- <-.
        split; [exists id; split; [reflexivity|now right]|].
        repeat split; assumption.
Qed.

Lemma cached_publish (env : Env) (self : Self) (content id : str) :
  cached_id self = Some id ->
  Method.fields (publish env content self) = self
  /\ Method.events (publish env content self)
     = [Post (posts_url id) (_auth_headers self) (payload_of env content)].
Proof.
  intros H. pose proof (medium_publish_cases env self content) as Hc.
  cbv zeta in Hc. rewrite H in Hc. rewrite Hc. split; reflexivity.
Qed.

Lemma cached_publish_all (calls : list (Env * str)) (self : Self) (id : str) :
  cached_id self = Some id ->
  fst (publish_all calls self) = self
  /\ snd (publish_all calls self)
     = map (fun call => Post (posts_url id) (_auth_headers self)
                             (payload_of (fst call) (snd call))) calls.
Proof.
  intros H. induction calls as [|[env content] calls [IH1 IH2]]; [split; reflexivity|].
  cbn [publish_all map fst snd].
  destruct (cached_publish env self content id H) as [Hf He].
  rewrite Hf, He.
  destruct (publish_all calls self) as [self' evs]. cbn [fst snd] in *.
  subst. split; reflexivity.
Qed.

(** X21. The user id is asked for once.  A publisher that holds an id
    sends no GET in any sequence of [publish] calls, whatever the outside
    answers: each call sends exactly one POST, to the posts of that user,
    and the fields stay as they are.  A publisher that holds none caches
    the id that its GET yields, also when the POST that follows fails, and
    caches nothing when the GET fails; the token is never changed. *)
Theorem X21_user_id_cached_once (env : Env) (self : Self) (content : str) :
  let o := publish env content self in
  let me := BASE_URL ++ lit "/me" in
  token (Method.fields o) = token self
  /\ (forall id calls,
         cached_id self = Some id ->
         fst (publish_all calls self) = self
         /\ List.length (snd (publish_all calls self)) = List.length calls
         /\ forall r, In r (snd (publish_all calls self)) ->
                      is_post r = true /\ request_url r = posts_url id)
  /\ (forall id,
         cached_id self = None ->
         http_get env me (_auth_headers self) = inr id ->
         _user_id (Method.fields o) = Some id)
  /\ (forall e,
         cached_id self = None ->
         http_get env me (_auth_headers self) = inl e ->
         Method.fields o = self)
  /\ (forall id calls,
         cached_id (Method.fields o) = Some id ->
         forall r, In r (snd (publish_all calls (Method.fields o))) ->
                   is_post r = true /\ request_url r = posts_url id).
Proof.
  cbv zeta.
  assert (Hall : forall s id calls,
             cached_id s = Some id ->
             forall r, In r (snd (publish_all calls s)) ->
                       is_post r = true /\ request_url r = posts_url id).
  { intros s id calls H r Hin.
    destruct (cached_publish_all calls s id H) as [_ He].
    rewrite He in Hin. apply in_map_iff in Hin as (call & <- & _).
    split; reflexivity. }
  split; [|split; [|split; [|split]]].
  - rewrite medium_publish_cases. cbv zeta.
    destruct (cached_id self); [reflexivity|].
    destruct (http_get env _ _); reflexivity.
  - intros id calls H.
    destruct (cached_publish_all calls self id H) as [Hf He].
    split; [exact Hf|]. split; [now rewrite He, length_map|].
    now apply Hall.
  - intros id Hc Hget. rewrite medium_publish_cases. cbv zeta.
    now rewrite Hc, Hget.
  - intros e Hc Hget. rewrite medium_publish_cases. cbv zeta.
    now rewrite Hc, Hget.
  - intros id calls H. now apply Hall.
Qed.

End MediumProperties.

Lemma X20_medium_requests_witness :
  In (MediumPublisher.Post (posts_url (lit "user42"))
        (MediumPublisher._auth_headers fresh_publisher)
        (payload_of (sample_medium None) sample_article))
     (Method.events
        (MediumPublisher.publish (sample_medium None) sample_article fresh_publisher))
  /\ PyDict.get (payload_of (sample_medium None) sample_article) (lit "publishStatus")
     = Some (lit "draft")
  /\ PyDict.get (payload_of (sample_medium None) sample_article) (lit "content")
     = Some sample_article.
Proof.
  assert (Hin : In (MediumPublisher.Post (posts_url (lit "user42"))
                      (MediumPublisher._auth_headers fresh_publisher)
                      (payload_of (sample_medium None) sample_article))
                   (Method.events
                      (MediumPublisher.publish (sample_medium None) sample_article
                                               fresh_publisher)))
    by (vm_compute; right; left; reflexivity).
  split; [exact Hin|].
  destruct (X20_medium_requests (sample_medium None) fresh_publisher sample_article)
    as (_ & _ & _ & _ & H).
  destruct (H _ _ _ Hin) as (_ & _ & _ & Hc & _ & _ & Hs & _).
  split; [exact Hs|exact Hc].
Defined.

Lemma X21_user_id_cached_once_witness :
  MediumPublisher._user_id
    (Method.fields
       (MediumPublisher.publish (sample_medium None) sample_article fresh_publisher))
  = Some (lit "user42")
  /\ forallb is_post
       (snd (publish_all
               [(refusing_medium, lit "a"); (sample_medium None, lit "b")]
               (Method.fields
                  (MediumPublisher.publish (sample_medium None) sample_article
                                           fresh_publisher))))
     = true.
Proof.
  destruct (X21_user_id_cached_once (sample_medium None) fresh_publisher
                                    sample_article) as (_ & _ & Hget & _ & Hlater).
  split.
  - apply Hget; reflexivity.
  - apply forallb_forall. intros r Hin.
    apply (Hlater (lit "user42") _ eq_refl r Hin).
Defined.


(** ** The LinkedIn publisher *)

Section LinkedInExtras.
Import LinkedInPublisher.
Variable env : Env.

(** The calls and the outcome of [publish], by the first call that fails. *)
Lemma linkedin_publish_normal (content : str) :
  publish env content tt
  = (tt,
     fst (attempted env (setup_steps ++ page_steps content))
     ++ (if forallb (succeeds env) setup_steps then [Close] else [])
     ++ (if succeeds env Start then [Stop] else []),
     match fails env Start with
     | Some e => inl e
     | None =>
     match fails env Stop with
     | Some e => inl e
     | None =>
     match snd (attempted env [Launch false; NewPage]) with
     | Some e => inl e
     | None =>
     match fails env Close with
     | Some e => inl e
     | None =>
     match snd (attempted env (page_steps content)) with
     | Some e =>
         if is_Exception e
         then inl (LinkedInPublisherError
                     (lit "LinkedIn publish failed: " ++ exn_message e))
         else inl e
     | None => inr (lit "LinkedIn: published successfully")
     end end end end end).
Proof.
  unfold publish, _open_post_composer, _fill_post_content, _submit_post,
    setup_steps, page_steps, succeeds.
  cbv [Method.bind Method.try_finally Method.try_except Method.perform
       Method.ret Method.raise call attempted forallb andb app fst snd].
  repeat first
    [ reflexivity
    | case_calls env content
    | match goal with
      | |- context [is_Exception ?e] => destruct (is_Exception e)
      end ].
Qed.
End LinkedInExtras.

Section LinkedInProperties.
Import LinkedInPublisher.
Variable env : Env.

Lemma attempted_filter (p : action -> bool) (steps : list action) :
  forallb (fun a => negb (p a)) steps = true ->
  filter p (fst (attempted env steps)) = [].
Proof.
  induction steps as [|a steps IH]; [reflexivity|].
  cbn [forallb attempted]. intros H. apply andb_true_iff in H as [Ha Hs].
  apply negb_true_iff in Ha.
  destruct (fails env a).
  - cbn [fst filter]. now rewrite Ha.
  - specialize (IH Hs). destruct (attempted env steps) as [done stopped].
    cbn [fst filter] in *. now rewrite Ha.
Qed.

Lemma attempted_head (a : action) (steps : list action) :
  exists rest, fst (attempted env (a :: steps)) = a :: rest.
Proof.
  cbn [attempted]. destruct (fails env a); [now exists []|].
  destruct (attempted env steps) as [done stopped]. now exists done.
Qed.

(** X23. The calls of a LinkedIn [publish] are those of the script, in
    order and up to the first one that fails, and then the cleanup: the
    browser is closed exactly once when the session was started, the
    browser launched and the page made, and otherwise not at all; the
    session is left exactly once when it was started.  Closing and leaving
    come after every other call and do not depend on how the page calls
    ended. *)
Theorem X23_linkedin_cleanup (content : str) :
  let evs := Method.events (publish env content tt) in
  evs = fst (attempted env (setup_steps ++ page_steps content))
        ++ (if forallb (succeeds env) setup_steps then [Close] else [])
        ++ (if succeeds env Start then [Stop] else [])
  /\ List.length (filter is_close evs)
     = (if forallb (succeeds env) setup_steps then 1 else 0)%nat
  /\ List.length (filter is_stop evs)
     = (if succeeds env Start then 1 else 0)%nat
  /\ hd_error evs = Some Start.
Proof.
  cbv zeta. rewrite linkedin_publish_normal. cbn [Method.events fst snd].
  split; [reflexivity|]. split; [|split].
  - rewrite !filter_app, attempted_filter by reflexivity.
    destruct (forallb (succeeds env) setup_steps), (succeeds env Start);
      reflexivity.
  - rewrite !filter_app, attempted_filter by reflexivity.
    destruct (forallb (succeeds env) setup_steps), (succeeds env Start);
      reflexivity.
  - change (setup_steps ++ page_steps content)
      with (Start :: ([Launch false; NewPage] ++ page_steps content)).
    destruct (attempted_head Start ([Launch false; NewPage] ++ page_steps content))
      as [rest ->].
    reflexivity.
Qed.

End LinkedInProperties.

Section LinkedInContent.
Import LinkedInPublisher.
Variable env : Env.

Lemma attempted_In (steps : list action) (a : action) :
  In a (fst (attempted env steps)) -> In a steps.
Proof.
  induction steps as [|b steps IH]; [intros []|].
  cbn [attempted]. destruct (fails env b).
  - intros [<-|[]]. now left.
  - destruct (attempted env steps) as [done stopped]. cbn [fst] in *.
    intros [<-|H]; [now left|right; now apply IH].
Qed.

(** A call that was made after another one of the list found it done. *)
Lemma attempted_after (pre post : list action) (a b : action) :
  In b (fst (attempted env (pre ++ a :: post))) ->
  ~ In b (pre ++ [a]) ->
  fails env a = None /\ In a (fst (attempted env (pre ++ a :: post))).
Proof.
  induction pre as [|c pre IH]; cbn [app attempted].
  - destruct (fails env a).
    + intros [<-|[]] H. exfalso. apply H. now left.
    + intros _ _. split; [reflexivity|].
      destruct (attempted env post). now left.
  - destruct (fails env c).
    + intros [<-|[]] H. exfalso. apply H. now left.
    + destruct (attempted env (pre ++ a :: post)) as [done stopped].
      cbn [fst] in *. intros [<-|Hb] H; [exfalso; apply H; now left|].
      destruct (IH Hb) as [Hf Hin]; [intros Hc; apply H; now right|].
      split; [exact Hf|now right].
Qed.

Lemma attempted_filter_one (p : action -> bool) (pre post : list action)
      (a : action) :
  forallb (fun b => negb (p b)) pre = true ->
  forallb (fun b => negb (p b)) post = true ->
  (List.length (filter p (fst (attempted env (pre ++ a :: post)))) <= 1)%nat.
Proof.
  intros Hpre Hpost. induction pre as [|c pre IH]; cbn [app attempted].
  - pose proof (attempted_filter env p post Hpost) as Hrest.
    destruct (fails env a); [cbn [fst filter]; destruct (p a); cbn; lia|].
    destruct (attempted env post) as [done stopped].
    cbn [fst filter] in *. destruct (p a); cbn [List.length]; rewrite Hrest; cbn; lia.
  - cbn [forallb] in Hpre. apply andb_true_iff in Hpre as [Hc Hpre].
    apply negb_true_iff in Hc.
    destruct (fails env c); [cbn [fst filter]; rewrite Hc; cbn; lia|].
    specialize (IH Hpre).
    destruct (attempted env (pre ++ a :: post)) as [done stopped].
    cbn [fst filter] in *. now rewrite Hc.
Qed.

(** X25. What a LinkedIn [publish] types is the content as given: the
    editor is filled at most once, with the whole content and nothing
    else, and the publish button is clicked only after that call
    succeeded.  A call that returns the status line has filled the editor
    and clicked the button. *)
Theorem X25_linkedin_content (content : str) :
  let o := publish env content tt in
  (forall selector text,
      In (Fill selector text) (Method.events o) ->
      selector = TEXT_EDITOR /\ text = content)
  /\ (List.length (filter is_fill (Method.events o)) <= 1)%nat
  /\ (In (Click PUBLISH_BUTTON) (Method.events o) ->
      fails env (Fill TEXT_EDITOR content) = None
      /\ In (Fill TEXT_EDITOR content) (Method.events o))
  /\ (forall status,
         Method.outcome o = inr status ->
         In (Fill TEXT_EDITOR content) (Method.events o)
         /\ In (Click PUBLISH_BUTTON) (Method.events o)).
Proof.
  cbv zeta. rewrite linkedin_publish_normal. cbn [Method.events Method.outcome fst snd].
  set (cleanup := (if forallb (succeeds env) setup_steps then [Close] else [])
                    ++ (if succeeds env Start then [Stop] else [])).
  assert (Hclean : forall a, In a cleanup -> a = Close \/ a = Stop).
  { intros a. unfold cleanup.
    destruct (forallb (succeeds env) setup_steps), (succeeds env Start);
      cbn [app In]; intuition auto. }
  assert (Hscript : forall a,
             In a (fst (attempted env (setup_steps ++ page_steps content)) ++ cleanup) ->
             a <> Close -> a <> Stop ->
             In a (fst (attempted env (setup_steps ++ page_steps content)))).
  { intros a Ha H1 H2. apply in_app_or in Ha as [Ha|Ha]; [exact Ha|].
    destruct (Hclean a Ha); contradiction. }
  split; [|split; [|split]].
  - intros selector text H. apply Hscript in H; [|discriminate|discriminate].
    apply attempted_In in H. unfold setup_steps, page_steps in H. cbn [app In] in H.
    repeat (destruct H as [H|H]; [try discriminate H|]); [|destruct H].
    injection H as <- <-. split; reflexivity.
  - rewrite filter_app.
    assert (Hc : filter is_fill cleanup = []).
    { unfold cleanup.
      destruct (forallb (succeeds env) setup_steps), (succeeds env Start);
        reflexivity. }
    rewrite Hc, app_nil_r.
    change (setup_steps ++ page_steps content)
      with ((setup_steps ++ firstn 4 (page_steps content))
              ++ Fill TEXT_EDITOR content :: skipn 5 (page_steps content)).
    apply attempted_filter_one; reflexivity.
  - intros H. apply Hscript in H; [|discriminate|discriminate].
    change (setup_steps ++ page_steps content)
      with ((setup_steps ++ firstn 4 (page_steps content))
              ++ Fill TEXT_EDITOR content :: skipn 5 (page_steps content)) in *.
    apply attempted_after in H.
    + destruct H as [Hf Hin]. split; [exact Hf|]. apply in_or_app. now left.
    + unfold setup_steps, page_steps. cbn [firstn app In].
      intros Hin. repeat (destruct Hin as [Hin|Hin]; [discriminate Hin|]).
      destruct Hin.
  - intros status.
    unfold cleanup, setup_steps, page_steps, succeeds.
    cbn [app attempted forallb andb fst snd].
    repeat first
      [ intros H; discriminate H
      | intros H;
        match type of H with
        | context [is_Exception ?e] => destruct (is_Exception e)
        end; discriminate H
      | case_calls env content; cbn [fst snd] ].
    intros _. cbn [app In]. split; tauto.
Qed.
End LinkedInContent.


Lemma X25_linkedin_content_witness :
  In (LinkedInPublisher.Fill LinkedInPublisher.TEXT_EDITOR sixty_letters)
     (Method.events (LinkedInPublisher.publish working_browser sixty_letters tt))
  /\ In (LinkedInPublisher.Click LinkedInPublisher.PUBLISH_BUTTON)
        (Method.events (LinkedInPublisher.publish working_browser sixty_letters tt)).
Proof.
  destruct (X25_linkedin_content working_browser sixty_letters) as (_ & _ & _ & H).
  apply (H (lit "LinkedIn: published successfully")). reflexivity.
Defined.

(** With the editor missing the browser is still closed and the session
    left, and the publish button is never clicked. *)
Example editor_missing_calls :
  Method.events (LinkedInPublisher.publish editor_missing (lit "post") tt)
  = [ LinkedInPublisher.Start;
      LinkedInPublisher.Launch false;
      LinkedInPublisher.NewPage;
      LinkedInPublisher.Goto LinkedInPublisher.LINKEDIN_FEED_URL;
      LinkedInPublisher.WaitForSelector LinkedInPublisher.SHARE_BOX 10000;
      LinkedInPublisher.Click LinkedInPublisher.SHARE_BOX;
      LinkedInPublisher.WaitForSelector LinkedInPublisher.TEXT_EDITOR 10000;
      LinkedInPublisher.Fill LinkedInPublisher.TEXT_EDITOR (lit "post");
      LinkedInPublisher.Close;
      LinkedInPublisher.Stop ].
Proof. reflexivity. Qed.
